(** * DSBA-LMS: evaluation, ranking and reporting core

    A shallow embedding of [src/services/examService.ts] and of the
    classification code of [src/components/AntiCheatMonitor.tsx] and
    [src/components/COPOAnalytics.tsx], with the properties the
    specification states about them.

    Conventions of the embedding.
    - A JavaScript [number] is a binary64 value; [number] holds the value it
      denotes: a rational, one of the two infinities, or NaN.  The two zeros
      are identified: they differ only as divisors, and the divisors of this
      program are collection sizes, the constant 100, a total that was
      tested to be positive, and the stored total of a submission in the
      leaderboard percentage, on which no property below relies.  [Num] has
      the comparisons,
      [Math.min], [Math.max] and [Math.round], whose results are exact, and
      the four arithmetic operations on the denoted values.  [IEEE] has the
      four operations as the language performs them: the exact result
      rounded to the nearest binary64 value, ties to even, with overflow to
      an infinity.
    - The verdict on a question is given twice.  [Binary64.evaluateQuestion]
      computes as the program does; [Binary64.evaluateAnswers] is built on
      it and is what [submitTest] calls.  [evaluateQuestion] is the same
      text with the rounding of each operation left out, and with the ASCII
      lower-casing; it carries the order properties of the award, which
      rounding (being monotone) preserves.
    - The sign of a difference of two binary64 values is the sign of the
      exact difference, so the comparison functions handed to [sort] use the
      exact subtraction.
    - JavaScript strings are modelled by [string], a sequence of code units
      of eight bits (text of the Latin-1 range), compared and searched code
      unit by code unit as the language does.
      The lower-casing of the language is a parameter of the binary64
      engine; [toLowerCase] is its restriction to ASCII, and properties that
      speak of letter case assume the two agree on ASCII strings.
    - [Record<string, T>] objects are finite maps [gmap string T].  An
      assignment [object[key] = value] is [setProperty]: the key
      ["__proto__"] names the prototype accessor, and assigning an object to
      it stores no property.  A read [object[key]] is the lookup in the
      map, except that for a key the object does not store and that names a
      member of [Object.prototype] the language returns that member instead
      of [undefined]; each such read is modelled where it occurs, with
      [Object.prototype] as the language defines it.
    - [localStorage] is a record of typed slots; [None] is an absent key.
      Malformed stored JSON is outside the model, and so is the rewriting of
      NaN and the infinities to [null] by [JSON.stringify]: properties of
      values that are written and read back assume finite numbers. *)

From Stdlib Require Import QArith Qround Qminmax Qabs Qpower Lqa Ascii.
From stdpp Require Import gmap strings list fin_maps pretty sorting.

Local Open Scope Z_scope.

(** ** JavaScript numbers *)

Module Num.

Local Open Scope Q_scope.

Inductive number : Type :=
| Fin (q : Q)
| PInf
| NInf
| NaN.

Definition ofZ (z : Z) : number := Fin (inject_Z z).
Definition ofNat (n : nat) : number := ofZ (Z.of_nat n).

(** Sign of a number that is not NaN. *)
Definition sgn (x : number) : comparison :=
  match x with
  | Fin q => 0 ?= q
  | PInf => Lt
  | NInf => Gt
  | NaN => Eq
  end.

Definition neg (x : number) : number :=
  match x with
  | Fin q => Fin (- q)
  | PInf => NInf
  | NInf => PInf
  | NaN => NaN
  end.

Definition add (x y : number) : number :=
  match x, y with
  | NaN, _ | _, NaN => NaN
  | Fin a, Fin b => Fin (a + b)
  | PInf, NInf | NInf, PInf => NaN
  | PInf, _ | _, PInf => PInf
  | NInf, _ | _, NInf => NInf
  end.

Definition sub (x y : number) : number := add x (neg y).

(** An infinity with the sign given by comparing zero with the other
    factor; zero times infinity is NaN. *)
Definition inf_signed (c : comparison) (pos : number) : number :=
  match c with
  | Lt => pos
  | Gt => neg pos
  | Eq => NaN
  end.

Definition mul (x y : number) : number :=
  match x, y with
  | NaN, _ | _, NaN => NaN
  | Fin a, Fin b => Fin (a * b)
  | PInf, o | o, PInf => inf_signed (sgn o) PInf
  | NInf, o | o, NInf => inf_signed (sgn o) NInf
  end.

Definition div (x y : number) : number :=
  match x, y with
  | NaN, _ | _, NaN => NaN
  | Fin a, Fin b =>
      if Qeq_bool b 0 then inf_signed (0 ?= a) PInf else Fin (a / b)
  | Fin _, (PInf | NInf) => Fin 0
  | (PInf | NInf), (PInf | NInf) => NaN
  | PInf, Fin b => if Qle_bool 0 b then PInf else NInf
  | NInf, Fin b => if Qle_bool 0 b then NInf else PInf
  end.

(** [x < y]; false as soon as one side is NaN. *)
Definition ltb (x y : number) : bool :=
  match x, y with
  | NaN, _ | _, NaN => false
  | Fin a, Fin b => negb (Qle_bool b a)
  | NInf, NInf | PInf, _ | _, NInf => false
  | NInf, _ | _, PInf => true
  end.

Definition eqb (x y : number) : bool :=
  match x, y with
  | Fin a, Fin b => Qeq_bool a b
  | PInf, PInf | NInf, NInf => true
  | _, _ => false
  end.

Definition gtb (x y : number) : bool := ltb y x.
Definition leb (x y : number) : bool := ltb x y || eqb x y.
Definition geb (x y : number) : bool := leb y x.

(** [Math.min] and [Math.max]: NaN if an argument is NaN. *)
Definition min (x y : number) : number :=
  match x, y with
  | NaN, _ | _, NaN => NaN
  | _, _ => if ltb y x then y else x
  end.

Definition max (x y : number) : number :=
  match x, y with
  | NaN, _ | _, NaN => NaN
  | _, _ => if ltb x y then y else x
  end.

(** [Math.round]: the nearest integer, halves rounded towards +Infinity. *)
Definition round (x : number) : number :=
  match x with
  | Fin q => ofZ (Qfloor (q + (1 # 2)))
  | o => o
  end.

(** ToBoolean on a number: zero and NaN are falsy. *)
Definition truthy (x : number) : bool :=
  match x with
  | Fin q => negb (Qeq_bool q 0)
  | PInf | NInf => true
  | NaN => false
  end.

(** [a || b] on numbers. *)
Definition or (x y : number) : number := if truthy x then x else y.

Definition is_finite (x : number) : Prop :=
  match x with Fin _ => True | _ => False end.

(** Equality of the denoted values. *)
Definition equiv (x y : number) : Prop :=
  match x, y with
  | Fin a, Fin b => a == b
  | PInf, PInf | NInf, NInf | NaN, NaN => True
  | _, _ => False
  end.

(** The order on the denoted values, for statements: [le x y] holds only
    between finite numbers. *)
Definition le (x y : number) : Prop :=
  match x, y with
  | Fin a, Fin b => a <= b
  | _, _ => False
  end.

End Num.

Import Num.

(** ** Binary64 arithmetic *)

Module IEEE.

Local Open Scope Q_scope.

Definition pow2 (e : Z) : Q := 2 ^ e.

(** [ilog2 q] is the integer [e] with [2 ^ e <= q < 2 ^ (e + 1)], for a
    positive [q]. *)
Definition ilog2 (q : Q) : Z :=
  let c := (Z.log2 (Qnum q) - Z.log2 (Zpos (Qden q)))%Z in
  if Qle_bool (pow2 c) q then c else (c - 1)%Z.

(** The nearest integer, halves to the even neighbour. *)
Definition rne (q : Q) : Z :=
  let f := Qfloor q in
  match Qcompare (q - inject_Z f) (1 # 2) with
  | Lt => f
  | Gt => (f + 1)%Z
  | Eq => if Z.even f then f else (f + 1)%Z
  end.

(** The exponent of the last place of the binary64 values around [q]: 53
    significant bits, the least normal exponent being -1022. *)
Definition expo (q : Q) : Z := (Z.max (ilog2 (Qabs q)) (-1022) - 52)%Z.

(** The nearest multiple of [2 ^ expo q]. *)
Definition roundQ (q : Q) : Q :=
  if Qeq_bool q 0 then 0
  else Qred (inject_Z (rne (q / pow2 (expo q))) * pow2 (expo q)).

(** Round to nearest, ties to even; a result of magnitude [2 ^ 1024] or
    more is an infinity. *)
Definition RN (q : Q) : number :=
  let r := roundQ q in
  if Qle_bool (pow2 1024) r then PInf
  else if Qle_bool r (- pow2 1024) then NInf
  else Fin r.

Definition rounded (x : number) : number :=
  match x with
  | Fin q => RN q
  | o => o
  end.

Definition add (x y : number) : number := rounded (Num.add x y).
Definition sub (x y : number) : number := rounded (Num.sub x y).
Definition mul (x y : number) : number := rounded (Num.mul x y).
Definition div (x y : number) : number := rounded (Num.div x y).

(** The value of a decimal literal. *)
Definition lit (q : Q) : number := RN q.

(** The finite binary64 values that are not negative. *)
Definition representable (q : Q) : Prop := roundQ q == q ∧ q < pow2 1024.

End IEEE.

(** ** Strings *)

Definition lower_ascii (c : ascii) : ascii :=
  let n := nat_of_ascii c in
  if ((65 <=? n) && (n <=? 90))%nat then ascii_of_nat (n + 32) else c.

(** [String.prototype.toLowerCase] on ASCII text: the letters [A] to [Z]
    are mapped to [a] to [z], every other character is kept. *)
Fixpoint toLowerCase (s : string) : string :=
  match s with
  | EmptyString => EmptyString
  | String c s' => String (lower_ascii c) (toLowerCase s')
  end.

(** [s.includes(sub)]: [sub] starts at some position of [s]. *)
Fixpoint includes (s sub : string) : bool :=
  if String.prefix sub s then true
  else match s with
       | EmptyString => false
       | String _ s' => includes s' sub
       end.

(** [parts.join(sep)]. *)
Definition join (sep : string) (parts : list string) : string :=
  String.concat sep parts.

(** ** Data model ([types/exam]) *)

Inductive QuestionType : Type := mcq | checkbox | descriptive.

(** A value of type [string | string[]].  An array is an object: it has an
    identity, which is what [===] compares. *)
Inductive value : Type :=
| VStr (s : string)
| VArr (ref : positive) (items : list string).

Record Question : Type := {
  q_id : string;
  q_type : QuestionType;
  q_text : string;
  q_options : option (list string);
  q_correctAnswer : option value;
  q_keywords : option (list string);
  q_marks : number;
  q_co : option string;
  q_po : option string
}.

Record Test : Type := {
  t_id : string;
  t_title : string;
  t_description : string;
  t_subject : string;
  t_duration : number;
  t_totalMarks : number;
  t_questions : list Question;
  t_isActive : bool;
  t_createdBy : string;
  t_createdAt : Z;
  t_instructions : list string
}.

Inductive AntiCheatEventType : Type :=
  tab_switch | copy_paste | right_click | fullscreen_exit.

Record AntiCheatEvent : Type := {
  e_id : string;
  e_type : AntiCheatEventType;
  e_timestamp : Z;
  e_details : option string
}.

Record EvaluatedAnswer : Type := {
  isCorrect : bool;
  marksAwarded : number;
  feedback : string
}.

Record TestSubmission : Type := {
  s_id : string;
  s_testId : string;
  s_studentId : string;
  s_studentName : string;
  s_answers : gmap string value;
  s_score : number;
  s_totalMarks : number;
  s_timeSpent : number;
  s_submittedAt : Z;
  s_evaluatedAnswers : gmap string EvaluatedAnswer;
  s_antiCheatEvents : list AntiCheatEvent
}.

Record COPOMapping : Type := {
  courseOutcomes : list string;
  programOutcomes : list string
}.

Record LeaderboardEntry : Type := {
  l_studentId : string;
  l_studentName : string;
  l_score : number;
  l_totalMarks : number;
  l_percentage : number;
  l_rank : number;
  l_timeSpent : number;
  l_submittedAt : Z
}.

(** ** The verdict on one question ([evaluateAnswers]) *)

(** [a === b] on values of type [string | string[] | undefined]. *)
Definition strictEq (a b : option value) : bool :=
  match a, b with
  | None, None => true
  | Some (VStr x), Some (VStr y) => String.eqb x y
  | Some (VArr r _), Some (VArr r' _) => Pos.eqb r r'
  | _, _ => false
  end.

(** A [Set] of strings, as the list of its elements in insertion order. *)
Definition set_has (s : list string) (x : string) : bool :=
  bool_decide (x ∈ s).

Definition set_add (s : list string) (x : string) : list string :=
  if set_has s x then s else s ++ [x].

Definition newSet (l : list string) : list string :=
  foldl set_add [] l.

Definition len {A} (l : list A) : Z := Z.of_nat (length l).

(** The [checkbox] branch, from two arrays. *)
Definition evaluateCheckbox (marks : number) (correct user : list string)
  : bool * number :=
  let correctAnswers := newSet correct in
  let userAnswers := newSet user in
  let correctSelected := len (List.filter (set_has correctAnswers) userAnswers) in
  let totalCorrect := len correctAnswers in
  let incorrectSelected := len userAnswers - correctSelected in
  let partialScore := mul (div (ofZ correctSelected) (ofZ totalCorrect)) marks in
  let penalty :=
    Num.min (mul partialScore (Fin (1 # 2)))
            (mul (ofZ incorrectSelected) (div marks (ofZ totalCorrect))) in
  ((correctSelected =? totalCorrect) && (incorrectSelected =? 0),
   Num.max (Fin 0) (sub partialScore penalty)).

(** The [descriptive] branch, from the answer text and the keywords. *)
Definition matchedKeywords (keywords : list string) (userAnswer : string)
  : list string :=
  let answerLower := toLowerCase userAnswer in
  List.filter (fun keyword => includes answerLower (toLowerCase keyword)) keywords.

Definition evaluateDescriptive (marks : number) (keywords : list string)
    (userAnswer : string) : EvaluatedAnswer :=
  let matched := matchedKeywords keywords userAnswer in
  let keywordScore := mul (div (ofZ (len matched)) (ofZ (len keywords))) marks in
  {| isCorrect := geb (ofZ (len matched)) (mul (ofZ (len keywords)) (Fin (3 # 5)));
     marksAwarded := round keywordScore;
     feedback := "Keywords found: " ++ join ", " matched |}.

(** The body of the [forEach] callback: the verdict for one question. *)
Definition evaluateQuestion (question : Question) (userAnswer : option value)
  : EvaluatedAnswer :=
  match q_type question with
  | mcq =>
      let isCorrect := strictEq userAnswer (q_correctAnswer question) in
      {| isCorrect := isCorrect;
         marksAwarded := if isCorrect then q_marks question else Fin 0;
         feedback := "" |}
  | checkbox =>
      match userAnswer, q_correctAnswer question with
      | Some (VArr _ user), Some (VArr _ correct) =>
          let '(isCorrect, marksAwarded) :=
            evaluateCheckbox (q_marks question) correct user in
          {| isCorrect := isCorrect; marksAwarded := marksAwarded; feedback := "" |}
      | _, _ => {| isCorrect := false; marksAwarded := Fin 0; feedback := "" |}
      end
  | descriptive =>
      match userAnswer, q_keywords question with
      | Some (VStr text), Some keywords =>
          evaluateDescriptive (q_marks question) keywords text
      | _, _ => {| isCorrect := false; marksAwarded := Fin 0; feedback := "" |}
      end
  end.

(** ** Plain objects used as maps *)

(** [object[key] = value] for a value that is an object: every key stores
    a property except ["__proto__"], which replaces the prototype and leaves
    the properties as they are. *)
Definition setProperty {A} (object : gmap string A) (key : string) (v : A)
  : gmap string A :=
  if String.eqb key "__proto__" then object else <[key := v]> object.

(** The names of the members of [Object.prototype].  A read [object[key]]
    of a key the object does not store returns [undefined], except for
    these keys: it returns the member, an object or a function. *)
Definition objectPrototypeMembers : list string :=
  [ "__proto__"; "constructor"; "hasOwnProperty"; "isPrototypeOf";
    "propertyIsEnumerable"; "toLocaleString"; "toString"; "valueOf";
    "__defineGetter__"; "__defineSetter__"; "__lookupGetter__";
    "__lookupSetter__" ].

Definition inheritedMember (key : string) : bool :=
  bool_decide (key ∈ objectPrototypeMembers).

(** ** Evaluation engine in binary64 *)

Module Binary64.

Section Engine.
(** [String.prototype.toLowerCase]. *)
Variable toLowerCase : string → string.

(** The [checkbox] branch, from two arrays. *)
Definition evaluateCheckbox (marks : number) (correct user : list string)
  : bool * number :=
  let correctAnswers := newSet correct in
  let userAnswers := newSet user in
  let correctSelected := len (List.filter (set_has correctAnswers) userAnswers) in
  let totalCorrect := len correctAnswers in
  let incorrectSelected := len userAnswers - correctSelected in
  let partialScore :=
    IEEE.mul (IEEE.div (ofZ correctSelected) (ofZ totalCorrect)) marks in
  let penalty :=
    Num.min (IEEE.mul partialScore (IEEE.lit (1 # 2)))
            (IEEE.mul (ofZ incorrectSelected) (IEEE.div marks (ofZ totalCorrect))) in
  ((correctSelected =? totalCorrect) && (incorrectSelected =? 0),
   Num.max (Fin 0) (IEEE.sub partialScore penalty)).

(** The [descriptive] branch, from the answer text and the keywords. *)
Definition matchedKeywords (keywords : list string) (userAnswer : string)
  : list string :=
  let answerLower := toLowerCase userAnswer in
  List.filter (fun keyword => includes answerLower (toLowerCase keyword)) keywords.

Definition evaluateDescriptive (marks : number) (keywords : list string)
    (userAnswer : string) : EvaluatedAnswer :=
  let matched := matchedKeywords keywords userAnswer in
  let keywordScore :=
    IEEE.mul (IEEE.div (ofZ (len matched)) (ofZ (len keywords))) marks in
  {| isCorrect :=
       geb (ofZ (len matched)) (IEEE.mul (ofZ (len keywords)) (IEEE.lit (3 # 5)));
     marksAwarded := round keywordScore;
     feedback := "Keywords found: " ++ join ", " matched |}.

(** The body of the [forEach] callback: the verdict for one question. *)
Definition evaluateQuestion (question : Question) (userAnswer : option value)
  : EvaluatedAnswer :=
  match q_type question with
  | mcq =>
      let isCorrect := strictEq userAnswer (q_correctAnswer question) in
      {| isCorrect := isCorrect;
         marksAwarded := if isCorrect then q_marks question else Fin 0;
         feedback := "" |}
  | checkbox =>
      match userAnswer, q_correctAnswer question with
      | Some (VArr _ user), Some (VArr _ correct) =>
          let '(isCorrect, marksAwarded) :=
            evaluateCheckbox (q_marks question) correct user in
          {| isCorrect := isCorrect; marksAwarded := marksAwarded; feedback := "" |}
      | _, _ => {| isCorrect := false; marksAwarded := Fin 0; feedback := "" |}
      end
  | descriptive =>
      match userAnswer, q_keywords question with
      | Some (VStr text), Some keywords =>
          evaluateDescriptive (q_marks question) keywords text
      | _, _ => {| isCorrect := false; marksAwarded := Fin 0; feedback := "" |}
      end
  end.

(** The verdict on [answers[question.id]].  When the answer map stores
    nothing under an id that names a member of [Object.prototype], the
    value read is that member: not a string, not an array, and equal to no
    canonical answer, so the three variables keep their initial values. *)
Definition verdictOf (answers : gmap string value) (question : Question)
  : EvaluatedAnswer :=
  match answers !! q_id question with
  | Some userAnswer => evaluateQuestion question (Some userAnswer)
  | None =>
      if inheritedMember (q_id question)
      then {| isCorrect := false; marksAwarded := Fin 0; feedback := "" |}
      else evaluateQuestion question None
  end.

(** The loop state: [totalScore] and the [evaluatedAnswers] object. *)
Definition evalStep (answers : gmap string value)
    (st : number * gmap string EvaluatedAnswer) (question : Question)
  : number * gmap string EvaluatedAnswer :=
  let r := verdictOf answers question in
  (IEEE.add (fst st) (marksAwarded r), setProperty (snd st) (q_id question) r).

Definition evaluateAnswers (test : Test) (answers : gmap string value)
  : number * gmap string EvaluatedAnswer :=
  let st := foldl (evalStep answers) (Fin 0, ∅) (t_questions test) in
  (round (fst st), snd st).
End Engine.

End Binary64.

(** ** Repository over [localStorage] *)

(** The four keys of [localStorage] this program uses, with the values
    their JSON text denotes. *)
Record Storage : Type := {
  dsba_tests : option (list Test);
  dsba_submissions : option (list TestSubmission);
  dsba_copo : option COPOMapping;
  dsba_anticheat : option (list AntiCheatEvent)
}.

Definition mockTests : list Test :=
  [ {| t_id := "test-1";
       t_title := "Data Structures - First IA";
       t_description := "Internal Assessment covering Arrays, Linked Lists, and Stacks";
       t_subject := "Computer Science";
       t_duration := ofZ 120;
       t_totalMarks := ofZ 40;
       t_isActive := true;
       t_createdBy := "T001";
       t_createdAt := 1705276800000;
       t_instructions :=
         [ "Read all questions carefully before starting";
           "Manage your time effectively";
           "Do not refresh the page during exam";
           "Anti-cheat measures are active" ];
       t_questions :=
         [ {| q_id := "q1"; q_type := mcq;
              q_text := "Which data structure follows LIFO principle?";
              q_options := Some ["Queue"; "Stack"; "Array"; "Linked List"];
              q_correctAnswer := Some (VStr "Stack");
              q_keywords := None;
              q_marks := ofZ 5; q_co := Some "CO1"; q_po := Some "PO1" |};
           {| q_id := "q2"; q_type := checkbox;
              q_text := "Select all linear data structures:";
              q_options := Some ["Array"; "Tree"; "Stack"; "Graph"; "Queue"];
              q_correctAnswer := Some (VArr 1 ["Array"; "Stack"; "Queue"]);
              q_keywords := None;
              q_marks := ofZ 10; q_co := Some "CO2"; q_po := Some "PO2" |};
           {| q_id := "q3"; q_type := descriptive;
              q_text := "Explain the advantages of linked lists over arrays.";
              q_options := None;
              q_correctAnswer := None;
              q_keywords :=
                Some ["dynamic"; "memory"; "insertion"; "deletion"; "flexible"];
              q_marks := ofZ 15; q_co := Some "CO3"; q_po := Some "PO3" |} ] |} ].

Definition mockCOPO : COPOMapping :=
  {| courseOutcomes :=
       [ "CO1: Understand basic data structures";
         "CO2: Implement linear data structures";
         "CO3: Analyze algorithm complexity";
         "CO4: Design efficient algorithms";
         "CO5: Apply data structures to solve problems" ];
     programOutcomes :=
       [ "PO1: Engineering knowledge";
         "PO2: Problem analysis";
         "PO3: Design/development of solutions";
         "PO4: Conduct investigations";
         "PO5: Modern tool usage" ] |}.

(** [slot || fallback] for a key that is only written when absent. *)
Definition seed {A} (slot : option A) (fallback : A) : option A :=
  match slot with
  | Some v => Some v
  | None => Some fallback
  end.

Definition initializeData (st : Storage) : Storage :=
  {| dsba_tests := seed (dsba_tests st) mockTests;
     dsba_submissions := seed (dsba_submissions st) [];
     dsba_copo := seed (dsba_copo st) mockCOPO;
     dsba_anticheat := seed (dsba_anticheat st) [] |}.

Definition getTests (st : Storage) : list Test * Storage :=
  let st := initializeData st in
  (default [] (dsba_tests st), st).

Definition getTestById (id : string) (st : Storage) : option Test * Storage :=
  let '(tests, st) := getTests st in
  (List.find (fun test => String.eqb (t_id test) id) tests, st).

Definition getSubmissions (st : Storage) : list TestSubmission * Storage :=
  let st := initializeData st in
  (default [] (dsba_submissions st), st).

Definition getSubmissionsByTest (testId : string) (st : Storage)
  : list TestSubmission * Storage :=
  let '(subs, st) := getSubmissions st in
  (List.filter (fun sub => String.eqb (s_testId sub) testId) subs, st).

(** The outcome of a call that may throw. *)
Inductive outcome (A : Type) : Type :=
| Returned (v : A)
| Thrown (message : string).
Arguments Returned {A} v.
Arguments Thrown {A} message.

(** [submitTest].  [idTime] and [submittedAt] are the two clock readings
    ([Date.now()] and [new Date()]); the toast is not part of the state.
    [toLowerCase] is the lower-casing of the language, which the evaluation
    uses. *)
Definition submitTest (toLowerCase : string → string)
    (testId studentId studentName : string)
    (answers : gmap string value) (timeSpent : number)
    (antiCheatEvents : list AntiCheatEvent) (idTime submittedAt : Z)
    (st : Storage) : outcome TestSubmission * Storage :=
  let '(test, st) := getTestById testId st in
  match test with
  | None => (Thrown "Test not found", st)
  | Some test =>
      let '(score, evaluatedAnswers) :=
        Binary64.evaluateAnswers toLowerCase test answers in
      let submission :=
        {| s_id := "sub-" ++ pretty idTime;
           s_testId := testId;
           s_studentId := studentId;
           s_studentName := studentName;
           s_answers := answers;
           s_score := score;
           s_totalMarks := t_totalMarks test;
           s_timeSpent := timeSpent;
           s_submittedAt := submittedAt;
           s_evaluatedAnswers := evaluatedAnswers;
           s_antiCheatEvents := antiCheatEvents |} in
      let '(submissions, st) := getSubmissions st in
      (Returned submission,
       {| dsba_tests := dsba_tests st;
          dsba_submissions := Some (submissions ++ [submission]);
          dsba_copo := dsba_copo st;
          dsba_anticheat := dsba_anticheat st |})
  end.

(** ** Leaderboard *)

(** [Array.prototype.sort] with a comparison function: a stable sort in
    which [x] is placed after [y] only when [compare x y > 0] (a NaN result
    counts as [0]).  For a consistent comparator every stable sort returns
    this list. *)
Section Sort.
Context {A : Type} (compare : A → A → number).

Fixpoint insertSorted (x : A) (l : list A) : list A :=
  match l with
  | [] => [x]
  | y :: l' =>
      if gtb (compare x y) (Fin 0) then y :: insertSorted x l'
      else x :: y :: l'
  end.

Definition sort (l : list A) : list A := foldr insertSorted [] l.
End Sort.

Definition leaderboardEntry (index : nat) (sub : TestSubmission)
  : LeaderboardEntry :=
  {| l_studentId := s_studentId sub;
     l_studentName := s_studentName sub;
     l_score := s_score sub;
     l_totalMarks := s_totalMarks sub;
     l_percentage :=
       round (IEEE.mul (IEEE.div (s_score sub) (s_totalMarks sub)) (ofZ 100));
     l_rank := ofZ (Z.of_nat index + 1);
     l_timeSpent := s_timeSpent sub;
     l_submittedAt := s_submittedAt sub |}.

Definition compareEntries (a b : LeaderboardEntry) : number :=
  Num.or (sub (l_score b) (l_score a)) (sub (l_timeSpent a) (l_timeSpent b)).

Definition setRank (index : nat) (entry : LeaderboardEntry) : LeaderboardEntry :=
  {| l_studentId := l_studentId entry;
     l_studentName := l_studentName entry;
     l_score := l_score entry;
     l_totalMarks := l_totalMarks entry;
     l_percentage := l_percentage entry;
     l_rank := ofZ (Z.of_nat index + 1);
     l_timeSpent := l_timeSpent entry;
     l_submittedAt := l_submittedAt entry |}.

Definition rankSubmissions (submissions : list TestSubmission)
  : list LeaderboardEntry :=
  imap setRank (sort compareEntries (imap leaderboardEntry submissions)).

Definition getLeaderboard (testId : string) (st : Storage)
  : list LeaderboardEntry * Storage :=
  let '(submissions, st) := getSubmissionsByTest testId st in
  (rankSubmissions submissions, st).

(** ** Anti-cheat classification ([AntiCheatMonitor]) *)

Inductive RiskLevel : Type := Low | Medium | High | Critical.

Record AntiCheatSummary : Type := {
  totalEvents : nat;
  tabSwitches : nat;
  copyPasteAttempts : nat;
  rightClicks : nat;
  fullscreenExits : nat;
  riskLevel : RiskLevel
}.

(** The component state [selectedTest]: ['all'] or a test id. *)
Definition filterBySelectedTest (selectedTest : string)
    (submissions : list TestSubmission) : list TestSubmission :=
  if String.eqb selectedTest "all" then submissions
  else List.filter (fun sub => String.eqb (s_testId sub) selectedTest) submissions.

(** The five counters of [calculateAntiCheatSummary]. *)
Definition countEvent (c : nat * nat * nat * nat * nat) (event : AntiCheatEvent)
  : nat * nat * nat * nat * nat :=
  let '(total, tabs, copies, clicks, exits) := c in
  let total := S total in
  match e_type event with
  | tab_switch => (total, S tabs, copies, clicks, exits)
  | copy_paste => (total, tabs, S copies, clicks, exits)
  | right_click => (total, tabs, copies, S clicks, exits)
  | fullscreen_exit => (total, tabs, copies, clicks, S exits)
  end.

Definition aggregateRiskLevel (totalEvents : nat) : RiskLevel :=
  if (50 <? totalEvents)%nat then Critical
  else if (20 <? totalEvents)%nat then High
  else if (5 <? totalEvents)%nat then Medium
  else Low.

Definition calculateAntiCheatSummary (selectedTest : string)
    (submissions : list TestSubmission) : AntiCheatSummary :=
  let filteredSubmissions := filterBySelectedTest selectedTest submissions in
  let '(total, tabs, copies, clicks, exits) :=
    foldl (fun c submission => foldl countEvent c (s_antiCheatEvents submission))
          (0, 0, 0, 0, 0)%nat filteredSubmissions in
  {| totalEvents := total;
     tabSwitches := tabs;
     copyPasteAttempts := copies;
     rightClicks := clicks;
     fullscreenExits := exits;
     riskLevel := aggregateRiskLevel total |}.

Record StudentRiskProfile : Type := {
  p_studentId : string;
  p_studentName : string;
  p_totalViolations : nat;
  p_riskLevel : RiskLevel;
  p_events : list AntiCheatEvent;
  p_testId : string;
  p_testTitle : string
}.

Definition studentRiskLevel (totalViolations : nat) : RiskLevel :=
  if (10 <? totalViolations)%nat then Critical
  else if (5 <? totalViolations)%nat then High
  else if (2 <? totalViolations)%nat then Medium
  else Low.

Definition studentRiskProfile (tests : list Test) (submission : TestSubmission)
  : StudentRiskProfile :=
  let test := List.find (fun t => String.eqb (t_id t) (s_testId submission)) tests in
  let totalViolations := length (s_antiCheatEvents submission) in
  {| p_studentId := s_studentId submission;
     p_studentName := s_studentName submission;
     p_totalViolations := totalViolations;
     p_riskLevel := studentRiskLevel totalViolations;
     p_events := s_antiCheatEvents submission;
     p_testId := s_testId submission;
     p_testTitle :=
       match test with
       | Some t => if String.eqb (t_title t) "" then "Unknown Test" else t_title t
       | None => "Unknown Test"
       end |}.

Definition generateStudentRiskProfiles (selectedTest : string)
    (submissions : list TestSubmission) (tests : list Test)
  : list StudentRiskProfile :=
  let filteredSubmissions := filterBySelectedTest selectedTest submissions in
  sort (fun a b => sub (ofNat (p_totalViolations b)) (ofNat (p_totalViolations a)))
       (map (studentRiskProfile tests)
            (List.filter (fun submission =>
                            (0 <? length (s_antiCheatEvents submission))%nat)
                         filteredSubmissions)).

(** ** Outcome attainment ([COPOAnalytics]) *)

Record OutcomeData : Type := {
  totalMarks : number;
  totalScored : number;
  questionCount : nat
}.

Record OutcomePerformance : Type := {
  o_outcome : string;
  o_name : string;
  o_totalQuestions : nat;
  o_totalMarks : number;
  o_averageScore : number;
  o_percentage : number;
  o_attainmentLevel : string
}.

(** The course axis reads [question.co], the program axis [question.po];
    the two functions of the component are otherwise the same text. *)
Inductive Axis : Type := CourseAxis | ProgramAxis.

Definition axisTag (axis : Axis) (question : Question) : option string :=
  match axis with
  | CourseAxis => q_co question
  | ProgramAxis => q_po question
  end.

Definition axisPrefix (axis : Axis) : string :=
  match axis with
  | CourseAxis => "CO"
  | ProgramAxis => "PO"
  end.

Definition axisDescriptions (axis : Axis) (copo : COPOMapping) : list string :=
  match axis with
  | CourseAxis => courseOutcomes copo
  | ProgramAxis => programOutcomes copo
  end.

(** [data.totalMarks > 0 ? (data.totalScored / data.totalMarks) * 100 : 0]. *)
Definition attainmentPercentage (data : OutcomeData) : number :=
  if gtb (totalMarks data) (Fin 0)
  then IEEE.mul (IEEE.div (totalScored data) (totalMarks data)) (ofZ 100)
  else Fin 0.

Definition attainmentLevelOf (percentage : number) : string :=
  if geb percentage (ofZ 80) then "Highly Attained"
  else if geb percentage (ofZ 60) then "Attained"
  else if geb percentage (ofZ 40) then "Partially Attained"
  else "Not Attained".

(** [array[index]] for a number [index]: defined at the non-negative
    integers below the length. *)
Definition arrayGet (l : list string) (index : number) : option string :=
  match index with
  | Fin q =>
      if Qeq_bool q (inject_Z (Qfloor q)) && (0 <=? Qfloor q)
      then l !! Z.to_nat (Qfloor q) else None
  | _ => None
  end.

Section Outcomes.
(** Library functions whose results no property below depends on. *)
Variable parseInt : string → number.
Variable replace : string → string → string → string.
Variable localeCompare : string → string → number.

(** One submission's contribution to a tagged question.  When the
    submission stores no verdict under an id that names a member of
    [Object.prototype], [questionResult] is that member: it is truthy and
    has no [marksAwarded], so [undefined] is added to the points scored. *)
Definition addSubmission (question : Question) (data : OutcomeData)
    (submission : TestSubmission) : OutcomeData :=
  match s_evaluatedAnswers submission !! q_id question with
  | Some questionResult =>
      {| totalMarks := IEEE.add (totalMarks data) (q_marks question);
         totalScored := IEEE.add (totalScored data) (marksAwarded questionResult);
         questionCount := questionCount data |}
  | None =>
      if inheritedMember (q_id question)
      then {| totalMarks := IEEE.add (totalMarks data) (q_marks question);
              totalScored := NaN;
              questionCount := questionCount data |}
      else data
  end.

(** The body of the inner [forEach] over the questions of one test; the
    object [coData] is a finite map from tags to totals.  Under a tag that
    names a member of [Object.prototype] the value read from [coData] is
    that member: no entry is made, and the updates go to the member. *)
Definition addQuestion (axis : Axis) (testSubmissions : list TestSubmission)
    (outcomeData : gmap string OutcomeData) (question : Question)
  : gmap string OutcomeData :=
  match axisTag axis question with
  | None => outcomeData
  | Some tag =>
      if String.eqb tag "" || inheritedMember tag then outcomeData
      else
        let data :=
          default {| totalMarks := Fin 0; totalScored := Fin 0; questionCount := 0 |}
                  (outcomeData !! tag) in
        let data :=
          {| totalMarks := totalMarks data;
             totalScored := totalScored data;
             questionCount := S (questionCount data) |} in
        <[tag := foldl (addSubmission question) data testSubmissions]> outcomeData
  end.

Definition addTest (axis : Axis) (submissions : list TestSubmission)
    (outcomeData : gmap string OutcomeData) (test : Test)
  : gmap string OutcomeData :=
  let testSubmissions :=
    List.filter (fun sub => String.eqb (s_testId sub) (t_id test)) submissions in
  foldl (addQuestion axis testSubmissions) outcomeData (t_questions test).

Definition outcomePerformance (axis : Axis) (copoMapping : COPOMapping)
    (key : string) (data : OutcomeData) : OutcomePerformance :=
  let percentage := attainmentPercentage data in
  let index := IEEE.sub (parseInt (replace key (axisPrefix axis) "")) (Fin 1) in
  let name :=
    match arrayGet (axisDescriptions axis copoMapping) index with
    | Some description => if String.eqb description "" then key else description
    | None => key
    end in
  {| o_outcome := key;
     o_name := name;
     o_totalQuestions := questionCount data;
     o_totalMarks := totalMarks data;
     o_averageScore := totalScored data;
     o_percentage := IEEE.div (round (IEEE.mul percentage (ofZ 100))) (ofZ 100);
     o_attainmentLevel := attainmentLevelOf percentage |}.

(** [calculateCOPerformance] and [calculatePOPerformance]: the totals per
    outcome tag, then one entry per tag, sorted by tag (the order of
    [Object.keys] only matters where [localeCompare] ties).  [copoMapping]
    is the value read by [getCOPOMapping], the result is the value handed to
    the state setter. *)
Definition outcomeTotals (axis : Axis) (selectedTest : string)
    (tests : list Test) (submissions : list TestSubmission)
  : gmap string OutcomeData :=
  let filteredTests :=
    if String.eqb selectedTest "all" then tests
    else List.filter (fun t => String.eqb (t_id t) selectedTest) tests in
  foldl (addTest axis submissions) ∅ filteredTests.

Definition calculatePerformance (axis : Axis) (selectedTest : string)
    (copoMapping : COPOMapping) (tests : list Test)
    (submissions : list TestSubmission) : list OutcomePerformance :=
  let outcomeData := outcomeTotals axis selectedTest tests submissions in
  sort (fun a b => localeCompare (o_outcome a) (o_outcome b))
       (map (fun kv => outcomePerformance axis copoMapping (fst kv) (snd kv))
            (map_to_list outcomeData)).

Definition calculateCOPerformance := calculatePerformance CourseAxis.
Definition calculatePOPerformance := calculatePerformance ProgramAxis.
End Outcomes.

(** ** Repository: the remaining operations of [examService] *)

Definition getActiveTests (st : Storage) : list Test * Storage :=
  let '(tests, st) := getTests st in
  (List.filter t_isActive tests, st).

(** [localStorage.setItem(TESTS_KEY, JSON.stringify(tests))]. *)
Definition setTests (tests : list Test) (st : Storage) : Storage :=
  {| dsba_tests := Some tests;
     dsba_submissions := dsba_submissions st;
     dsba_copo := dsba_copo st;
     dsba_anticheat := dsba_anticheat st |}.

(** The argument of [createTest]: a test without [id] and [createdAt]. *)
Record TestData : Type := {
  d_title : string;
  d_description : string;
  d_subject : string;
  d_duration : number;
  d_totalMarks : number;
  d_questions : list Question;
  d_isActive : bool;
  d_createdBy : string;
  d_instructions : list string
}.

(** [createTest]; [idTime] and [createdAt] are the two clock readings. *)
Definition createTest (test : TestData) (idTime createdAt : Z) (st : Storage)
  : Test * Storage :=
  let newTest :=
    {| t_id := "test-" ++ pretty idTime;
       t_title := d_title test;
       t_description := d_description test;
       t_subject := d_subject test;
       t_duration := d_duration test;
       t_totalMarks := d_totalMarks test;
       t_questions := d_questions test;
       t_isActive := d_isActive test;
       t_createdBy := d_createdBy test;
       t_createdAt := createdAt;
       t_instructions := d_instructions test |} in
  let '(tests, st) := getTests st in
  (newTest, setTests (tests ++ [newTest]) st).

(** [tests.findIndex(test => test.id === id)]; [None] is [-1]. *)
Fixpoint findIndex {A} (f : A → bool) (l : list A) : option nat :=
  match l with
  | [] => None
  | x :: l' => if f x then Some 0%nat else S <$> findIndex f l'
  end.

(** A [Partial<Test>]: the keys an update carries. *)
Record TestUpdates : Type := {
  u_id : option string;
  u_title : option string;
  u_description : option string;
  u_subject : option string;
  u_duration : option number;
  u_totalMarks : option number;
  u_questions : option (list Question);
  u_isActive : option bool;
  u_createdBy : option string;
  u_createdAt : option Z;
  u_instructions : option (list string)
}.

(** [{ ...test, ...updates }]. *)
Definition applyUpdates (test : Test) (updates : TestUpdates) : Test :=
  {| t_id := default (t_id test) (u_id updates);
     t_title := default (t_title test) (u_title updates);
     t_description := default (t_description test) (u_description updates);
     t_subject := default (t_subject test) (u_subject updates);
     t_duration := default (t_duration test) (u_duration updates);
     t_totalMarks := default (t_totalMarks test) (u_totalMarks updates);
     t_questions := default (t_questions test) (u_questions updates);
     t_isActive := default (t_isActive test) (u_isActive updates);
     t_createdBy := default (t_createdBy test) (u_createdBy updates);
     t_createdAt := default (t_createdAt test) (u_createdAt updates);
     t_instructions := default (t_instructions test) (u_instructions updates) |}.

Definition updateTest (id : string) (updates : TestUpdates) (st : Storage)
  : bool * Storage :=
  let '(tests, st) := getTests st in
  match findIndex (fun test => String.eqb (t_id test) id) tests with
  | None => (false, st)
  | Some testIndex =>
      (true, setTests (alter (fun test => applyUpdates test updates) testIndex tests) st)
  end.

Definition flipActive (test : Test) : Test :=
  {| t_id := t_id test;
     t_title := t_title test;
     t_description := t_description test;
     t_subject := t_subject test;
     t_duration := t_duration test;
     t_totalMarks := t_totalMarks test;
     t_questions := t_questions test;
     t_isActive := negb (t_isActive test);
     t_createdBy := t_createdBy test;
     t_createdAt := t_createdAt test;
     t_instructions := t_instructions test |}.

(** [toggleTestStatus]: [find] returns the first test with the id, an
    element of the array [tests]; the assignment to [test.isActive] changes
    that element in place. *)
Definition toggleTestStatus (id : string) (st : Storage) : bool * Storage :=
  let '(tests, st) := getTests st in
  match findIndex (fun t => String.eqb (t_id t) id) tests with
  | None => (false, st)
  | Some testIndex => (true, setTests (alter flipActive testIndex tests) st)
  end.

Definition getSubmissionsByStudent (studentId : string) (st : Storage)
  : list TestSubmission * Storage :=
  let '(subs, st) := getSubmissions st in
  (List.filter (fun sub => String.eqb (s_studentId sub) studentId) subs, st).

(** [getCOPOMapping].  The fallback ['{}'] stands for an object without
    fields; the key is seeded by [initializeData], so it is never taken. *)
Definition getCOPOMapping (st : Storage) : COPOMapping * Storage :=
  let st := initializeData st in
  (default {| courseOutcomes := []; programOutcomes := [] |} (dsba_copo st), st).

Definition updateCOPOMapping (copo : COPOMapping) (st : Storage) : Storage :=
  {| dsba_tests := dsba_tests st;
     dsba_submissions := dsba_submissions st;
     dsba_copo := Some copo;
     dsba_anticheat := dsba_anticheat st |}.

(** The argument of [logAntiCheatEvent]: an event without [id]. *)
Record AntiCheatEventData : Type := {
  a_type : AntiCheatEventType;
  a_timestamp : Z;
  a_details : option string
}.

(** [logAntiCheatEvent]; [now] is the clock reading of [Date.now()].  The
    function reads the key itself, without [initializeData]. *)
Definition logAntiCheatEvent (event : AntiCheatEventData) (now : Z) (st : Storage)
  : Storage :=
  let events := default [] (dsba_anticheat st) in
  let newEvent :=
    {| e_id := "ac-" ++ pretty now;
       e_type := a_type event;
       e_timestamp := a_timestamp event;
       e_details := a_details event |} in
  {| dsba_tests := dsba_tests st;
     dsba_submissions := dsba_submissions st;
     dsba_copo := dsba_copo st;
     dsba_anticheat := Some (events ++ [newEvent]) |}.

(** The record [submitTest] builds for a test that was found. *)
Definition submissionOf (toLowerCase : string → string) (test : Test)
    (testId studentId studentName : string)
    (answers : gmap string value) (timeSpent : number)
    (antiCheatEvents : list AntiCheatEvent) (idTime submittedAt : Z)
  : TestSubmission :=
  {| s_id := "sub-" ++ pretty idTime;
     s_testId := testId;
     s_studentId := studentId;
     s_studentName := studentName;
     s_answers := answers;
     s_score := (Binary64.evaluateAnswers toLowerCase test answers).1;
     s_totalMarks := t_totalMarks test;
     s_timeSpent := timeSpent;
     s_submittedAt := submittedAt;
     s_evaluatedAnswers := (Binary64.evaluateAnswers toLowerCase test answers).2;
     s_antiCheatEvents := antiCheatEvents |}.

(** [localStorage.setItem(SUBMISSIONS_KEY, JSON.stringify(submissions))]. *)
Definition setSubmissions (submissions : list TestSubmission) (st : Storage)
  : Storage :=
  {| dsba_tests := dsba_tests st;
     dsba_submissions := Some submissions;
     dsba_copo := dsba_copo st;
     dsba_anticheat := dsba_anticheat st |}.

(** ** Anti-cheat monitor: loading *)

(** [loadAntiCheatData], as the pair of values handed to the two state
    setters of the summary and the profiles.  [userId] is [user?.id]:
    [None] when nobody is logged in. *)
Definition createdByUser (userId : option string) (test : Test) : bool :=
  match userId with
  | Some id => String.eqb (t_createdBy test) id
  | None => false
  end.

Definition loadAntiCheatData (userId : option string) (selectedTest : string)
    (st : Storage) : (AntiCheatSummary * list StudentRiskProfile) * Storage :=
  let '(tests, st) := getTests st in
  let userTests := List.filter (createdByUser userId) tests in
  let '(allSubmissions, st) := getSubmissions st in
  let userSubmissions :=
    List.filter (fun submission =>
                   existsb (fun test => String.eqb (t_id test) (s_testId submission))
                           userTests)
                allSubmissions in
  ((calculateAntiCheatSummary selectedTest userSubmissions,
    generateStudentRiskProfiles selectedTest userSubmissions userTests), st).

(** ** Specification-side definitions *)



(** The same rule with each operation performed in binary64, in the order
    in which the specification writes them. *)
Definition awardOfCounts64 (points : number) (k correctSelected incorrectSelected : nat)
  : number :=
  let k := ofNat k in
  let correctSelected := ofNat correctSelected in
  let incorrectSelected := ofNat incorrectSelected in
  let partialScore := IEEE.mul (IEEE.div correctSelected k) points in
  let penalty :=
    Num.min (IEEE.mul partialScore (IEEE.lit (1 # 2)))
            (IEEE.mul incorrectSelected (IEEE.div points k)) in
  Num.max (Fin 0) (IEEE.sub partialScore penalty).

Definition multiChoiceAward64 (points : number) (C S : gset string) : number :=
  awardOfCounts64 points (size C) (size (S ∩ C)) (size (S ∖ C)).

(** The lower-case form of [keyword] occurs in the lower-case form of
    [text], for a lower-casing function [lower]. *)
Definition occursLowered (lower : string → string) (keyword text : string) : Prop :=
  ∃ before after : string,
    lower text = (before ++ lower keyword ++ after)%string.

(** Two characters that are the same letter in either case, or the same
    character. *)
Definition isUpperCase (c : ascii) : Prop :=
  (65 ≤ nat_of_ascii c ≤ 90)%nat.

Definition sameLetter (c d : ascii) : Prop :=
  c = d
  ∨ (isUpperCase c ∧ nat_of_ascii d = nat_of_ascii c + 32)%nat
  ∨ (isUpperCase d ∧ nat_of_ascii c = nat_of_ascii d + 32)%nat.

Inductive sameIgnoringCase : string → string → Prop :=
| sameIgnoringCase_nil : sameIgnoringCase "" ""
| sameIgnoringCase_cons c d s t :
    sameLetter c d → sameIgnoringCase s t →
    sameIgnoringCase (String c s) (String d t).

(** [keyword] occurs in [text] as a substring, letter case ignored: some
    substring of [text] is [keyword] up to the case of its letters. *)
Definition occursIgnoringCase (keyword text : string) : Prop :=
  ∃ before found after : string,
    text = (before ++ found ++ after)%string ∧ sameIgnoringCase found keyword.

(** Strings of ASCII characters, and what is assumed of the lower-casing
    of the language: on these strings it is [toLowerCase]. *)
Fixpoint asciiOnly (s : string) : bool :=
  match s with
  | EmptyString => true
  | String c s' => (nat_of_ascii c <? 128)%nat && asciiOnly s'
  end.

Definition lowersASCII (lower : string → string) : Prop :=
  ∀ s, asciiOnly s = true → lower s = toLowerCase s.

(** [countOf P l n]: exactly [n] entries of [l] satisfy [P]. *)
Inductive countOf {A} (P : A → Prop) : list A → nat → Prop :=
| countOf_nil : countOf P [] 0
| countOf_hit x l n : P x → countOf P l n → countOf P (x :: l) (S n)
| countOf_miss x l n : ¬ P x → countOf P l n → countOf P (x :: l) n.

(** The free-text rule as the specification words it, from the number of
    matched keywords and the number of keywords, each operation performed
    in binary64. *)
Definition freeTextAward64 (points : number) (matched total : nat) : number :=
  round (IEEE.mul (IEEE.div (ofNat matched) (ofNat total)) points).

Definition matchedFraction (matched total : nat) : Q :=
  inject_Z (Z.of_nat matched) / inject_Z (Z.of_nat total).

(** The answer has the shape of another kind of question. *)
Definition wrongShape (kind : QuestionType) (v : value) : Prop :=
  match kind, v with
  | mcq, VArr _ _ | checkbox, VStr _ | descriptive, VArr _ _ => True
  | _, _ => False
  end.

(** The invariant of the data model on one question: a positive point
    value, at least one canonical option for multi-choice, a non-empty
    keyword set for free-text. *)
Definition positiveNumber (x : number) : Prop :=
  match x with Fin q => (0 < q)%Q | _ => False end.

Definition canonicalAnswerOk (question : Question) : Prop :=
  match q_type question with
  | mcq => True
  | checkbox => ∃ r c, q_correctAnswer question = Some (VArr r c) ∧ c ≠ []
  | descriptive => ∃ k, q_keywords question = Some k ∧ k ≠ []
  end.

Definition questionInvariant (question : Question) : Prop :=
  positiveNumber (q_marks question) ∧ canonicalAnswerOk question.

(** A point value that is a positive whole number, as the authoring dialog
    produces with [parseInt]. *)
Definition wholeMarks (question : Question) : Prop :=
  ∃ z : Z, 0 < z ∧ q_marks question = ofZ z.

(** A number that is a binary64 value, as every number of the program is:
    rounding leaves it as it is. *)
Definition binary64 (x : number) : Prop := equiv (IEEE.rounded x) x.

(** A finite number between zero and [bound]. *)
Definition within (x : number) (bound : Q) : Prop :=
  ∃ r : Q, x = Fin r ∧ (0 <= r)%Q ∧ (r <= bound)%Q.

(** A question whose id is not ["__proto__"]. *)
Definition plainId (question : Question) : Prop := q_id question ≠ "__proto__".

(** The sum of the question points of a test. *)
Definition totalPoints (test : Test) : number :=
  foldl add (Fin 0) (map q_marks (t_questions test)).

(** Position-wise order of the leaderboard: score descending, then elapsed
    time ascending. *)
Definition ranksBefore (a b : LeaderboardEntry) : Prop :=
  match l_score a, l_score b, l_timeSpent a, l_timeSpent b with
  | Fin sa, Fin sb, Fin ta, Fin tb => (sb < sa ∨ (sa == sb ∧ ta <= tb))%Q
  | _, _, _, _ => False
  end.

Definition finiteSubmission (submission : TestSubmission) : Prop :=
  is_finite (s_score submission) ∧ is_finite (s_timeSpent submission).

(** Values that [JSON.stringify] writes and [JSON.parse] reads back
    unchanged: their numbers are finite. *)
Definition storableQuestions (questions : list Question) : Prop :=
  Forall (fun question => is_finite (q_marks question)) questions.

Definition storableData (test : TestData) : Prop :=
  is_finite (d_duration test) ∧ is_finite (d_totalMarks test) ∧
  storableQuestions (d_questions test).

Definition storableUpdates (updates : TestUpdates) : Prop :=
  from_option is_finite True (u_duration updates) ∧
  from_option is_finite True (u_totalMarks updates) ∧
  from_option storableQuestions True (u_questions updates).

Definition storableSubmission (submission : TestSubmission) : Prop :=
  is_finite (s_score submission) ∧ is_finite (s_totalMarks submission) ∧
  is_finite (s_timeSpent submission) ∧
  map_Forall (fun _ result => is_finite (marksAwarded result))
             (s_evaluatedAnswers submission).

(** A leaderboard entry without its rank. *)
Definition unranked (entry : LeaderboardEntry) : LeaderboardEntry := setRank 0 entry.

(** What a leaderboard entry says of its submission, and what the
    submission says. *)
Definition entryRow (entry : LeaderboardEntry)
  : string * string * number * number * number * Z :=
  (l_studentId entry, l_studentName entry, l_score entry, l_totalMarks entry,
   l_timeSpent entry, l_submittedAt entry).

Definition submissionRow (submission : TestSubmission)
  : string * string * number * number * number * Z :=
  (s_studentId submission, s_studentName submission, s_score submission,
   s_totalMarks submission, s_timeSpent submission, s_submittedAt submission).

(** The verdict on a question that was not answered. *)
Definition unanswered : EvaluatedAnswer :=
  {| isCorrect := false; marksAwarded := Fin 0; feedback := "" |}.

(** Entries the comparison function orders: finite score and time. *)
Definition finiteEntry (entry : LeaderboardEntry) : Prop :=
  is_finite (l_score entry) ∧ is_finite (l_timeSpent entry).

(** The number of events of one kind in a log. *)
Definition sameEventType (a b : AntiCheatEventType) : bool :=
  match a, b with
  | tab_switch, tab_switch | copy_paste, copy_paste
  | right_click, right_click | fullscreen_exit, fullscreen_exit => true
  | _, _ => false
  end.

Definition eventsOfType (kind : AntiCheatEventType) (events : list AntiCheatEvent)
  : nat :=
  length (List.filter (fun event => sameEventType (e_type event) kind) events).

(** The events of a list of submissions, in order. *)
Definition allEvents (submissions : list TestSubmission) : list AntiCheatEvent :=
  concat (map s_antiCheatEvents submissions).

(** [question] carries the outcome tag [tag] on [axis]; the empty tag and
    the names of the members of [Object.prototype] do not count as tags. *)
Definition taggedWith (axis : Axis) (tag : string) (question : Question) : bool :=
  match axisTag axis question with
  | Some t => String.eqb t tag && negb (String.eqb t "" || inheritedMember t)
  | None => false
  end.

(** The totals count the tagged questions seen so far. *)
Definition countsTagged (axis : Axis) (totals : gmap string OutcomeData)
    (seen : list Question) : Prop :=
  ∀ tag,
    match totals !! tag with
    | Some data =>
        questionCount data = length (List.filter (taggedWith axis tag) seen) ∧
        List.filter (taggedWith axis tag) seen ≠ []
    | None => List.filter (taggedWith axis tag) seen = []
    end.

(** The tests an outcome report covers: all of them, or those with the
    selected id. *)
Definition selectedTests (selectedTest : string) (tests : list Test) : list Test :=
  if String.eqb selectedTest "all" then tests
  else List.filter (fun t => String.eqb (t_id t) selectedTest) tests.

(** The tier of a count on a scale whose tiers Low, Medium and High end at
    [low], [medium] and [high]. *)
Definition tierOfCount (low medium high n : nat) : RiskLevel :=
  if (n <=? low)%nat then Low
  else if (n <=? medium)%nat then Medium
  else if (n <=? high)%nat then High
  else Critical.

(** The submissions in the scope of the monitor: all of them, or those of
    the selected test. *)
Definition inScope (selectedTest : string) (submission : TestSubmission) : bool :=
  String.eqb selectedTest "all" || String.eqb (s_testId submission) selectedTest.

(** The submissions in scope that logged at least one event. *)
Definition flagged (selectedTest : string) (submissions : list TestSubmission)
  : list TestSubmission :=
  List.filter (fun submission =>
                 inScope selectedTest submission
                 && negb (Nat.eqb (length (s_antiCheatEvents submission)) 0))
              submissions.

(** What a risk profile says about its submission, and what the
    specification says it should. *)
Definition profileFacts (profile : StudentRiskProfile)
  : string * string * string * list AntiCheatEvent * nat * RiskLevel :=
  (p_studentId profile, p_studentName profile, p_testId profile,
   p_events profile, p_totalViolations profile, p_riskLevel profile).

Definition submissionFacts (submission : TestSubmission)
  : string * string * string * list AntiCheatEvent * nat * RiskLevel :=
  (s_studentId submission, s_studentName submission, s_testId submission,
   s_antiCheatEvents submission, length (s_antiCheatEvents submission),
   tierOfCount 2 5 10 (length (s_antiCheatEvents submission))).

(** Descending order of the number of violations. *)
Definition moreViolations (a b : StudentRiskProfile) : Prop :=
  (p_totalViolations b ≤ p_totalViolations a)%nat.

(** ** Sample data

    The seeded test, question by question, and the inputs of the examples
    of the specification. *)

Definition stackQuestion : Question :=
  {| q_id := "q1"; q_type := mcq;
     q_text := "Which data structure follows LIFO principle?";
     q_options := Some ["Queue"; "Stack"; "Array"; "Linked List"];
     q_correctAnswer := Some (VStr "Stack");
     q_keywords := None;
     q_marks := ofZ 5; q_co := Some "CO1"; q_po := Some "PO1" |}.

Definition linearQuestion : Question :=
  {| q_id := "q2"; q_type := checkbox;
     q_text := "Select all linear data structures:";
     q_options := Some ["Array"; "Tree"; "Stack"; "Graph"; "Queue"];
     q_correctAnswer := Some (VArr 1 ["Array"; "Stack"; "Queue"]);
     q_keywords := None;
     q_marks := ofZ 10; q_co := Some "CO2"; q_po := Some "PO2" |}.

Definition linkedListQuestion : Question :=
  {| q_id := "q3"; q_type := descriptive;
     q_text := "Explain the advantages of linked lists over arrays.";
     q_options := None;
     q_correctAnswer := None;
     q_keywords := Some ["dynamic"; "memory"; "insertion"; "deletion"; "flexible"];
     q_marks := ofZ 15; q_co := Some "CO3"; q_po := Some "PO3" |}.

Definition seededTest : Test :=
  {| t_id := "test-1";
     t_title := "Data Structures - First IA";
     t_description := "Internal Assessment covering Arrays, Linked Lists, and Stacks";
     t_subject := "Computer Science";
     t_duration := ofZ 120;
     t_totalMarks := ofZ 40;
     t_isActive := true;
     t_createdBy := "T001";
     t_createdAt := 1705276800000;
     t_instructions := [];
     t_questions := [stackQuestion; linearQuestion; linkedListQuestion] |}.

(** A multi-choice question with six canonical options, worth 5 marks, and
    the test that asks it. *)
Definition sixOptionQuestion : Question :=
  {| q_id := "q"; q_type := checkbox; q_text := "Select the first six letters.";
     q_options := Some ["a"; "b"; "c"; "d"; "e"; "f"; "x"];
     q_correctAnswer := Some (VArr 1 ["a"; "b"; "c"; "d"; "e"; "f"]);
     q_keywords := None;
     q_marks := ofZ 5; q_co := None; q_po := None |}.

Definition sixOptionTest : Test :=
  {| t_id := "test-6"; t_title := "Six"; t_description := ""; t_subject := "";
     t_duration := ofZ 10; t_totalMarks := ofZ 5; t_isActive := true;
     t_createdBy := "T001"; t_createdAt := 0; t_instructions := [];
     t_questions := [sixOptionQuestion] |}.

(** A test whose one question has the id ["__proto__"]. *)
Definition protoTest : Test :=
  {| t_id := "test-p"; t_title := "Proto"; t_description := ""; t_subject := "";
     t_duration := ofZ 10; t_totalMarks := ofZ 5; t_isActive := true;
     t_createdBy := "T001"; t_createdAt := 0; t_instructions := [];
     t_questions :=
       [ {| q_id := "__proto__"; q_type := mcq;
            q_text := "Which data structure follows LIFO principle?";
            q_options := Some ["Queue"; "Stack"];
            q_correctAnswer := Some (VStr "Stack");
            q_keywords := None;
            q_marks := ofZ 5; q_co := None; q_po := None |} ] |}.

(** A free-text question with ten keywords, worth 45 marks. *)
Definition tenKeywordQuestion : Question :=
  {| q_id := "q"; q_type := descriptive; q_text := "Name the ten keys.";
     q_options := None; q_correctAnswer := None;
     q_keywords :=
       Some ["k0"; "k1"; "k2"; "k3"; "k4"; "k5"; "k6"; "k7"; "k8"; "k9"];
     q_marks := ofZ 45; q_co := None; q_po := None |}.

(** Two single-choice questions worth [2 ^ 1023] marks each. *)
Definition hugeQuestion (id : string) : Question :=
  {| q_id := id; q_type := mcq;
     q_text := "Which data structure follows LIFO principle?";
     q_options := Some ["Queue"; "Stack"];
     q_correctAnswer := Some (VStr "Stack");
     q_keywords := None;
     q_marks := ofZ (2 ^ 1023); q_co := None; q_po := None |}.

Definition hugeTest : Test :=
  {| t_id := "test-h"; t_title := "Huge"; t_description := ""; t_subject := "";
     t_duration := ofZ 10; t_totalMarks := ofZ 10; t_isActive := true;
     t_createdBy := "T001"; t_createdAt := 0; t_instructions := [];
     t_questions := [hugeQuestion "q1"; hugeQuestion "q2"] |}.

(** A free-text question worth half a point. *)
Definition halfMarkQuestion : Question :=
  {| q_id := "q"; q_type := descriptive; q_text := "Name the structure.";
     q_options := None; q_correctAnswer := None;
     q_keywords := Some ["stack"];
     q_marks := Fin (1 # 2); q_co := None; q_po := None |}.

Definition emptyStorage : Storage :=
  {| dsba_tests := None; dsba_submissions := None;
     dsba_copo := None; dsba_anticheat := None |}.

(** The store after its first read. *)
Definition seededStorage : Storage := initializeData emptyStorage.

(** A submission of [student] with the given score and elapsed time. *)
Definition attempt (student : string) (score timeSpent : Z) : TestSubmission :=
  {| s_id := "sub-" ++ student; s_testId := "test-1"; s_studentId := student;
     s_studentName := student; s_answers := ∅; s_score := ofZ score;
     s_totalMarks := ofZ 40; s_timeSpent := ofZ timeSpent; s_submittedAt := 0;
     s_evaluatedAnswers := ∅; s_antiCheatEvents := [] |}.

(** The three submissions A, B and C of the leaderboard example. *)
Definition threeAttempts : Storage :=
  {| dsba_tests := Some [seededTest];
     dsba_submissions := Some [attempt "A" 30 600; attempt "B" 30 500; attempt "C" 25 100];
     dsba_copo := Some mockCOPO;
     dsba_anticheat := Some [] |}.

(** A test as the authoring dialog hands it to [createTest], and an update
    that renames a test. *)
Definition quizData : TestData :=
  {| d_title := "Quiz"; d_description := ""; d_subject := "Computer Science";
     d_duration := ofZ 30; d_totalMarks := ofZ 5;
     d_questions := [stackQuestion]; d_isActive := false;
     d_createdBy := "T001"; d_instructions := [] |}.

Definition renameUpdates : TestUpdates :=
  {| u_id := None; u_title := Some "Data Structures - Second IA";
     u_description := None; u_subject := None; u_duration := None;
     u_totalMarks := None; u_questions := None; u_isActive := None;
     u_createdBy := None; u_createdAt := None; u_instructions := None |}.

Definition eventOf (kind : AntiCheatEventType) : AntiCheatEvent :=
  {| e_id := "ac-1"; e_type := kind; e_timestamp := 0; e_details := None |}.

(** A submission with the given anti-cheat log. *)
Definition attemptWith (events : list AntiCheatEvent) : TestSubmission :=
  {| s_id := "sub-1"; s_testId := "test-1"; s_studentId := "S001";
     s_studentName := "Student"; s_answers := ∅; s_score := Fin 0;
     s_totalMarks := ofZ 40; s_timeSpent := ofZ 60; s_submittedAt := 0;
     s_evaluatedAnswers := ∅; s_antiCheatEvents := events |}.

(** * Properties *)

(** ** Numbers *)

Section NumFacts.
Local Open Scope Q_scope.

Lemma ltb_Fin a b : ltb (Fin a) (Fin b) = true ↔ a < b.
Proof.
  simpl. destruct (Qle_bool b a) eqn:E; simpl.
  - apply Qle_bool_iff in E. split; [discriminate | intros; lra].
  - split; [intros _ | done].
    destruct (Qlt_le_dec a b) as [|H]; [done |].
    apply Qle_bool_iff in H. congruence.
Qed.

Lemma ltb_Fin_false a b : ltb (Fin a) (Fin b) = false ↔ b <= a.
Proof.
  destruct (ltb (Fin a) (Fin b)) eqn:E.
  - apply ltb_Fin in E. split; [discriminate | intros; lra].
  - split; [intros _ | done].
    destruct (Qlt_le_dec a b) as [H|]; [| done].
    apply ltb_Fin in H. congruence.
Qed.

Lemma eqb_Fin a b : eqb (Fin a) (Fin b) = true ↔ a == b.
Proof. apply Qeq_bool_iff. Qed.

Lemma leb_Fin a b : leb (Fin a) (Fin b) = true ↔ a <= b.
Proof.
  unfold leb. rewrite orb_true_iff, ltb_Fin, eqb_Fin. split.
  - intros [|]; lra.
  - intros H. destruct (Qlt_le_dec a b); [by left | right; lra].
Qed.

Lemma geb_Fin a b : geb (Fin a) (Fin b) = true ↔ b <= a.
Proof. apply leb_Fin. Qed.

Lemma gtb_Fin a b : gtb (Fin a) (Fin b) = true ↔ b < a.
Proof. apply ltb_Fin. Qed.

Lemma min_Fin a b : ∃ c, Num.min (Fin a) (Fin b) = Fin c ∧ c == Qmin a b.
Proof.
  unfold Num.min. destruct (ltb (Fin b) (Fin a)) eqn:E; eexists; (split; [done |]).
  - apply ltb_Fin in E. rewrite Q.min_r; lra.
  - apply ltb_Fin_false in E. rewrite Q.min_l; lra.
Qed.

Lemma max_Fin a b : ∃ c, Num.max (Fin a) (Fin b) = Fin c ∧ c == Qmax a b.
Proof.
  unfold Num.max. destruct (ltb (Fin a) (Fin b)) eqn:E; eexists; (split; [done |]).
  - apply ltb_Fin in E. rewrite Q.max_r; lra.
  - apply ltb_Fin_false in E. rewrite Q.max_l; lra.
Qed.

Lemma div_Fin a b : ¬ b == 0 → div (Fin a) (Fin b) = Fin (a / b).
Proof.
  intros H. simpl. destruct (Qeq_bool b 0) eqn:E; [| done].
  by apply Qeq_bool_iff in E.
Qed.

Lemma round_Fin q : round (Fin q) = ofZ (Qfloor (q + (1 # 2))).
Proof. done. Qed.

(** Rounding never leaves an interval with whole ends. *)
Lemma round_bounds (lo hi : Z) q :
  inject_Z lo <= q → q <= inject_Z hi →
  (lo <= Qfloor (q + (1 # 2)) <= hi)%Z.
Proof.
  intros Hlo Hhi. split.
  - rewrite <- (Qfloor_Z lo). apply Qfloor_resp_le. lra.
  - assert (Qfloor (q + (1 # 2)) < hi + 1)%Z; [| lia].
    rewrite Zlt_Qlt, inject_Z_plus.
    pose proof (Qfloor_le (q + (1 # 2))).
    change (inject_Z 1) with 1. lra.
Qed.
End NumFacts.

(** ** Rounding to binary64 *)

Section RoundingFacts.
Local Open Scope Q_scope.

Lemma pow2_pos e : 0 < IEEE.pow2 e.
Proof. apply Qpower_0_lt. reflexivity. Qed.

Lemma pow2_add a b : IEEE.pow2 (a + b) == IEEE.pow2 a * IEEE.pow2 b.
Proof. apply Qpower_plus. discriminate. Qed.

Lemma pow2_le a b : (a <= b)%Z → IEEE.pow2 a <= IEEE.pow2 b.
Proof. intros. apply Qpower_le_compat_l; [assumption | discriminate]. Qed.

Lemma pow2_lt a b : (a < b)%Z → IEEE.pow2 a < IEEE.pow2 b.
Proof. intros. apply Qpower_lt_compat_l; [assumption | reflexivity]. Qed.

Lemma pow2_Z n : (0 <= n)%Z → IEEE.pow2 n == inject_Z (2 ^ n).
Proof. intros. unfold IEEE.pow2. rewrite Zpower_Qpower by assumption. reflexivity. Qed.

Lemma pow2_succ a : IEEE.pow2 (a + 1) == 2 * IEEE.pow2 a.
Proof. rewrite pow2_add. change (IEEE.pow2 1) with 2. ring. Qed.

Lemma ilog2_spec q : 0 < q → IEEE.pow2 (IEEE.ilog2 q) <= q ∧ q < IEEE.pow2 (IEEE.ilog2 q + 1).
Proof.
  intros Hq. destruct q as [n d]. unfold IEEE.ilog2. cbn [Qnum Qden].
  assert (Hn : (0 < n)%Z) by (unfold Qlt in Hq; simpl in Hq; lia).
  set (a := Z.log2 n). set (b := Z.log2 (Z.pos d)).
  assert (Ha : (2 ^ a <= n < 2 ^ (a + 1))%Z).
  { pose proof (Z.log2_spec n Hn). unfold a. replace (Z.log2 n + 1)%Z with (Z.succ (Z.log2 n)) by lia. lia. }
  assert (Hb : (2 ^ b <= Z.pos d < 2 ^ (b + 1))%Z).
  { pose proof (Z.log2_spec (Z.pos d) ltac:(lia)). unfold b. replace (Z.log2 (Z.pos d) + 1)%Z with (Z.succ (Z.log2 (Z.pos d))) by lia. lia. }
  assert (Ha0 : (0 <= a)%Z) by apply Z.log2_nonneg.
  assert (Hb0 : (0 <= b)%Z) by apply Z.log2_nonneg.
  assert (Hq' : n # d == inject_Z n / inject_Z (Z.pos d)) by apply Qmake_Qdiv.
  assert (Hd : 0 < inject_Z (Z.pos d)) by (unfold Qlt; simpl; lia).
  assert (Qa : IEEE.pow2 a <= inject_Z n ∧ inject_Z n < IEEE.pow2 (a + 1)).
  { rewrite !pow2_Z by lia. rewrite <- Zle_Qle, <- Zlt_Qlt. lia. }
  assert (Qb : IEEE.pow2 b <= inject_Z (Z.pos d) ∧ inject_Z (Z.pos d) < IEEE.pow2 (b + 1)).
  { rewrite !pow2_Z by lia. rewrite <- Zle_Qle, <- Zlt_Qlt. lia. }
  assert (Hlow : IEEE.pow2 (a - b - 1) <= n # d).
  { rewrite Hq'. apply Qle_shift_div_l; [assumption|].
    apply Qle_trans with (IEEE.pow2 (a - b - 1) * IEEE.pow2 (b + 1)).
    - apply Qmult_le_l; [apply pow2_pos | lra].
    - rewrite <- pow2_add. replace (a - b - 1 + (b + 1))%Z with a by lia. tauto. }
  assert (Hhigh : n # d < IEEE.pow2 (a - b + 1)).
  { rewrite Hq'. apply Qlt_shift_div_r; [assumption|].
    apply Qlt_le_trans with (IEEE.pow2 (a - b + 1) * IEEE.pow2 b).
    - rewrite <- pow2_add. replace (a - b + 1 + b)%Z with (a + 1)%Z by lia. tauto.
    - apply Qmult_le_l; [apply pow2_pos | tauto]. }
  destruct (Qle_bool (IEEE.pow2 (a - b)) (n # d)) eqn:E.
  - apply Qle_bool_iff in E. split; [assumption | assumption].
  - assert (n # d < IEEE.pow2 (a - b)).
    { apply Qnot_le_lt. intros H. apply Qle_bool_iff in H. congruence. }
    replace (a - b - 1 + 1)%Z with (a - b)%Z by lia. split; assumption.
Qed.

Lemma ilog2_unique q e : IEEE.pow2 e <= q → q < IEEE.pow2 (e + 1) → IEEE.ilog2 q = e.
Proof.
  intros Hlo Hhi.
  assert (Hq : 0 < q) by (pose proof (pow2_pos e); lra).
  destruct (ilog2_spec q Hq) as [Hlo' Hhi'].
  destruct (Z.lt_trichotomy (IEEE.ilog2 q) e) as [H | [H | H]]; [ | assumption | ].
  - pose proof (pow2_le (IEEE.ilog2 q + 1) e ltac:(lia)). lra.
  - pose proof (pow2_le (e + 1) (IEEE.ilog2 q) ltac:(lia)). lra.
Qed.

Lemma ilog2_mono a b : 0 < a → a <= b → (IEEE.ilog2 a <= IEEE.ilog2 b)%Z.
Proof.
  intros Ha Hab.
  destruct (ilog2_spec a Ha) as [La Ua].
  destruct (ilog2_spec b ltac:(lra)) as [Lb Ub].
  destruct (Z_le_gt_dec (IEEE.ilog2 a) (IEEE.ilog2 b)) as [H | H]; [assumption |].
  pose proof (pow2_le (IEEE.ilog2 b + 1) (IEEE.ilog2 a) ltac:(lia)). lra.
Qed.

Lemma rne_comp a b : a == b → IEEE.rne a = IEEE.rne b.
Proof.
  intros H. unfold IEEE.rne. rewrite (Qfloor_comp _ _ H).
  assert (E : a - inject_Z (Qfloor b) == b - inject_Z (Qfloor b)) by (rewrite H; reflexivity).
  rewrite E. reflexivity.
Qed.

Lemma rne_Z z : IEEE.rne (inject_Z z) = z.
Proof.
  unfold IEEE.rne. rewrite Qfloor_Z.
  assert (E : inject_Z z - inject_Z z == 0) by ring.
  rewrite E. reflexivity.
Qed.

Lemma rne_mono a b : a <= b → (IEEE.rne a <= IEEE.rne b)%Z.
Proof.
  intros Hab.
  pose proof (Qfloor_resp_le _ _ Hab) as Hf.
  destruct (Z.eq_dec (Qfloor a) (Qfloor b)) as [E | N].
  - unfold IEEE.rne. rewrite E.
    destruct (Qcompare_spec (a - inject_Z (Qfloor b)) (1 # 2)) as [Ea | Ea | Ea];
      destruct (Qcompare_spec (b - inject_Z (Qfloor b)) (1 # 2)) as [Eb | Eb | Eb];
      destruct (Z.even (Qfloor b)); try lia; lra.
  - assert (Qfloor a + 1 <= Qfloor b)%Z by lia.
    assert (IEEE.rne a <= Qfloor a + 1)%Z.
    { unfold IEEE.rne. destruct (Qcompare _ _); [destruct (Z.even _) | |]; lia. }
    assert (Qfloor b <= IEEE.rne b)%Z.
    { unfold IEEE.rne. destruct (Qcompare _ _); [destruct (Z.even _) | |]; lia. }
    lia.
Qed.

Lemma rne_le_Z q z : q <= inject_Z z → (IEEE.rne q <= z)%Z.
Proof. intros H. rewrite <- (rne_Z z). apply rne_mono, H. Qed.

Lemma rne_ge_Z q z : inject_Z z <= q → (z <= IEEE.rne q)%Z.
Proof. intros H. rewrite <- (rne_Z z). apply rne_mono, H. Qed.

Lemma roundQ_eq q : ¬ q == 0 → IEEE.roundQ q == inject_Z (IEEE.rne (q / IEEE.pow2 (IEEE.expo q))) * IEEE.pow2 (IEEE.expo q).
Proof.
  intros H. unfold IEEE.roundQ.
  destruct (Qeq_bool q 0) eqn:E; [apply Qeq_bool_iff in E; contradiction |].
  rewrite Qred_correct. reflexivity.
Qed.

Lemma roundQ_0 q : q == 0 → IEEE.roundQ q == 0.
Proof.
  intros H. unfold IEEE.roundQ. apply Qeq_bool_iff in H. rewrite H. reflexivity.
Qed.

Lemma div_pow2 q e : q / IEEE.pow2 e == q * IEEE.pow2 (- e).
Proof.
  unfold Qdiv. apply Qmult_comp; [reflexivity |]. unfold IEEE.pow2. rewrite Qpower_opp. reflexivity.
Qed.

(** Numbers of the format are fixed by the rounding. *)
Lemma roundQ_exact (z j : Z) :
  (0 < z < 2 ^ 53)%Z → (-1074 <= j)%Z → IEEE.roundQ (inject_Z z * IEEE.pow2 j) == inject_Z z * IEEE.pow2 j.
Proof.
  intros Hz Hj. set (q := inject_Z z * IEEE.pow2 j).
  assert (Hq : 0 < q).
  { unfold q. apply Qmult_lt_0_compat; [| apply pow2_pos]. change 0 with (inject_Z 0). rewrite <- Zlt_Qlt. lia. }
  assert (Hlog : IEEE.ilog2 q = (Z.log2 z + j)%Z).
  { pose proof (Z.log2_spec z ltac:(lia)) as Hs. pose proof (Z.log2_nonneg z).
    apply ilog2_unique; unfold q.
    - rewrite pow2_add. apply Qmult_le_compat_r; [| apply Qlt_le_weak, pow2_pos].
      rewrite pow2_Z by lia. rewrite <- Zle_Qle. lia.
    - replace (Z.log2 z + j + 1)%Z with (Z.succ (Z.log2 z) + j)%Z by lia.
      rewrite pow2_add. apply Qmult_lt_compat_r; [apply pow2_pos |].
      rewrite pow2_Z by lia. rewrite <- Zlt_Qlt. lia. }
  assert (Hlt : (Z.log2 z < 53)%Z) by (apply Z.log2_lt_pow2; lia).
  rewrite roundQ_eq by lra.
  assert (Habs : Qabs q == q) by (apply Qabs_pos; lra).
  assert (He : IEEE.expo q = (Z.max (Z.log2 z + j) (-1022) - 52)%Z).
  { unfold IEEE.expo. rewrite <- Hlog. f_equal. f_equal. 
    destruct (ilog2_spec (Qabs q) ltac:(lra)) as [A B].
    symmetry. apply ilog2_unique; lra. }
  set (k := (j - IEEE.expo q)%Z).
  assert (Hk : (0 <= k)%Z) by (unfold k; lia).
  assert (Hdiv : q / IEEE.pow2 (IEEE.expo q) == inject_Z (z * 2 ^ k)).
  { rewrite div_pow2. unfold q. rewrite <- Qmult_assoc, <- pow2_add.
    rewrite inject_Z_mult. fold k. replace (j + - IEEE.expo q)%Z with k by (unfold k; lia).
    rewrite pow2_Z by assumption. reflexivity. }
  rewrite (rne_comp _ _ Hdiv), rne_Z.
  rewrite inject_Z_mult, <- pow2_Z by assumption.
  rewrite <- Qmult_assoc, <- pow2_add. replace (k + IEEE.expo q)%Z with j by (unfold k; lia).
  reflexivity.
Qed.

Lemma expo_pos_bounds q :
  0 < q → q < IEEE.pow2 (IEEE.expo q + 53) ∧ ((-1022 - 52 < IEEE.expo q)%Z → IEEE.pow2 (IEEE.expo q + 52) <= q).
Proof.
  intros Hq. assert (Habs : Qabs q == q) by (apply Qabs_pos; lra).
  destruct (ilog2_spec (Qabs q) ltac:(lra)) as [A B].
  unfold IEEE.expo. split.
  - apply Qlt_le_trans with (IEEE.pow2 (IEEE.ilog2 (Qabs q) + 1)); [lra |]. apply pow2_le. lia.
  - intros H. replace (Z.max (IEEE.ilog2 (Qabs q)) (-1022) - 52 + 52)%Z with (IEEE.ilog2 (Qabs q)) by lia. lra.
Qed.

Lemma expo_mono a b : 0 < a → a <= b → (IEEE.expo a <= IEEE.expo b)%Z.
Proof.
  intros Ha Hab. unfold IEEE.expo.
  assert (IEEE.ilog2 (Qabs a) <= IEEE.ilog2 (Qabs b))%Z.
  { apply ilog2_mono; rewrite !Qabs_pos by lra; lra. }
  lia.
Qed.

Lemma roundQ_mono a b : 0 <= a → a <= b → IEEE.roundQ a <= IEEE.roundQ b.
Proof.
  intros Ha Hab.
  assert (Hnonneg : ∀ q, 0 < q → 0 <= IEEE.roundQ q).
  { intros q Hq. rewrite roundQ_eq by lra.
    apply Qmult_le_0_compat; [| apply Qlt_le_weak, pow2_pos].
    change 0 with (inject_Z 0). rewrite <- Zle_Qle. apply rne_ge_Z.
    apply Qle_shift_div_l; [apply pow2_pos |].
    change (inject_Z 0) with 0. rewrite Qmult_0_l. lra. }
  destruct (Qeq_dec a 0) as [Za | Na].
  { rewrite (roundQ_0 a Za). destruct (Qeq_dec b 0) as [Zb | Nb].
    - rewrite (roundQ_0 b Zb). lra.
    - apply Hnonneg. lra. }
  assert (Hap : 0 < a) by lra. assert (Hbp : 0 < b) by lra.
  rewrite (roundQ_eq a), (roundQ_eq b) by lra.
  pose proof (expo_mono a b Hap Hab) as He.
  destruct (expo_pos_bounds a Hap) as [Ua _].
  destruct (expo_pos_bounds b Hbp) as [_ Lb].
  destruct (Z.eq_dec (IEEE.expo a) (IEEE.expo b)) as [E | N].
  - rewrite E. apply Qmult_le_compat_r; [| apply Qlt_le_weak, pow2_pos].
    rewrite <- Zle_Qle. apply rne_mono.
    apply Qmult_le_compat_r; [assumption |]. apply Qlt_le_weak, Qinv_lt_0_compat, pow2_pos.
  - apply Qle_trans with (IEEE.pow2 (IEEE.expo a + 53)).
    + rewrite Z.add_comm, pow2_add. apply Qmult_le_compat_r; [| apply Qlt_le_weak, pow2_pos].
      rewrite (pow2_Z 53) by lia. rewrite <- Zle_Qle. apply rne_le_Z.
      apply Qle_shift_div_r; [apply pow2_pos |].
      rewrite <- (pow2_Z 53) by lia. rewrite <- pow2_add.
      replace (53 + IEEE.expo a)%Z with (IEEE.expo a + 53)%Z by lia. lra.
    + apply Qle_trans with (IEEE.pow2 (IEEE.expo b + 52)); [apply pow2_le; lia |].
      rewrite Z.add_comm, pow2_add. apply Qmult_le_compat_r; [| apply Qlt_le_weak, pow2_pos].
      rewrite (pow2_Z 52) by lia. rewrite <- Zle_Qle. apply rne_ge_Z.
      apply Qle_shift_div_l; [apply pow2_pos |].
      rewrite <- (pow2_Z 52) by lia. rewrite <- pow2_add.
      replace (52 + IEEE.expo b)%Z with (IEEE.expo b + 52)%Z by lia. apply Lb. unfold IEEE.expo in *. lia.
Qed.

Lemma ilog2_comp a b : 0 < a → a == b → IEEE.ilog2 a = IEEE.ilog2 b.
Proof.
  intros Ha E. destruct (ilog2_spec a Ha) as [L U].
  symmetry. apply ilog2_unique; rewrite <- E; assumption.
Qed.

Lemma expo_comp a b : ¬ a == 0 → a == b → IEEE.expo a = IEEE.expo b.
Proof.
  intros Ha E. unfold IEEE.expo. f_equal. f_equal. apply ilog2_comp.
  - destruct (Qlt_le_dec 0 a) as [H | H].
    + rewrite Qabs_pos; lra.
    + apply Qle_lt_or_eq in H. destruct H as [H | H]; [| contradiction].
      rewrite Qabs_neg; lra.
  - rewrite E. reflexivity.
Qed.

Lemma roundQ_comp a b : a == b → IEEE.roundQ a == IEEE.roundQ b.
Proof.
  intros E. destruct (Qeq_dec a 0) as [Z | N].
  - rewrite (roundQ_0 a Z), (roundQ_0 b) by (rewrite <- E; assumption). reflexivity.
  - rewrite (roundQ_eq a N), (roundQ_eq b) by (rewrite <- E; assumption).
    rewrite (expo_comp a b N E).
    assert (E' : a / IEEE.pow2 (IEEE.expo b) == b / IEEE.pow2 (IEEE.expo b)) by (rewrite E; reflexivity).
    rewrite (rne_comp _ _ E'). reflexivity.
Qed.

Lemma roundQ_nonneg q : 0 <= q → 0 <= IEEE.roundQ q.
Proof.
  intros H. pose proof (roundQ_mono 0 q ltac:(lra) H) as Hm.
  rewrite (roundQ_0 0) in Hm by reflexivity. exact Hm.
Qed.

Lemma roundQ_exact_top (z j : Z) :
  (0 <= z <= 2 ^ 53)%Z → (-1074 <= j)%Z → IEEE.roundQ (inject_Z z * IEEE.pow2 j) == inject_Z z * IEEE.pow2 j.
Proof.
  intros Hz Hj.
  destruct (Z.eq_dec z 0%Z) as [-> | Hz0].
  { rewrite roundQ_0; ring. }
  destruct (Z.eq_dec z (2 ^ 53)%Z) as [-> | Htop].
  - assert (E : inject_Z (2 ^ 53) * IEEE.pow2 j == inject_Z (2 ^ 52) * IEEE.pow2 (j + 1)).
    { rewrite pow2_succ. change (2 ^ 53)%Z with (2 * 2 ^ 52)%Z. rewrite inject_Z_mult.
      change (inject_Z 2) with 2. ring. }
    rewrite (roundQ_comp _ _ E), E. apply roundQ_exact; lia.
  - apply roundQ_exact; lia.
Qed.

Lemma roundQ_idem q : 0 <= q → IEEE.roundQ (IEEE.roundQ q) == IEEE.roundQ q.
Proof.
  intros Hq. destruct (Qeq_dec q 0) as [Z | N].
  - rewrite (roundQ_comp _ _ (roundQ_0 q Z)), (roundQ_0 q Z). apply roundQ_0. reflexivity.
  - assert (Hp : 0 < q) by lra.
    destruct (expo_pos_bounds q Hp) as [U _].
    rewrite (roundQ_comp _ _ (roundQ_eq q N)), (roundQ_eq q N).
    apply roundQ_exact_top; [| unfold IEEE.expo; lia].
    split.
    + apply rne_ge_Z. apply Qle_shift_div_l; [apply pow2_pos |].
      change (inject_Z 0) with 0. rewrite Qmult_0_l. lra.
    + apply rne_le_Z. apply Qle_shift_div_r; [apply pow2_pos |].
      rewrite <- (pow2_Z 53) by lia. rewrite <- pow2_add.
      replace (53 + IEEE.expo q)%Z with (IEEE.expo q + 53)%Z by lia. lra.
Qed.

Lemma RN_Fin q : 0 <= q → IEEE.roundQ q < IEEE.pow2 1024 → IEEE.RN q = Fin (IEEE.roundQ q).
Proof.
  intros Hq H. unfold IEEE.RN.
  destruct (Qle_bool (IEEE.pow2 1024) (IEEE.roundQ q)) eqn:E1.
  { apply Qle_bool_iff in E1. lra. }
  destruct (Qle_bool (IEEE.roundQ q) (- IEEE.pow2 1024)) eqn:E2; [| reflexivity].
  apply Qle_bool_iff in E2. pose proof (roundQ_nonneg q Hq). pose proof (pow2_pos 1024). lra.
Qed.

(** Rounding does not cross a number of the format. *)
Lemma RN_below q hi :
  0 <= q → q <= hi → IEEE.representable hi → ∃ r, IEEE.RN q = Fin r ∧ 0 <= r ∧ r <= hi.
Proof.
  intros Hq Hle [Hfix Hfin]. exists (IEEE.roundQ q).
  pose proof (roundQ_mono q hi Hq Hle). pose proof (roundQ_nonneg q Hq).
  split; [apply RN_Fin; [assumption | lra] | split; [assumption | lra]].
Qed.

Lemma RN_above q lo :
  0 <= lo → lo <= q → IEEE.roundQ lo == lo → IEEE.RN q = PInf ∨ ∃ r, IEEE.RN q = Fin r ∧ lo <= r.
Proof.
  intros Hlo Hle Hfix. pose proof (roundQ_mono lo q Hlo Hle).
  unfold IEEE.RN. destruct (Qle_bool (IEEE.pow2 1024) (IEEE.roundQ q)); [left; reflexivity |].
  destruct (Qle_bool (IEEE.roundQ q) (- IEEE.pow2 1024)) eqn:E2.
  - apply Qle_bool_iff in E2. pose proof (pow2_pos 1024). lra.
  - right. exists (IEEE.roundQ q). split; [reflexivity | lra].
Qed.

Lemma representable_Z z : (0 <= z <= 2 ^ 53)%Z → IEEE.representable (inject_Z z).
Proof.
  intros Hz. split.
  - assert (E : inject_Z z == inject_Z z * IEEE.pow2 0) by (change (IEEE.pow2 0) with 1; ring).
    rewrite (roundQ_comp _ _ E), roundQ_exact_top by lia. symmetry. exact E.
  - apply Qle_lt_trans with (IEEE.pow2 53); [| apply pow2_lt; lia].
    rewrite (pow2_Z 53) by lia. rewrite <- Zle_Qle. lia.
Qed.

Lemma RN_nonneg q : 0 <= q → IEEE.RN q = PInf ∨ ∃ r, IEEE.RN q = Fin r ∧ 0 <= r.
Proof.
  intros Hq. apply (RN_above q 0); [lra | assumption |]. apply roundQ_0. reflexivity.
Qed.

(** A finite result of the rounding is a number of the format. *)
Lemma RN_representable q r : 0 <= q → IEEE.RN q = Fin r → IEEE.representable r.
Proof.
  intros Hq. unfold IEEE.RN.
  destruct (Qle_bool (IEEE.pow2 1024) (IEEE.roundQ q)) eqn:E1; [discriminate |].
  destruct (Qle_bool (IEEE.roundQ q) (- IEEE.pow2 1024)); [discriminate |].
  intros [= <-]. split; [by apply roundQ_idem |].
  apply Qnot_le_lt. intros H. apply Qle_bool_iff in H. congruence.
Qed.

Lemma lit_three_fifths :
  IEEE.lit (3 # 5) = Fin (5404319552844595 # 9007199254740992).
Proof. vm_compute. reflexivity. Qed.

Lemma lit_half : IEEE.lit (1 # 2) = Fin (1 # 2).
Proof. vm_compute. reflexivity. Qed.

Lemma pow2_minus3 : IEEE.pow2 (-3) == 1 # 8.
Proof. reflexivity. Qed.

(** The comparison [matched >= total * 0.6] of the program decides
    [matched / total >= 3 / 5], although [0.6] is not [3 / 5] and the
    product is rounded: between [total * 0.6] and the integers around
    [3 * total / 5] lies a number of the format. *)
Lemma threshold_binary64 (m t : Z) :
  (0 <= m)%Z → (0 <= t < 2 ^ 32)%Z →
  geb (ofZ m) (IEEE.mul (ofZ t) (IEEE.lit (3 # 5))) = true ↔ (3 * t <= 5 * m)%Z.
Proof.
  intros Hm Ht. rewrite lit_three_fifths. unfold IEEE.mul, ofZ.
  cbn [Num.mul IEEE.rounded].
  set (x := inject_Z t * (5404319552844595 # 9007199254740992)).
  assert (Hx0 : 0 <= x).
  { unfold x, Qle, Qmult, inject_Z. simpl Qnum. simpl Qden. lia. }
  assert (Hxt : x <= inject_Z t).
  { unfold x, Qle, Qmult, inject_Z. simpl Qnum. simpl Qden. lia. }
  destruct (RN_below x (inject_Z t) Hx0 Hxt) as (r & Hr & Hr0 & Hrt).
  { apply representable_Z. lia. }
  rewrite Hr, geb_Fin. split.
  - intros Hle. destruct (Z_le_gt_dec (3 * t) (5 * m)) as [H | H]; [exact H | exfalso].
    pose proof (Z.div_mod (3 * t) 5 ltac:(lia)) as Hdiv.
    pose proof (Z.mod_pos_bound (3 * t) 5 ltac:(lia)) as Hrem.
    set (n := (3 * t / 5)%Z) in *. set (rem := ((3 * t) mod 5)%Z) in *.
    set (w := if (rem =? 0)%Z then (8 * n - 1)%Z else (8 * n + 1)%Z).
    assert (Hw : (0 < w < 2 ^ 53 ∧ 8 * m < w
                  ∧ w * 1125899906842624 <= t * 5404319552844595)%Z).
    { unfold w. destruct (Z.eqb_spec rem 0); lia. }
    destruct Hw as (Hw & Hmw & Hwx).
    destruct (RN_above x (inject_Z w * IEEE.pow2 (-3))) as [Hinf | (r' & Hr' & Hlo)].
    + rewrite pow2_minus3. unfold Qle, Qmult, inject_Z. simpl Qnum. simpl Qden. lia.
    + rewrite pow2_minus3. unfold x, Qle, Qmult, inject_Z. simpl Qnum. simpl Qden. lia.
    + apply roundQ_exact; lia.
    + congruence.
    + rewrite Hr in Hr'. injection Hr' as <-.
      assert (inject_Z m < inject_Z w * IEEE.pow2 (-3)); [| lra].
      rewrite pow2_minus3. unfold Qlt, Qmult, inject_Z. simpl Qnum. simpl Qden. lia.
  - intros Hle. destruct (Z_le_gt_dec t m) as [H | H].
    + apply Qle_trans with (inject_Z t); [assumption |]. rewrite <- Zle_Qle. lia.
    + destruct (RN_below x (inject_Z m)) as (r' & Hr' & _ & Hrm).
      * assumption.
      * unfold x, Qle, Qmult, inject_Z. simpl Qnum. simpl Qden. lia.
      * apply representable_Z. lia.
      * rewrite Hr in Hr'. injection Hr' as <-. assumption.
Qed.

End RoundingFacts.

(** ** Sorting *)

Section SortFacts.
Context {A : Type} (compare : A → A → number).

Lemma insertSorted_perm x l : insertSorted compare x l ≡ₚ x :: l.
Proof.
  induction l as [|y l IH]; cbn [insertSorted]; [reflexivity |].
  destruct (gtb (compare x y) (Fin 0)); [| reflexivity].
  rewrite IH. apply Permutation_swap.
Qed.

Lemma sort_perm l : sort compare l ≡ₚ l.
Proof.
  induction l as [|x l IH]; simpl; [reflexivity |].
  rewrite insertSorted_perm. by f_equiv.
Qed.

Lemma elem_of_sort x l : x ∈ sort compare l ↔ x ∈ l.
Proof. by rewrite sort_perm. Qed.

Lemma length_sort l : length (sort compare l) = length l.
Proof. by rewrite sort_perm. Qed.
End SortFacts.

(** ** Lists *)

Lemma elem_of_List_filter {A} (f : A → bool) (l : list A) x :
  x ∈ List.filter f l ↔ x ∈ l ∧ f x = true.
Proof. rewrite !list_elem_of_In. apply filter_In. Qed.

Lemma NoDup_List_filter {A} (f : A → bool) (l : list A) :
  NoDup l → NoDup (List.filter f l).
Proof.
  induction 1 as [|x l Hx Hl IH]; simpl; [constructor |].
  destruct (f x); [| done].
  constructor; [| done]. rewrite elem_of_List_filter. tauto.
Qed.

(** ** Single-choice questions *)




(** ** Risk tiers *)

Lemma countEvent_total c event :
  (countEvent c event).1.1.1.1 = S c.1.1.1.1.
Proof. destruct c as [[[[? ?] ?] ?] ?]. simpl. by destruct (e_type event). Qed.

Lemma countEvents_total events c :
  (foldl countEvent c events).1.1.1.1 = (c.1.1.1.1 + length events)%nat.
Proof.
  revert c. induction events as [|e events IH]; intros c; simpl; [lia |].
  rewrite IH, countEvent_total. lia.
Qed.

Lemma countSubmissions_total (submissions : list TestSubmission) c :
  (foldl (fun c submission => foldl countEvent c (s_antiCheatEvents submission))
         c submissions).1.1.1.1
  = (c.1.1.1.1
     + sum_list (map (fun s => length (s_antiCheatEvents s)) submissions))%nat.
Proof.
  revert c. induction submissions as [|s submissions IH]; intros c; simpl; [lia |].
  rewrite IH, countEvents_total. lia.
Qed.

Lemma aggregateRiskLevel_steps n :
  (aggregateRiskLevel n = Low ↔ (n ≤ 5)%nat) ∧
  (aggregateRiskLevel n = Medium ↔ (6 ≤ n ≤ 20)%nat) ∧
  (aggregateRiskLevel n = High ↔ (21 ≤ n ≤ 50)%nat) ∧
  (aggregateRiskLevel n = Critical ↔ (50 < n)%nat).
Proof.
  unfold aggregateRiskLevel.
  destruct (Nat.ltb_spec 50 n); [repeat split; (done || lia) |].
  destruct (Nat.ltb_spec 20 n); [repeat split; (done || lia) |].
  destruct (Nat.ltb_spec 5 n); repeat split; (done || lia).
Qed.

Lemma studentRiskLevel_steps n :
  (studentRiskLevel n = Low ↔ (n ≤ 2)%nat) ∧
  (studentRiskLevel n = Medium ↔ (3 ≤ n ≤ 5)%nat) ∧
  (studentRiskLevel n = High ↔ (6 ≤ n ≤ 10)%nat) ∧
  (studentRiskLevel n = Critical ↔ (10 < n)%nat).
Proof.
  unfold studentRiskLevel.
  destruct (Nat.ltb_spec 10 n); [repeat split; (done || lia) |].
  destruct (Nat.ltb_spec 5 n); [repeat split; (done || lia) |].
  destruct (Nat.ltb_spec 2 n); repeat split; (done || lia).
Qed.

Lemma tierOfCount_aggregate n : aggregateRiskLevel n = tierOfCount 5 20 50 n.
Proof.
  unfold aggregateRiskLevel, tierOfCount.
  destruct (Nat.ltb_spec 50 n), (Nat.ltb_spec 20 n), (Nat.ltb_spec 5 n),
    (Nat.leb_spec n 5), (Nat.leb_spec n 20), (Nat.leb_spec n 50); (done || lia).
Qed.

Lemma tierOfCount_student n : studentRiskLevel n = tierOfCount 2 5 10 n.
Proof.
  unfold studentRiskLevel, tierOfCount.
  destruct (Nat.ltb_spec 10 n), (Nat.ltb_spec 5 n), (Nat.ltb_spec 2 n),
    (Nat.leb_spec n 2), (Nat.leb_spec n 5), (Nat.leb_spec n 10); (done || lia).
Qed.

Lemma filterBySelectedTest_inScope selectedTest (submissions : list TestSubmission) :
  filterBySelectedTest selectedTest submissions
  = List.filter (inScope selectedTest) submissions.
Proof.
  unfold filterBySelectedTest, inScope.
  destruct (String.eqb selectedTest "all"); simpl; [| done].
  induction submissions as [|s l IH]; simpl; [done | by rewrite <- IH].
Qed.

Lemma filter_filter_andb {A} (f g : A → bool) (l : list A) :
  List.filter g (List.filter f l) = List.filter (fun x => f x && g x) l.
Proof.
  induction l as [|x l IH]; simpl; [done |].
  destruct (f x); simpl; [destruct (g x) |]; by rewrite IH.
Qed.

Lemma flagged_eq selectedTest (submissions : list TestSubmission) :
  List.filter (fun submission => (0 <? length (s_antiCheatEvents submission))%nat)
              (filterBySelectedTest selectedTest submissions)
  = flagged selectedTest submissions.
Proof.
  rewrite filterBySelectedTest_inScope, filter_filter_andb. unfold flagged.
  induction submissions as [|s l IH]; simpl; [done |]. rewrite IH.
  by destruct (length (s_antiCheatEvents s)).
Qed.

(** C5. The aggregate tier of [calculateAntiCheatSummary] is a step
    function of the total number of events logged by the submissions in
    scope: Low up to 5, Medium from 6 to 20, High from 21 to 50, Critical
    above 50.  [generateStudentRiskProfiles] returns one profile for each
    submission in scope that logged an event; the profile carries that
    submission's student, test and event log, its violation count is the
    length of that log, and its tier is a step function of that count: Low
    up to 2, Medium from 3 to 5, High from 6 to 10, Critical above 10. *)
Theorem risk_tiers_are_step_functions :
  (∀ selectedTest submissions,
     let summary := calculateAntiCheatSummary selectedTest submissions in
     let n := totalEvents summary in
     n = sum_list (map (fun s => length (s_antiCheatEvents s))
                       (List.filter (inScope selectedTest) submissions)) ∧
     riskLevel summary = tierOfCount 5 20 50 n ∧
     (riskLevel summary = Low ↔ (n ≤ 5)%nat) ∧
     (riskLevel summary = Medium ↔ (6 ≤ n ≤ 20)%nat) ∧
     (riskLevel summary = High ↔ (21 ≤ n ≤ 50)%nat) ∧
     (riskLevel summary = Critical ↔ (50 < n)%nat)) ∧
  (∀ selectedTest submissions tests,
     let profiles := generateStudentRiskProfiles selectedTest submissions tests in
     map profileFacts profiles
       ≡ₚ map submissionFacts (flagged selectedTest submissions) ∧
     ∀ profile, profile ∈ profiles →
       ∃ submission,
         submission ∈ submissions ∧
         inScope selectedTest submission = true ∧
         p_studentId profile = s_studentId submission ∧
         p_testId profile = s_testId submission ∧
         p_events profile = s_antiCheatEvents submission ∧
         let n := length (s_antiCheatEvents submission) in
         p_totalViolations profile = n ∧
         (1 ≤ n)%nat ∧
         (p_riskLevel profile = Low ↔ (n ≤ 2)%nat) ∧
         (p_riskLevel profile = Medium ↔ (3 ≤ n ≤ 5)%nat) ∧
         (p_riskLevel profile = High ↔ (6 ≤ n ≤ 10)%nat) ∧
         (p_riskLevel profile = Critical ↔ (10 < n)%nat)).
Proof.
  split.
  - intros selectedTest submissions. unfold calculateAntiCheatSummary.
    pose proof (countSubmissions_total
                  (filterBySelectedTest selectedTest submissions) (0, 0, 0, 0, 0)%nat)
      as Htotal.
    rewrite <- filterBySelectedTest_inScope.
    destruct (foldl _ _ _) as [[[[total tabs] copies] clicks] exits].
    simpl in *. split; [done |]. split; [apply tierOfCount_aggregate |].
    apply aggregateRiskLevel_steps.
  - intros selectedTest submissions tests profiles. subst profiles.
    unfold generateStudentRiskProfiles. rewrite flagged_eq. split.
    + rewrite sort_perm, map_map.
      erewrite map_ext; [reflexivity |].
      intros s. unfold profileFacts, submissionFacts.
      simpl. by rewrite tierOfCount_student.
    + intros profile Hin.
      apply elem_of_sort, list_elem_of_fmap in Hin as (submission & -> & Hin).
      unfold flagged in Hin. apply elem_of_List_filter in Hin as [Hin Hf].
      apply andb_prop in Hf as [Hscope Hsome].
      assert (1 ≤ length (s_antiCheatEvents submission))%nat.
      { destruct (length (s_antiCheatEvents submission)); [done | lia]. }
      pose proof (studentRiskLevel_steps (length (s_antiCheatEvents submission)))
        as (HL & HM & HH & HC).
      exists submission. simpl. split_and!; done.
Qed.

Lemma risk_tiers_are_step_functions_witness :
  riskLevel (calculateAntiCheatSummary "all"
               [attemptWith (replicate 5 (eventOf tab_switch))]) = Low ∧
  riskLevel (calculateAntiCheatSummary "all"
               [attemptWith (replicate 6 (eventOf copy_paste))]) = Medium ∧
  map p_riskLevel
      (generateStudentRiskProfiles "all"
         [attemptWith (replicate 3 (eventOf tab_switch))] [seededTest]) = [Medium].
Proof.
  destruct risk_tiers_are_step_functions as [Hagg Hstudent]. split; [| split].
  - apply (Hagg "all" [attemptWith (replicate 5 (eventOf tab_switch))]).
    vm_compute. lia.
  - apply (Hagg "all" [attemptWith (replicate 6 (eventOf copy_paste))]).
    vm_compute. lia.
  - destruct (Hstudent "all" [attemptWith (replicate 3 (eventOf tab_switch))]
                [seededTest]) as [_ Hprofile].
    destruct (Hprofile (studentRiskProfile [seededTest]
                          (attemptWith (replicate 3 (eventOf tab_switch)))))
      as (submission & Hin & _ & _ & _ & Hevents & _ & _ & _ & Hmedium & _).
    { vm_compute. apply list_elem_of_here. }
    apply list_elem_of_singleton in Hin. subst submission.
    change (generateStudentRiskProfiles "all"
              [attemptWith (replicate 3 (eventOf tab_switch))] [seededTest])
      with [studentRiskProfile [seededTest]
              (attemptWith (replicate 3 (eventOf tab_switch)))].
    cbn [map]. apply (f_equal (fun level => [level])).
    apply Hmedium. vm_compute. lia.
Defined.

(** ** Missing tests *)

Lemma seed_idem {A} (slot : option A) fallback :
  seed (seed slot fallback) fallback = seed slot fallback.
Proof. by destruct slot. Qed.

Lemma initializeData_idem st : initializeData (initializeData st) = initializeData st.
Proof. unfold initializeData. simpl. by rewrite !seed_idem. Qed.

Lemma getSubmissions_initializeData st :
  (getSubmissions (initializeData st)).1 = (getSubmissions st).1.
Proof. unfold getSubmissions. by rewrite initializeData_idem. Qed.

Lemma find_none_by_id (tests : list Test) id :
  (∀ t, t ∈ tests → t_id t ≠ id) →
  List.find (fun test => String.eqb (t_id test) id) tests = None.
Proof.
  intros Hno. induction tests as [|t tests IH]; simpl; [done |].
  destruct (String.eqb_spec (t_id t) id) as [Heq|_].
  - exfalso. apply (Hno t); [left | done].
  - apply IH. intros t' Hin. apply Hno. by right.
Qed.

(** C6. When no stored test has the given id, [getTestById] returns null
    (it is a total function: nothing is thrown), and [submitTest] throws
    before it builds or appends anything.  The store it leaves is not the
    old one in general: it is the one every read leaves, with the absent
    keys seeded and the present keys untouched.  So the submission
    collection read back is the one that was there, a stored collection is
    untouched, and a store that holds its four keys is left as it was. *)
Theorem missing_test_null_and_throw testId st :
  (∀ t, t ∈ (getTests st).1 → t_id t ≠ testId) →
  (getTestById testId st).1 = None ∧
  ∀ toLowerCase studentId studentName answers timeSpent antiCheatEvents
    idTime submittedAt,
    let result :=
      submitTest toLowerCase testId studentId studentName answers timeSpent
                 antiCheatEvents idTime submittedAt st in
    result.1 = Thrown "Test not found" ∧
    result.2 = initializeData st ∧
    (getSubmissions result.2).1 = (getSubmissions st).1 ∧
    (is_Some (dsba_submissions st) →
     dsba_submissions result.2 = dsba_submissions st) ∧
    (initializeData st = st → result.2 = st).
Proof.
  intros Hno. apply find_none_by_id in Hno.
  unfold getTests in Hno. simpl in Hno.
  split.
  - unfold getTestById, getTests. simpl. by rewrite Hno.
  - intros. subst result. unfold submitTest, getTestById, getTests.
    simpl. rewrite Hno. simpl.
    split; [done |]. split; [done |].
    split; [apply getSubmissions_initializeData |].
    split; [| congruence].
    by intros [subs ->].
Qed.

Lemma missing_test_null_and_throw_witness :
  (getTestById "test-404" emptyStorage).1 = None ∧
  (submitTest toLowerCase "test-404" "S001" "Student" ∅ (ofZ 60) [] 1 2
              emptyStorage).1
  = Thrown "Test not found" ∧
  (submitTest toLowerCase "test-404" "S001" "Student" ∅ (ofZ 60) [] 1 2
              seededStorage).2
  = seededStorage.
Proof.
  assert (∀ t, t ∈ (getTests emptyStorage).1 → t_id t ≠ "test-404") as Hno.
  { intros t Hin. vm_compute in Hin.
    apply list_elem_of_singleton in Hin. subst t. discriminate. }
  assert (∀ t, t ∈ (getTests seededStorage).1 → t_id t ≠ "test-404") as Hno'.
  { intros t Hin. vm_compute in Hin.
    apply list_elem_of_singleton in Hin. subst t. discriminate. }
  destruct (missing_test_null_and_throw "test-404" emptyStorage Hno) as [Hnull Hthrow].
  destruct (missing_test_null_and_throw "test-404" seededStorage Hno') as [_ Hsame].
  split; [exact Hnull |]. split.
  - apply (Hthrow toLowerCase "S001" "Student" ∅ (ofZ 60) [] 1 2).
  - apply (Hsame toLowerCase "S001" "Student" ∅ (ofZ 60) [] 1 2). reflexivity.
Defined.

(** C6, as the specification words it, fails on a store that was never
    read: the failing [submitTest] has written the four keys by the time it
    throws. *)
Lemma submitTest_seeds_before_throwing :
  let result :=
    submitTest toLowerCase "test-404" "S001" "Student" ∅ (ofZ 60) [] 1 2
               emptyStorage in
  result.1 = Thrown "Test not found" ∧
  result.2 ≠ emptyStorage ∧
  dsba_submissions emptyStorage = None ∧
  dsba_submissions result.2 = Some [] ∧
  dsba_tests result.2 = Some mockTests.
Proof. repeat split; try reflexivity. discriminate. Qed.

(** ** Sets of options *)

Lemma set_has_true s x : set_has s x = true ↔ x ∈ s.
Proof. unfold set_has. apply bool_decide_eq_true. Qed.

Lemma elem_of_set_add s x y : y ∈ set_add s x ↔ y ∈ s ∨ y = x.
Proof.
  unfold set_add. destruct (set_has s x) eqn:E.
  - apply set_has_true in E. split; [tauto | intros [? | ->]; done].
  - rewrite elem_of_app, list_elem_of_singleton. tauto.
Qed.

Lemma NoDup_set_add s x : NoDup s → NoDup (set_add s x).
Proof.
  intros Hs. unfold set_add. destruct (set_has s x) eqn:E; [done |].
  apply NoDup_app. split; [done |]. split; [| apply NoDup_singleton].
  intros y Hy ->%list_elem_of_singleton.
  apply set_has_true in Hy. congruence.
Qed.

Lemma foldl_set_add l acc :
  NoDup acc →
  NoDup (foldl set_add acc l) ∧ ∀ y, y ∈ foldl set_add acc l ↔ y ∈ acc ∨ y ∈ l.
Proof.
  revert acc. induction l as [|x l IH]; intros acc Hacc; simpl.
  - split; [done |]. intros y. rewrite elem_of_nil. tauto.
  - destruct (IH (set_add acc x) (NoDup_set_add _ _ Hacc)) as [Hnd Hin].
    split; [done |]. intros y.
    rewrite Hin, elem_of_set_add, elem_of_cons. tauto.
Qed.

Lemma NoDup_newSet l : NoDup (newSet l).
Proof. apply foldl_set_add. constructor. Qed.

Lemma elem_of_newSet l y : y ∈ newSet l ↔ y ∈ l.
Proof.
  unfold newSet. destruct (foldl_set_add l [] (NoDup_nil_2)) as [_ ->].
  rewrite elem_of_nil. tauto.
Qed.

Lemma len_newSet l : len (newSet l) = Z.of_nat (size (list_to_set l : gset string)).
Proof.
  unfold len. f_equal.
  rewrite <- (size_list_to_set (C:=gset string) (newSet l)) by apply NoDup_newSet.
  f_equal. apply set_eq. intros x. by rewrite !elem_of_list_to_set, elem_of_newSet.
Qed.

Lemma len_selected correct user :
  len (List.filter (set_has (newSet correct)) (newSet user))
  = Z.of_nat (size ((list_to_set user : gset string) ∩ list_to_set correct)).
Proof.
  unfold len. f_equal.
  rewrite <- (size_list_to_set (C:=gset string)
                (List.filter (set_has (newSet correct)) (newSet user)))
    by apply NoDup_List_filter, NoDup_newSet.
  f_equal. apply set_eq. intros x.
  rewrite elem_of_intersection, !elem_of_list_to_set, elem_of_List_filter,
    set_has_true, !elem_of_newSet. tauto.
Qed.

Lemma len_unselected correct user :
  len (newSet user) - len (List.filter (set_has (newSet correct)) (newSet user))
  = Z.of_nat (size ((list_to_set user : gset string) ∖ list_to_set correct)).
Proof.
  rewrite len_newSet, len_selected.
  pose proof (size_difference_alt (list_to_set user : gset string)
                (list_to_set correct)) as Hdiff.
  assert ((list_to_set user : gset string) ∩ list_to_set correct ⊆ list_to_set user)
    as Hsub by apply intersection_subseteq_l.
  apply subseteq_size in Hsub. lia.
Qed.


(** ** Multi-choice questions *)


Lemma evaluateCheckbox64_spec marks correct user :
  let C := list_to_set correct : gset string in
  let S := list_to_set user : gset string in
  Binary64.evaluateCheckbox marks correct user
  = ((Z.of_nat (size (S ∩ C)) =? Z.of_nat (size C))
     && (Z.of_nat (size (S ∖ C)) =? 0),
     multiChoiceAward64 marks C S).
Proof.
  intros C S. unfold Binary64.evaluateCheckbox, multiChoiceAward64.
  cbv zeta. rewrite len_unselected, len_selected, len_newSet. done.
Qed.

(** C1. On a multi-choice question with canonical set [C] and submitted set
    [S], the award is [max(0, (cs/k)*points - min((cs/k)*points*0.5,
    is*(points/k)))] for [k = |C|], [cs = |S ∩ C|], [is = |S \ C|], each
    operation being the binary64 one, and the answer is marked correct
    exactly when [cs = k] and [is = 0]. *)
Theorem multi_choice_award toLowerCase question r correct r' user :
  q_type question = checkbox →
  q_correctAnswer question = Some (VArr r correct) →
  let C := list_to_set correct : gset string in
  let S := list_to_set user : gset string in
  let result := Binary64.evaluateQuestion toLowerCase question (Some (VArr r' user)) in
  marksAwarded result = multiChoiceAward64 (q_marks question) C S ∧
  (isCorrect result = true ↔ size (S ∩ C) = size C ∧ size (S ∖ C) = 0%nat).
Proof.
  intros Hty Hca C S result. subst result.
  unfold Binary64.evaluateQuestion. rewrite Hty, Hca, evaluateCheckbox64_spec.
  cbn [marksAwarded isCorrect]. fold C S. split; [done |].
  rewrite andb_true_iff, !Z.eqb_eq. lia.
Qed.

Lemma multi_choice_award_witness :
  marksAwarded (Binary64.evaluateQuestion toLowerCase linearQuestion
                  (Some (VArr 2 ["Array"; "Stack"; "Tree"])))
  = multiChoiceAward64 (ofZ 10)
      (list_to_set ["Array"; "Stack"; "Queue"]) (list_to_set ["Array"; "Stack"; "Tree"]).
Proof.
  apply (multi_choice_award toLowerCase linearQuestion 1 ["Array"; "Stack"; "Queue"]
           2 ["Array"; "Stack"; "Tree"]); reflexivity.
Defined.

(** The three submissions of the specification's example.  All three
    options earn the 10 marks; two of them earn 6.666666666666666, the
    binary64 value below 20/3; two of them and a wrong one earn
    3.333333333333333, the binary64 value below 10/3. *)
Example multi_choice_examples :
  let award user :=
    marksAwarded (Binary64.evaluateQuestion toLowerCase linearQuestion
                    (Some (VArr 2 user))) in
  award ["Array"; "Stack"; "Queue"] = Fin 10 ∧
  award ["Array"; "Stack"] = Fin (3752999689475413 # 562949953421312) ∧
  award ["Array"; "Stack"; "Tree"] = Fin (3752999689475413 # 1125899906842624) ∧
  ltb (award ["Array"; "Stack"]) (Fin (20 # 3)) = true ∧
  ltb (award ["Array"; "Stack"; "Tree"]) (Fin (10 # 3)) = true.
Proof. vm_compute. done. Qed.

(** Four of six canonical options and one wrong option, on 5 marks: the
    award is 2.4999999999999996, so a test of this one question scores 2;
    without rounding the award is 5/2. *)
Example multi_choice_rounding :
  let award :=
    marksAwarded (Binary64.evaluateQuestion toLowerCase sixOptionQuestion
                    (Some (VArr 2 ["a"; "b"; "c"; "d"; "x"]))) in
  award = Fin (5629499534213119 # 2251799813685248) ∧
  ltb award (Fin (5 # 2)) = true ∧
  (Binary64.evaluateAnswers toLowerCase sixOptionTest
     {[ "q" := VArr 2 ["a"; "b"; "c"; "d"; "x"] ]}).1 = Fin 2 ∧
  equiv (marksAwarded (evaluateQuestion sixOptionQuestion
                         (Some (VArr 2 ["a"; "b"; "c"; "d"; "x"]))))
        (Fin (5 # 2)).
Proof. vm_compute. done. Qed.

(** The award on finite points and a non-empty canonical set, as a
    rational. *)
Lemma inject_nat_pos (k : nat) : (0 < k)%nat → (0 < inject_Z (Z.of_nat k))%Q.
Proof. intros Hk. change 0%Q with (inject_Z 0). rewrite <- Zlt_Qlt. lia. Qed.




Lemma size_canonical_pos (correct : list string) :
  correct ≠ [] → (0 < size (list_to_set correct : gset string))%nat.
Proof.
  destruct correct as [|c correct]; [done |]. intros _.
  assert (size (list_to_set (c :: correct) : gset string) ≠ 0%nat); [| lia].
  intros Hsz%size_empty_inv. set_solver.
Qed.


(** ** Free-text questions *)

Lemma append_cons c (a rest : string) :
  (String c a ++ rest)%string = String c (a ++ rest)%string.
Proof. reflexivity. Qed.

Lemma prefix_app (a s : string) :
  String.prefix a s = true ↔ ∃ rest, s = (a ++ rest)%string.
Proof.
  revert s. induction a as [|c a IH]; intros s.
  - split; [intros _; by exists s | by destruct s].
  - destruct s as [|d s]; simpl.
    + split; [done | intros [rest Hrest]; discriminate].
    + destruct (ascii_dec c d) as [->|Hne].
      * rewrite IH. split; intros [rest Hrest]; exists rest;
          rewrite append_cons in *; congruence.
      * split; [done | intros [rest Hrest]; rewrite append_cons in Hrest; congruence].
Qed.

Lemma includes_eq (s sub : string) :
  includes s sub
  = if String.prefix sub s then true
    else match s with
         | EmptyString => false
         | String _ s' => includes s' sub
         end.
Proof. by destruct s. Qed.

Lemma includes_spec (s sub : string) :
  includes s sub = true ↔ ∃ before after, s = (before ++ sub ++ after)%string.
Proof.
  induction s as [|c s IH]; rewrite includes_eq.
  - destruct (String.prefix sub "") eqn:E.
    + apply prefix_app in E as [rest Hrest]. split; [intros _ | done].
      by exists ""%string, rest.
    + split; [done |]. intros (before & after & Heq).
      destruct before; [| discriminate].
      assert (String.prefix sub "" = true) by (apply prefix_app; eauto).
      congruence.
  - destruct (String.prefix sub (String c s)) eqn:E.
    + apply prefix_app in E as [rest Hrest]. split; [intros _ | done].
      by exists ""%string, rest.
    + rewrite IH. split.
      * intros (before & after & ->). by exists (String c before), after.
      * intros (before & after & Heq). destruct before as [|d before].
        -- assert (String.prefix sub (String c s) = true) by (apply prefix_app; eauto).
           congruence.
        -- rewrite append_cons in Heq. injection Heq as -> ->. eauto.
Qed.

Lemma includes_occurs lower keyword text :
  includes (lower text) (lower keyword) = true ↔ occursLowered lower keyword text.
Proof. apply includes_spec. Qed.

Lemma countOf_matchedKeywords keywords text :
  countOf (fun keyword => occursLowered toLowerCase keyword text) keywords
          (length (matchedKeywords keywords text)).
Proof.
  unfold matchedKeywords.
  induction keywords as [|k keywords IH]; simpl; [constructor |].
  destruct (includes (toLowerCase text) (toLowerCase k)) eqn:E.
  - simpl. apply countOf_hit; [by apply includes_occurs | done].
  - apply countOf_miss; [| done].
    intros H%includes_occurs. congruence.
Qed.

Lemma countOf_matchedKeywords64 lower keywords text :
  countOf (fun keyword => occursLowered lower keyword text) keywords
          (length (Binary64.matchedKeywords lower keywords text)).
Proof.
  unfold Binary64.matchedKeywords.
  induction keywords as [|k keywords IH]; simpl; [constructor |].
  destruct (includes (lower text) (lower k)) eqn:E.
  - simpl. apply countOf_hit; [by apply includes_occurs | done].
  - apply countOf_miss; [| done].
    intros H%includes_occurs. congruence.
Qed.

Lemma countOf_unique {A} (P : A → Prop) l n n' :
  countOf P l n → countOf P l n' → n = n'.
Proof.
  intros H. revert n'.
  induction H as [|x l n Hx H IH|x l n Hx H IH]; intros n' H';
    inversion H'; subst; try done; [f_equal |]; eauto.
Qed.

Lemma countOf_le {A} (P : A → Prop) l n : countOf P l n → (n ≤ length l)%nat.
Proof. induction 1; simpl; lia. Qed.

Lemma countOf_ext {A} (P Q : A → Prop) l n :
  Forall (fun x => P x ↔ Q x) l → countOf P l n → countOf Q l n.
Proof.
  intros Hall Hcount. induction Hcount as [|x l n Hx H IH|x l n Hx H IH].
  - constructor.
  - apply Forall_cons in Hall as [Hiff Hall].
    apply countOf_hit; [by apply Hiff | by apply IH].
  - apply Forall_cons in Hall as [Hiff Hall].
    apply countOf_miss; [by rewrite <- Hiff | by apply IH].
Qed.

(** Letter case on ASCII strings. *)
Lemma lower_ascii_upper c :
  isUpperCase c → nat_of_ascii (lower_ascii c) = (nat_of_ascii c + 32)%nat.
Proof.
  unfold isUpperCase, lower_ascii. intros [Hlo Hhi].
  destruct (Nat.leb_spec 65 (nat_of_ascii c)); [| lia].
  destruct (Nat.leb_spec (nat_of_ascii c) 90); [| lia].
  simpl. apply nat_ascii_embedding. lia.
Qed.

Lemma lower_ascii_other c : ¬ isUpperCase c → lower_ascii c = c.
Proof.
  unfold isUpperCase, lower_ascii. intros Hno.
  destruct (Nat.leb_spec 65 (nat_of_ascii c)); [| done].
  destruct (Nat.leb_spec (nat_of_ascii c) 90); [| done]. lia.
Qed.

Lemma isUpperCase_dec c : isUpperCase c ∨ ¬ isUpperCase c.
Proof. unfold isUpperCase. lia. Qed.

Lemma nat_of_ascii_inj c d : nat_of_ascii c = nat_of_ascii d → c = d.
Proof.
  intros H. rewrite <- (ascii_nat_embedding c), <- (ascii_nat_embedding d).
  by rewrite H.
Qed.

Lemma lower_ascii_same c d : lower_ascii c = lower_ascii d ↔ sameLetter c d.
Proof.
  unfold sameLetter. split.
  - intros H. apply (f_equal nat_of_ascii) in H.
    destruct (isUpperCase_dec c) as [Hc | Hc], (isUpperCase_dec d) as [Hd | Hd].
    + rewrite !lower_ascii_upper in H by done. left. apply nat_of_ascii_inj. lia.
    + rewrite lower_ascii_upper, (lower_ascii_other d) in H by done. right. left. done.
    + rewrite (lower_ascii_other c), lower_ascii_upper in H by done. right. right. done.
    + rewrite !lower_ascii_other in H by done. left. by apply nat_of_ascii_inj.
  - intros [-> | [[Hc Hd] | [Hd Hc]]]; [done | |]; apply nat_of_ascii_inj.
    + rewrite lower_ascii_upper by done.
      rewrite lower_ascii_other; [done |]. unfold isUpperCase in *. lia.
    + rewrite (lower_ascii_upper d) by done.
      rewrite lower_ascii_other; [done |]. unfold isUpperCase in *. lia.
Qed.

Lemma toLowerCase_same s t : toLowerCase s = toLowerCase t ↔ sameIgnoringCase s t.
Proof.
  split.
  - revert t. induction s as [|c s IH]; intros [|d t] H; simpl in H; try done.
    + constructor.
    + injection H as Hc Hs. constructor; [by apply lower_ascii_same | by apply IH].
  - induction 1 as [|c d s t Hcd _ IH]; simpl; [done |].
    apply lower_ascii_same in Hcd. by rewrite Hcd, IH.
Qed.

Lemma toLowerCase_app_inv s a b :
  toLowerCase s = (a ++ b)%string →
  ∃ s1 s2, s = (s1 ++ s2)%string ∧ toLowerCase s1 = a ∧ toLowerCase s2 = b.
Proof.
  revert s. induction a as [|c a IH]; intros s H.
  - by exists ""%string, s.
  - destruct s as [|d s]; [done |]. rewrite append_cons in H. simpl in H.
    injection H as Hc Hs. destruct (IH s Hs) as (s1 & s2 & -> & H1 & H2).
    exists (String d s1), s2. simpl. by rewrite Hc, H1.
Qed.

Lemma toLowerCase_append (a b : string) :
  toLowerCase (a ++ b) = (toLowerCase a ++ toLowerCase b)%string.
Proof. induction a as [|c a IH]; [done |]. rewrite !append_cons. simpl. by rewrite IH. Qed.

(** With the ASCII lower-casing, an occurrence of the lower-case forms is an
    occurrence up to letter case. *)
Lemma occursLowered_ignoringCase keyword text :
  occursLowered toLowerCase keyword text ↔ occursIgnoringCase keyword text.
Proof.
  unfold occursLowered, occursIgnoringCase. split.
  - intros (before & after & H).
    apply toLowerCase_app_inv in H as (s1 & rest & -> & _ & H).
    apply toLowerCase_app_inv in H as (found & s3 & -> & H & _).
    exists s1, found, s3. split; [done | by apply toLowerCase_same].
  - intros (before & found & after & -> & H%toLowerCase_same).
    exists (toLowerCase before), (toLowerCase after).
    by rewrite !toLowerCase_append, H.
Qed.

Lemma threshold_fraction (matched total : nat) :
  (0 < total)%nat →
  (3 * Z.of_nat total <= 5 * Z.of_nat matched)
  ↔ (3 # 5 <= matchedFraction matched total)%Q.
Proof.
  intros Ht%inject_nat_pos. unfold matchedFraction.
  assert ((3 * Z.of_nat total <= 5 * Z.of_nat matched)
          ↔ (3 * inject_Z (Z.of_nat total) <= 5 * inject_Z (Z.of_nat matched))%Q) as ->.
  { change 3%Q with (inject_Z 3). change 5%Q with (inject_Z 5).
    by rewrite <- !inject_Z_mult, <- Zle_Qle. }
  split; intros H.
  - apply Qle_shift_div_l; [done | lra].
  - apply (Qmult_le_compat_r _ _ (inject_Z (Z.of_nat total))) in H; [| lra].
    assert (inject_Z (Z.of_nat matched) / inject_Z (Z.of_nat total)
            * inject_Z (Z.of_nat total) == inject_Z (Z.of_nat matched))%Q as Hdiv
      by (field; lra).
    lra.
Qed.

(** C2. On a free-text question with a non-empty keyword list and a
    submitted text, let [matched] be the number of keywords whose lower-case
    form occurs in the lower-case form of the text; where the text and the
    keywords are ASCII, that is the number of keywords that occur in the
    text as a substring up to letter case.  The award is
    [round((matched / total) * points)], each operation being the binary64
    one, and the answer is marked correct exactly when
    [matched / total >= 3 / 5]; a fraction of exactly 3/5 is correct.  An
    array has fewer than [2 ^ 32] elements. *)
Theorem free_text_award lower question keywords text :
  q_type question = descriptive →
  q_keywords question = Some keywords → keywords ≠ [] →
  Z.of_nat (length keywords) < 2 ^ 32 →
  let result := Binary64.evaluateQuestion lower question (Some (VStr text)) in
  let total := length keywords in
  ∃ matched : nat,
    countOf (fun keyword => occursLowered lower keyword text) keywords matched ∧
    (lowersASCII lower → asciiOnly text = true →
     Forall (fun keyword => asciiOnly keyword = true) keywords →
     countOf (fun keyword => occursIgnoringCase keyword text) keywords matched) ∧
    marksAwarded result = freeTextAward64 (q_marks question) matched total ∧
    (isCorrect result = true ↔ (3 # 5 <= matchedFraction matched total)%Q) ∧
    ((matchedFraction matched total == 3 # 5)%Q → isCorrect result = true).
Proof.
  intros Hty Hkw Hne Hlen result total.
  exists (length (Binary64.matchedKeywords lower keywords text)).
  assert (0 < total)%nat as Htotal.
  { subst total. destruct keywords; [done | simpl; lia]. }
  assert (isCorrect result = true
          ↔ (3 # 5 <= matchedFraction
                         (length (Binary64.matchedKeywords lower keywords text)) total)%Q)
    as Hflag.
  { subst result. unfold Binary64.evaluateQuestion. rewrite Hty, Hkw.
    cbn [isCorrect Binary64.evaluateDescriptive]. unfold len.
    rewrite threshold_binary64 by lia. by apply threshold_fraction. }
  split; [apply countOf_matchedKeywords64 |].
  split; [| split; [| split; [done |]]].
  - intros Hlower Htext Hkeywords.
    eapply countOf_ext; [| apply countOf_matchedKeywords64].
    eapply Forall_impl; [exact Hkeywords |]. intros keyword Hkeyword. simpl.
    rewrite <- occursLowered_ignoringCase. unfold occursLowered.
    by rewrite (Hlower text Htext), (Hlower keyword Hkeyword).
  - subst result. unfold Binary64.evaluateQuestion. by rewrite Hty, Hkw.
  - intros Heq. apply Hflag. lra.
Qed.

(** ** One result per question *)

Lemma setProperty_lookup_ne {A} (object : gmap string A) key v id :
  id ≠ key → setProperty object key v !! id = object !! id.
Proof.
  intros Hne. unfold setProperty.
  destruct (String.eqb key "__proto__"); [done | by rewrite lookup_insert_ne].
Qed.

Lemma setProperty_plain {A} (object : gmap string A) key v :
  key ≠ "__proto__" → setProperty object key v = <[key := v]> object.
Proof. intros Hne. unfold setProperty. by destruct (String.eqb_spec key "__proto__"). Qed.

Lemma evalStep_fold_other lower answers questions st id :
  id ∉ map q_id questions →
  (foldl (Binary64.evalStep lower answers) st questions).2 !! id = st.2 !! id.
Proof.
  revert st. induction questions as [|q questions IH]; intros st Hid; [done |].
  simpl in *. apply not_elem_of_cons in Hid as [Hne Hid].
  rewrite IH by done. simpl. by rewrite setProperty_lookup_ne.
Qed.

Lemma evalStep_fold_lookup lower answers questions st question :
  NoDup (map q_id questions) → question ∈ questions →
  q_id question ≠ "__proto__" →
  (foldl (Binary64.evalStep lower answers) st questions).2 !! q_id question
  = Some (Binary64.verdictOf lower answers question).
Proof.
  revert st. induction questions as [|q questions IH]; intros st Hnd Hin Hplain.
  - by apply elem_of_nil in Hin.
  - simpl in *. apply NoDup_cons in Hnd as [Hq Hnd].
    apply elem_of_cons in Hin as [->|Hin].
    + rewrite evalStep_fold_other by done. simpl.
      rewrite setProperty_plain by done. by rewrite lookup_insert_eq.
    + by apply IH.
Qed.

Lemma evalStep_fold_dom lower answers questions st :
  Forall plainId questions →
  dom (foldl (Binary64.evalStep lower answers) st questions).2
  = dom st.2 ∪ list_to_set (map q_id questions).
Proof.
  intros Hplain. revert st.
  induction Hplain as [|q questions Hq _ IH]; intros st; simpl.
  - by rewrite (right_id_L ∅ (∪)).
  - rewrite IH. simpl. rewrite setProperty_plain by done.
    rewrite dom_insert_L.
    by rewrite (comm_L (∪) {[q_id q]}), <- (assoc_L (∪)).
Qed.

Lemma evaluateQuestion_unanswered lower question answer :
  (q_type question = mcq → ∃ c, q_correctAnswer question = Some (VStr c)) →
  answer = None ∨ (∃ v, answer = Some v ∧ wrongShape (q_type question) v) →
  Binary64.evaluateQuestion lower question answer = unanswered.
Proof.
  intros Hmcq Hans. unfold Binary64.evaluateQuestion, unanswered.
  destruct (q_type question) eqn:Hty.
  - destruct Hmcq as [c ->]; [done |].
    destruct Hans as [->|(v & -> & Hv)]; [done |]. by destruct v.
  - destruct Hans as [->|(v & -> & Hv)]; [done |]. by destruct v.
  - destruct Hans as [->|(v & -> & Hv)]; [done |]. by destruct v.
Qed.

Lemma verdictOf_stored lower answers question v :
  answers !! q_id question = Some v →
  Binary64.verdictOf lower answers question
  = Binary64.evaluateQuestion lower question (Some v).
Proof. unfold Binary64.verdictOf. by intros ->. Qed.

Lemma verdictOf_unanswered lower answers question :
  (q_type question = mcq → ∃ c, q_correctAnswer question = Some (VStr c)) →
  answers !! q_id question = None
  ∨ (∃ v, answers !! q_id question = Some v ∧ wrongShape (q_type question) v) →
  Binary64.verdictOf lower answers question = unanswered.
Proof.
  intros Hmcq Hans. unfold Binary64.verdictOf.
  destruct (answers !! q_id question) as [v|] eqn:Hv.
  - by apply evaluateQuestion_unanswered.
  - destruct (inheritedMember (q_id question)); [done |].
    apply evaluateQuestion_unanswered; [done | by left].
Qed.

(** C8 (as amended). For a test whose question ids are distinct and are not
    ["__proto__"], the evaluation result has exactly the question ids as
    keys, one entry per question; the entry of a question whose answer is
    stored in the answer map is the verdict on that question and answer.
    A question whose answer is missing, or has the shape of another kind,
    gets the entry [unanswered]: not correct, zero marks, the same record
    as any other verdict (a single-choice question carrying its canonical
    option). *)
Theorem one_result_per_question lower test answers :
  NoDup (map q_id (t_questions test)) →
  Forall plainId (t_questions test) →
  let evaluated := (Binary64.evaluateAnswers lower test answers).2 in
  dom evaluated = list_to_set (map q_id (t_questions test)) ∧
  size evaluated = length (t_questions test) ∧
  ∀ question, question ∈ t_questions test →
    is_Some (evaluated !! q_id question) ∧
    (∀ v, answers !! q_id question = Some v →
       evaluated !! q_id question
       = Some (Binary64.evaluateQuestion lower question (Some v))) ∧
    ((q_type question = mcq → ∃ c, q_correctAnswer question = Some (VStr c)) →
     answers !! q_id question = None
     ∨ (∃ v, answers !! q_id question = Some v ∧ wrongShape (q_type question) v) →
     evaluated !! q_id question = Some unanswered).
Proof.
  intros Hnd Hplain evaluated.
  assert (dom evaluated = list_to_set (map q_id (t_questions test))) as Hdom.
  { subst evaluated. unfold Binary64.evaluateAnswers. cbn [snd].
    rewrite evalStep_fold_dom by done. simpl.
    by rewrite dom_empty_L, (left_id_L ∅ (∪)). }
  assert (∀ question, question ∈ t_questions test →
            evaluated !! q_id question
            = Some (Binary64.verdictOf lower answers question)) as Hlook.
  { intros question Hin. subst evaluated. unfold Binary64.evaluateAnswers. cbn [snd].
    apply evalStep_fold_lookup; [done | done |].
    by eapply Forall_forall in Hplain. }
  split; [done |]. split.
  - rewrite <- size_dom, Hdom, size_list_to_set by done. apply length_map.
  - intros question Hin. rewrite (Hlook question Hin). split; [by eexists |]. split.
    + intros v Hv. by rewrite (verdictOf_stored _ _ _ v).
    + intros Hmcq Hans. by rewrite verdictOf_unanswered.
Qed.

(** C8, as the specification words it, fails for a question whose id is
    ["__proto__"]: the assignment of its verdict stores nothing, and the
    result of the evaluation has no entry at all. *)
Lemma proto_question_has_no_result :
  let evaluated := (Binary64.evaluateAnswers toLowerCase protoTest ∅).2 in
  NoDup (map q_id (t_questions protoTest)) ∧
  length (t_questions protoTest) = 1%nat ∧
  evaluated = ∅ ∧
  size evaluated = 0%nat ∧
  dom evaluated ≠ list_to_set (map q_id (t_questions protoTest)).
Proof.
  split; [apply NoDup_singleton |]. split; [done |]. split; [done |].
  split; [done |]. intros H.
  assert ("__proto__" ∈ (∅ : gset string)) as Hin; [| by apply not_elem_of_empty in Hin].
  change (dom (Binary64.evaluateAnswers toLowerCase protoTest ∅).2)
    with (dom (∅ : gmap string EvaluatedAnswer)) in H.
  rewrite dom_empty_L in H. rewrite H. simpl. set_solver.
Qed.

(** ** Bounds on the award *)

Lemma fraction_bounds (a b : nat) :
  (a ≤ b)%nat → (0 < b)%nat →
  (0 <= inject_Z (Z.of_nat a) / inject_Z (Z.of_nat b) <= 1)%Q.
Proof.
  intros Hab Hb%inject_nat_pos.
  assert (0 <= inject_Z (Z.of_nat a))%Q
    by (change 0%Q with (inject_Z 0); rewrite <- Zle_Qle; lia).
  assert (inject_Z (Z.of_nat a) <= inject_Z (Z.of_nat b))%Q
    by (rewrite <- Zle_Qle; lia).
  split.
  - apply Qle_shift_div_l; [done | lra].
  - apply Qle_shift_div_r; [done | lra].
Qed.

Lemma scale_bounds (f z : Q) : (0 <= f <= 1 → 0 <= z → 0 <= f * z <= z)%Q.
Proof.
  intros [Hf0 Hf1] Hz. split.
  - by apply Qmult_le_0_compat.
  - apply (Qmult_le_compat_r _ _ z) in Hf1; [lra | done].
Qed.

Lemma le_ofZ (a b : Z) : a <= b → le (ofZ a) (ofZ b).
Proof. intros H. simpl. by rewrite <- Zle_Qle. Qed.

Lemma RN_Fin_inv q r : IEEE.RN q = Fin r → r = IEEE.roundQ q.
Proof.
  unfold IEEE.RN.
  destruct (Qle_bool (IEEE.pow2 1024) (IEEE.roundQ q)); [discriminate |].
  destruct (Qle_bool (IEEE.roundQ q) (- IEEE.pow2 1024)); [discriminate |].
  by intros [= <-].
Qed.

Lemma binary64_representable m :
  binary64 (Fin m) → (0 <= m)%Q → IEEE.representable m.
Proof.
  unfold binary64. cbn [IEEE.rounded]. intros Hfix Hm.
  destruct (IEEE.RN m) as [r| | |] eqn:E; try done. simpl in Hfix.
  destruct (RN_representable m r Hm E) as [_ Hlt].
  apply RN_Fin_inv in E. subst r. split; [done |]. by rewrite <- Hfix.
Qed.

Lemma representable_binary64 (z : Z) : 0 <= z <= 2 ^ 53 → binary64 (ofZ z).
Proof.
  intros Hz. destruct (representable_Z z Hz) as [Hfix Hlt].
  unfold binary64, ofZ. cbn [IEEE.rounded].
  rewrite RN_Fin; [done | | by rewrite Hfix].
  change 0%Q with (inject_Z 0). rewrite <- Zle_Qle. lia.
Qed.

(** Rounding a value between zero and a number of the format: the result
    is a number of the format in the same range. *)
Lemma RN_within q hi :
  (0 <= q)%Q → (q <= hi)%Q → IEEE.representable hi →
  ∃ r, IEEE.RN q = Fin r ∧ (0 <= r)%Q ∧ (r <= hi)%Q ∧ IEEE.representable r.
Proof.
  intros Hq Hle Hhi. destruct (RN_below q hi Hq Hle Hhi) as (r & Hr & Hr0 & Hrhi).
  exists r. split_and!; try done. apply (RN_representable q r Hq Hr).
Qed.

Lemma representable_one : IEEE.representable 1.
Proof. apply (representable_Z 1). lia. Qed.

Lemma div_fraction_within (a b : nat) :
  (a ≤ b)%nat → (0 < b)%nat →
  ∃ f, IEEE.div (ofNat a) (ofNat b) = Fin f ∧ (0 <= f <= 1)%Q.
Proof.
  intros Hab Hb. pose proof (fraction_bounds a b Hab Hb) as [Hf0 Hf1].
  pose proof (inject_nat_pos b Hb) as Hb'.
  unfold IEEE.div, ofNat, ofZ. rewrite div_Fin by lra. cbn [IEEE.rounded].
  destruct (RN_within _ 1 Hf0 Hf1 representable_one) as (f & -> & ? & ? & _).
  by exists f.
Qed.

Lemma awardOfCounts64_bounds m (k cs wrong : nat) :
  (0 <= m)%Q → IEEE.representable m → (0 < k)%nat → (cs ≤ k)%nat →
  within (awardOfCounts64 (Fin m) k cs wrong) m.
Proof.
  intros Hm Hrep Hk Hcs. unfold awardOfCounts64. cbv zeta.
  destruct (div_fraction_within cs k Hcs Hk) as (f & -> & Hf).
  pose proof (scale_bounds f m Hf Hm) as [Hfm0 Hfm1].
  assert (∃ p, IEEE.mul (Fin f) (Fin m) = Fin p
               ∧ 0 <= p ∧ p <= m ∧ IEEE.representable p)%Q
    as (p & -> & Hp0 & Hpm & Hprep).
  { unfold IEEE.mul. cbn [Num.mul IEEE.rounded]. by apply RN_within. }
  assert (∃ h, IEEE.mul (Fin p) (IEEE.lit (1 # 2)) = Fin h ∧ 0 <= h ∧ h <= p)%Q
    as (h & -> & Hh0 & Hhp).
  { rewrite lit_half. unfold IEEE.mul. cbn [Num.mul IEEE.rounded].
    destruct (RN_within (p * (1 # 2)) p) as (h & -> & ? & ? & _);
      [lra | lra | done |]. by exists h. }
  pose proof (inject_nat_pos k Hk) as Hk'.
  assert (∃ u, IEEE.div (Fin m) (ofNat k) = Fin u ∧ 0 <= u)%Q as (u & -> & Hu).
  { unfold IEEE.div, ofNat, ofZ. rewrite div_Fin by lra. cbn [IEEE.rounded].
    assert (0 <= m / inject_Z (Z.of_nat k))%Q as Hu0.
    { apply Qle_shift_div_l; [done | lra]. }
    assert (m / inject_Z (Z.of_nat k) <= m)%Q as Hum.
    { apply Qle_shift_div_r; [done |].
      assert (1 <= inject_Z (Z.of_nat k))%Q
        by (change 1%Q with (inject_Z 1); rewrite <- Zle_Qle; lia).
      nra. }
    destruct (RN_within _ m Hu0 Hum Hrep) as (u & -> & ? & _). by exists u. }
  assert (∃ c, Num.min (Fin h) (IEEE.mul (ofNat wrong) (Fin u)) = Fin c
               ∧ 0 <= c ∧ c <= h)%Q as (c & -> & Hc0 & Hch).
  { unfold IEEE.mul, ofNat, ofZ. cbn [Num.mul IEEE.rounded].
    assert (0 <= inject_Z (Z.of_nat wrong) * u)%Q as Hwu.
    { apply Qmult_le_0_compat; [| done].
      change 0%Q with (inject_Z 0). rewrite <- Zle_Qle. lia. }
    destruct (RN_nonneg _ Hwu) as [-> | (v & -> & Hv)].
    - exists h. split; [reflexivity | split; [done | apply Qle_refl]].
    - destruct (min_Fin h v) as (c & -> & Hc). exists c. split; [done |].
      rewrite Hc. destruct (Q.min_spec h v) as [[? ->] | [? ->]]; split; lra. }
  unfold IEEE.sub. cbn [Num.sub neg Num.add IEEE.rounded].
  destruct (RN_within (p + - c) p) as (d & -> & Hd0 & Hdp & _); [lra | lra | done |].
  destruct (max_Fin 0 d) as (e & -> & He). exists e. split; [done |].
  rewrite He. destruct (Q.max_spec 0 d) as [[? ->] | [? ->]]; split; lra.
Qed.

Lemma matchedKeywords_length keywords text :
  (length (matchedKeywords keywords text) ≤ length keywords)%nat.
Proof. eapply countOf_le, countOf_matchedKeywords. Qed.

Lemma matchedKeywords64_length lower keywords text :
  (length (Binary64.matchedKeywords lower keywords text) ≤ length keywords)%nat.
Proof. eapply countOf_le, countOf_matchedKeywords64. Qed.

Lemma evaluateDescriptive64_bounds lower (z : Z) keywords text :
  0 <= z → IEEE.representable (inject_Z z) → keywords ≠ [] →
  ∃ w : Z,
    marksAwarded (Binary64.evaluateDescriptive lower (ofZ z) keywords text) = ofZ w ∧
    0 <= w <= z.
Proof.
  intros Hz Hrep Hne.
  assert (0 < length keywords)%nat as Hk by (destruct keywords; [done | simpl; lia]).
  pose proof (matchedKeywords64_length lower keywords text) as Hle.
  assert (0 <= inject_Z z)%Q as Hz'
    by (change 0%Q with (inject_Z 0); by rewrite <- Zle_Qle).
  unfold Binary64.evaluateDescriptive, len. cbn [marksAwarded].
  change (ofZ (Z.of_nat ?n)) with (ofNat n).
  destruct (div_fraction_within _ _ Hle Hk) as (f & -> & Hf).
  pose proof (scale_bounds f _ Hf Hz') as [Hfz0 Hfz1].
  unfold IEEE.mul, ofZ. cbn [Num.mul IEEE.rounded].
  destruct (RN_within _ _ Hfz0 Hfz1 Hrep) as (s & -> & Hs0 & Hsz & _).
  rewrite round_Fin. eexists. split; [done |].
  by apply round_bounds.
Qed.

Lemma evaluateQuestion64_bounds lower question answer :
  questionInvariant question →
  binary64 (q_marks question) →
  (q_type question = descriptive → wholeMarks question) →
  le (Fin 0) (marksAwarded (Binary64.evaluateQuestion lower question answer)) ∧
  le (marksAwarded (Binary64.evaluateQuestion lower question answer))
     (q_marks question).
Proof.
  intros [Hpos Hcanon] Hbin Hwhole.
  unfold positiveNumber in Hpos. destruct (q_marks question) as [m| | |] eqn:Hm; try done.
  assert (IEEE.representable m) as Hrep by (apply binary64_representable; [done | lra]).
  unfold canonicalAnswerOk in Hcanon.
  destruct (q_type question) eqn:Hty.
  - unfold Binary64.evaluateQuestion. rewrite Hty, Hm. cbn [marksAwarded].
    destruct (strictEq answer (q_correctAnswer question)); simpl; lra.
  - destruct Hcanon as (r & correct & Hca & Hne).
    destruct answer as [[text|r' user]|].
    + unfold Binary64.evaluateQuestion. rewrite Hty. simpl. lra.
    + unfold Binary64.evaluateQuestion.
      rewrite Hty, Hca, evaluateCheckbox64_spec, Hm. cbn [marksAwarded].
      destruct (awardOfCounts64_bounds m
                  (size (list_to_set correct : gset string))
                  (size ((list_to_set user : gset string) ∩ list_to_set correct))
                  (size ((list_to_set user : gset string) ∖ list_to_set correct)))
        as (a & Ha & Ha0 & Ham).
      * lra.
      * done.
      * by apply size_canonical_pos.
      * apply subseteq_size, intersection_subseteq_r.
      * unfold multiChoiceAward64. rewrite Ha. simpl. done.
    + unfold Binary64.evaluateQuestion. rewrite Hty. simpl. lra.
  - destruct Hcanon as (keywords & Hkw & Hne).
    destruct (Hwhole eq_refl) as (z & Hz & Hmz). rewrite Hm in Hmz.
    destruct answer as [[text|r' user]|].
    + unfold Binary64.evaluateQuestion. rewrite Hty, Hkw, Hm, Hmz.
      injection Hmz as ->.
      destruct (evaluateDescriptive64_bounds lower z keywords text) as (w & -> & Hw);
        [lia | done | done |].
      split; apply le_ofZ; lia.
    + unfold Binary64.evaluateQuestion. rewrite Hty. simpl. lra.
    + unfold Binary64.evaluateQuestion. rewrite Hty. simpl. lra.
Qed.

Lemma verdictOf_bounds lower answers question :
  questionInvariant question →
  binary64 (q_marks question) →
  (q_type question = descriptive → wholeMarks question) →
  le (Fin 0) (marksAwarded (Binary64.verdictOf lower answers question)) ∧
  le (marksAwarded (Binary64.verdictOf lower answers question)) (q_marks question).
Proof.
  intros Hinv Hbin Hwhole. unfold Binary64.verdictOf.
  destruct (answers !! q_id question) as [v|];
    [by apply evaluateQuestion64_bounds |].
  destruct (inheritedMember (q_id question));
    [| by apply evaluateQuestion64_bounds].
  destruct Hinv as [Hpos _]. unfold positiveNumber in Hpos.
  destruct (q_marks question) as [m| | |]; try done. simpl. lra.
Qed.

(** The sum of whole point values is a whole number, and grows. *)
Lemma totalPoints_fold (questions : list Question) (p : Q) (z : Z) :
  Forall wholeMarks questions → (p == inject_Z z)%Q →
  ∃ (p' : Q) (z' : Z),
    foldl add (Fin p) (map q_marks questions) = Fin p' ∧
    (p' == inject_Z z')%Q ∧ z <= z'.
Proof.
  intros Hall. revert p z.
  induction Hall as [|q questions (w & Hw & Hmw) _ IH]; intros p z Hp.
  - exists p, z. by simpl.
  - simpl. rewrite Hmw. cbn [add ofZ].
    destruct (IH (p + inject_Z w)%Q (z + w)) as (p' & z' & -> & Hp' & Hz').
    + rewrite inject_Z_plus. lra.
    + exists p', z'. split_and!; [done | done | lia].
Qed.

(** The running total stays between zero and the running sum of points,
    as long as that sum is at most [2 ^ 53]. *)
Lemma evalStep_fold_bounds lower answers questions st (a p : Q) (z : Z) :
  Forall (fun q => questionInvariant q ∧ wholeMarks q) questions →
  st.1 = Fin a → (0 <= a <= p)%Q → (p == inject_Z z)%Q →
  le (foldl add (Fin p) (map q_marks questions)) (ofZ (2 ^ 53)) →
  ∃ (a' p' : Q) (z' : Z),
    (foldl (Binary64.evalStep lower answers) st questions).1 = Fin a' ∧
    foldl add (Fin p) (map q_marks questions) = Fin p' ∧
    (p' == inject_Z z')%Q ∧ (0 <= a' <= p')%Q.
Proof.
  intros Hall. revert st a p z.
  induction Hall as [|q questions [Hinv Hwhole] Hall IH];
    intros st a p z Hst Ha Hp Htop.
  - exists a, p, z. by simpl.
  - simpl in Htop |- *.
    destruct Hwhole as (w & Hw & Hmw).
    assert (Forall wholeMarks questions) as Hwholes.
    { eapply Forall_impl; [exact Hall |]. by intros ? [_ ?]. }
    rewrite Hmw in Htop. cbn [add ofZ] in Htop.
    destruct (totalPoints_fold questions (p + inject_Z w)%Q (z + w) Hwholes)
      as (p' & z' & Hsum & Hp' & Hz'); [rewrite inject_Z_plus; lra |].
    rewrite Hsum in Htop. simpl in Htop. rewrite Hp', <- Zle_Qle in Htop.
    assert (0 <= z) as Hz0.
    { rewrite Zle_Qle. change (inject_Z 0) with 0%Q. destruct Ha. lra. }
    assert (binary64 (q_marks q)) as Hbin.
    { rewrite Hmw. apply representable_binary64. lia. }
    destruct (verdictOf_bounds lower answers q Hinv Hbin
                (fun _ => ex_intro _ w (conj Hw Hmw)))
      as [Hlo Hhi].
    rewrite Hmw in Hhi |- *. cbn [add ofZ].
    destruct (marksAwarded (Binary64.verdictOf lower answers q))
      as [b| | |] eqn:Hb; try done.
    simpl in Hlo, Hhi.
    destruct (RN_within (a + b) (inject_Z (z + w))) as (a' & Ha' & Ha0 & Haz & _).
    { lra. }
    { rewrite inject_Z_plus. lra. }
    { apply representable_Z. lia. }
    apply (IH (Binary64.evalStep lower answers st q) a' (p + inject_Z w)%Q (z + w)).
    + unfold Binary64.evalStep. cbn [fst]. rewrite Hst, Hb.
      unfold IEEE.add. cbn [add IEEE.rounded]. done.
    + rewrite inject_Z_plus in Haz. lra.
    + rewrite inject_Z_plus. lra.
    + rewrite Hsum. simpl. rewrite Hp', <- Zle_Qle. done.
Qed.

(** C10 (as amended). The award of a question that satisfies the invariant
    of the data model lies between zero and its point value; for a
    free-text question this needs the point value to be a whole number.
    When every point value of a test is a whole number and their sum is at
    most [2 ^ 53], the aggregate score lies between zero and the sum of the
    question points.  Point values are binary64 numbers. *)
Theorem awards_within_points :
  (∀ lower question answer,
     questionInvariant question →
     binary64 (q_marks question) →
     (q_type question = descriptive → wholeMarks question) →
     le (Fin 0) (marksAwarded (Binary64.evaluateQuestion lower question answer)) ∧
     le (marksAwarded (Binary64.evaluateQuestion lower question answer))
        (q_marks question)) ∧
  (∀ lower test answers,
     Forall (fun q => questionInvariant q ∧ wholeMarks q) (t_questions test) →
     le (totalPoints test) (ofZ (2 ^ 53)) →
     le (Fin 0) (Binary64.evaluateAnswers lower test answers).1 ∧
     le (Binary64.evaluateAnswers lower test answers).1 (totalPoints test)).
Proof.
  split; [apply evaluateQuestion64_bounds |].
  intros lower test answers Hall Htop.
  unfold Binary64.evaluateAnswers, totalPoints in *. cbn [fst].
  destruct (evalStep_fold_bounds lower answers (t_questions test) (Fin 0, ∅)
              0%Q 0%Q 0 Hall)
    as (a & p & z & -> & -> & Hp & Ha0 & Hap); [done | lra | done | done |].
  rewrite round_Fin.
  assert (0 <= Qfloor (a + (1 # 2)) <= z) as Hr.
  { apply round_bounds; [done | rewrite <- Hp; done]. }
  split.
  - change (Fin 0) with (ofZ 0). apply le_ofZ. lia.
  - unfold le, ofZ. rewrite Hp, <- Zle_Qle. lia.
Qed.

(** ** Leaderboard order *)

Section SortOrder.
Context {A : Type} (compare : A → A → number).
Context (R : A → A → Prop) (D : A → Prop).
Hypothesis R_trans : ∀ x y z, R x y → R y z → R x z.
Hypothesis compare_after :
  ∀ x y, D x → D y → gtb (compare x y) (Fin 0) = true → R y x.
Hypothesis compare_before :
  ∀ x y, D x → D y → gtb (compare x y) (Fin 0) = false → R x y.

Lemma insertSorted_sorted x l :
  D x → Forall D l → StronglySorted R l →
  StronglySorted R (insertSorted compare x l).
Proof.
  intros Hx Hl Hs. induction l as [|y l IH]; cbn [insertSorted].
  - repeat constructor.
  - apply Forall_cons in Hl as [Hy Hl].
    apply StronglySorted_cons in Hs as [Hyl Hs].
    destruct (gtb (compare x y) (Fin 0)) eqn:E.
    + apply StronglySorted_cons. split; [| by apply IH].
      rewrite insertSorted_perm. constructor; [by apply compare_after | done].
    + pose proof (compare_before x y Hx Hy E) as Hxy.
      apply StronglySorted_cons. split.
      * constructor; [done |].
        eapply Forall_impl; [exact Hyl |]. intros z Hz. by eapply R_trans.
      * by apply StronglySorted_cons.
Qed.

Lemma sort_sorted l : Forall D l → StronglySorted R (sort compare l).
Proof.
  induction 1 as [|x l Hx Hl IH]; simpl; [constructor |].
  apply insertSorted_sorted; [done | | done].
  by rewrite sort_perm.
Qed.

Lemma StronglySorted_lookup l i j a b :
  StronglySorted R l → l !! i = Some a → l !! j = Some b → (i < j)%nat → R a b.
Proof.
  intros Hs. revert i j. induction Hs as [|x l Hs IH Hx]; intros i j Ha Hb Hij.
  - done.
  - destruct j as [|j]; [lia |]. destruct i as [|i]; simpl in *.
    + injection Ha as ->. eapply Forall_forall in Hx; [done |].
      by eapply list_elem_of_lookup_2.
    + apply (IH i j); [done | done | lia].
Qed.
End SortOrder.

Lemma ranksBefore_trans a b c : ranksBefore a b → ranksBefore b c → ranksBefore a c.
Proof.
  unfold ranksBefore.
  destruct (l_score a), (l_score b), (l_score c),
    (l_timeSpent a), (l_timeSpent b), (l_timeSpent c); try done.
  intros [?|[? ?]] [?|[? ?]]; [left | left | left | right; split]; lra.
Qed.

Lemma compareEntries_after a b :
  finiteEntry a → finiteEntry b →
  gtb (compareEntries a b) (Fin 0) = true → ranksBefore b a.
Proof.
  unfold finiteEntry, compareEntries, ranksBefore, Num.or.
  destruct (l_score a) as [sa| | |], (l_score b) as [sb| | |],
    (l_timeSpent a) as [ta| | |], (l_timeSpent b) as [tb| | |]; try tauto.
  intros _ _. cbn [sub neg add truthy].
  destruct (Qeq_bool (sb + - sa) 0) eqn:E; cbn [negb].
  - apply Qeq_bool_iff in E. rewrite gtb_Fin. intros H. right. lra.
  - rewrite gtb_Fin. intros H. left. lra.
Qed.

Lemma compareEntries_before a b :
  finiteEntry a → finiteEntry b →
  gtb (compareEntries a b) (Fin 0) = false → ranksBefore a b.
Proof.
  unfold finiteEntry, compareEntries, ranksBefore, Num.or.
  destruct (l_score a) as [sa| | |], (l_score b) as [sb| | |],
    (l_timeSpent a) as [ta| | |], (l_timeSpent b) as [tb| | |]; try tauto.
  intros _ _. cbn [sub neg add truthy]. unfold gtb.
  destruct (Qeq_bool (sb + - sa) 0) eqn:E; cbn [negb].
  - apply Qeq_bool_iff in E. rewrite ltb_Fin_false. intros H. right. lra.
  - apply Qeq_bool_neq in E. rewrite ltb_Fin_false. intros H. left.
    destruct (Qlt_le_dec sb sa); [done |]. exfalso. apply E. lra.
Qed.

Lemma ranksBefore_irrefl_score a b :
  ranksBefore a b → ltb (l_score a) (l_score b) = false.
Proof.
  unfold ranksBefore.
  destruct (l_score a), (l_score b), (l_timeSpent a), (l_timeSpent b); try done.
  rewrite ltb_Fin_false. intros [?|[? ?]]; lra.
Qed.

Lemma unranked_imap_setRank (l : list LeaderboardEntry) :
  unranked <$> imap setRank l = unranked <$> l.
Proof.
  apply list_eq. intros i.
  rewrite !list_lookup_fmap, list_lookup_imap. by destruct (l !! i).
Qed.

Lemma unranked_imap_leaderboardEntry (submissions : list TestSubmission) :
  unranked <$> imap leaderboardEntry submissions = leaderboardEntry 0 <$> submissions.
Proof.
  apply list_eq. intros i.
  rewrite !list_lookup_fmap, list_lookup_imap. by destruct (submissions !! i).
Qed.

Lemma rankSubmissions_lookup submissions i entry :
  rankSubmissions submissions !! i = Some entry ↔
  ∃ e, sort compareEntries (imap leaderboardEntry submissions) !! i = Some e ∧
       entry = setRank i e.
Proof.
  unfold rankSubmissions. rewrite list_lookup_imap.
  destruct (sort compareEntries _ !! i) as [e|]; simpl.
  - split; [intros [= <-]; eauto | intros (e' & [= <-] & ->); done].
  - split; [done | intros (e' & ? & _); done].
Qed.

Lemma rankSubmissions_sorted submissions :
  Forall finiteSubmission submissions →
  StronglySorted ranksBefore
    (sort compareEntries (imap leaderboardEntry submissions)).
Proof.
  intros Hfin.
  apply (sort_sorted compareEntries ranksBefore finiteEntry).
  - apply ranksBefore_trans.
  - apply compareEntries_after.
  - apply compareEntries_before.
  - apply Forall_forall. intros e He.
    apply list_elem_of_lookup in He as [i Hi].
    rewrite list_lookup_imap in Hi.
    destruct (submissions !! i) as [s|] eqn:Hs; [| done].
    injection Hi as <-.
    eapply Forall_forall in Hfin; [| by eapply list_elem_of_lookup_2].
    exact Hfin.
Qed.

Lemma getLeaderboard_rank testId st :
  (getLeaderboard testId st).1 = rankSubmissions (getSubmissionsByTest testId st).1.
Proof. unfold getLeaderboard. by destruct (getSubmissionsByTest testId st). Qed.

Lemma entryRow_setRank index entry : entryRow (setRank index entry) = entryRow entry.
Proof. done. Qed.

Lemma entryRow_leaderboardEntry index submission :
  entryRow (leaderboardEntry index submission) = submissionRow submission.
Proof. done. Qed.

Lemma entryRow_rankSubmissions submissions :
  map entryRow (rankSubmissions submissions) ≡ₚ map submissionRow submissions.
Proof.
  unfold rankSubmissions.
  assert (∀ l, map entryRow (imap setRank l) = map entryRow l) as ->.
  { intros l. apply list_eq. intros i.
    rewrite !list_lookup_fmap, list_lookup_imap. by destruct (l !! i). }
  rewrite sort_perm. apply eq_subrelation; [apply _ |].
  apply list_eq. intros i.
  rewrite !list_lookup_fmap, list_lookup_imap. by destruct (submissions !! i).
Qed.

Lemma elem_of_getSubmissionsByTest testId st submission :
  submission ∈ (getSubmissionsByTest testId st).1
  ↔ submission ∈ (getSubmissions st).1 ∧ s_testId submission = testId.
Proof.
  unfold getSubmissionsByTest, getSubmissions. cbn [fst].
  by rewrite elem_of_List_filter, String.eqb_eq.
Qed.

(** C3. The leaderboard of a test is made from the stored submissions with
    that test id (with finite scores and times, as every stored submission
    has): its entries carry the student, score, total and time of exactly
    these submissions, one entry each.  The entries are ordered by score
    descending and, at equal scores, by elapsed time ascending; an entry
    with a higher score stands before an entry with a lower one whatever
    their times; the rank of an entry is its position counted from one, so
    no two entries share a rank. *)
Theorem leaderboard_order testId st :
  let submissions := (getSubmissionsByTest testId st).1 in
  let leaderboard := (getLeaderboard testId st).1 in
  Forall finiteSubmission submissions →
  (∀ submission,
     submission ∈ submissions
     ↔ submission ∈ (getSubmissions st).1 ∧ s_testId submission = testId) ∧
  map entryRow leaderboard ≡ₚ map submissionRow submissions ∧
  (∀ i j a b, leaderboard !! i = Some a → leaderboard !! j = Some b →
     (i < j)%nat → ranksBefore a b) ∧
  (∀ i j a b, leaderboard !! i = Some a → leaderboard !! j = Some b →
     ltb (l_score b) (l_score a) = true → (i < j)%nat) ∧
  (∀ i e, leaderboard !! i = Some e → l_rank e = ofZ (Z.of_nat i + 1)) ∧
  (∀ i j a b, leaderboard !! i = Some a → leaderboard !! j = Some b →
     i ≠ j → ¬ equiv (l_rank a) (l_rank b)).
Proof.
  intros submissions leaderboard Hfin. subst leaderboard.
  rewrite getLeaderboard_rank. fold submissions.
  pose proof (rankSubmissions_sorted submissions Hfin) as Hsorted.
  assert (∀ i j a b, rankSubmissions submissions !! i = Some a →
            rankSubmissions submissions !! j = Some b →
            (i < j)%nat → ranksBefore a b) as Horder.
  { intros i j a b (ea & Ha & ->)%rankSubmissions_lookup
      (eb & Hb & ->)%rankSubmissions_lookup Hij.
    apply (StronglySorted_lookup ranksBefore _ i j ea eb Hsorted Ha Hb Hij). }
  assert (∀ i e, rankSubmissions submissions !! i = Some e →
            l_rank e = ofZ (Z.of_nat i + 1)) as Hrank.
  { by intros i e (e' & _ & ->)%rankSubmissions_lookup. }
  split; [intros submission; apply elem_of_getSubmissionsByTest |].
  split; [apply entryRow_rankSubmissions |].
  split; [done |]. split; [| split; [done |]].
  - intros i j a b Ha Hb Hlt.
    destruct (Nat.lt_trichotomy i j) as [Hij|[->|Hji]]; [done | |].
    + rewrite Ha in Hb. injection Hb as ->.
      destruct (l_score b) as [q| | |]; try done.
      apply ltb_Fin in Hlt. lra.
    + apply (Horder j i b a Hb Ha), ranksBefore_irrefl_score in Hji. congruence.
  - intros i j a b Ha Hb Hij. rewrite (Hrank i a Ha), (Hrank j b Hb).
    simpl. rewrite inject_Z_injective. lia.
Qed.

(** ** Outcome attainment *)

Lemma attainmentPercentage_zero data :
  gtb (totalMarks data) (Fin 0) = false → attainmentPercentage data = Fin 0.
Proof. unfold attainmentPercentage. by intros ->. Qed.

Lemma gtb_zero_false x : equiv x (Fin 0) → gtb x (Fin 0) = false.
Proof.
  destruct x as [q| | |]; try done. simpl. intros Hq.
  apply negb_false_iff, Qle_bool_iff. lra.
Qed.

Lemma attainmentLevelOf_tiers (p : Q) :
  ((80 <= p)%Q → attainmentLevelOf (Fin p) = "Highly Attained") ∧
  ((60 <= p < 80)%Q → attainmentLevelOf (Fin p) = "Attained") ∧
  ((40 <= p < 60)%Q → attainmentLevelOf (Fin p) = "Partially Attained") ∧
  ((p < 40)%Q → attainmentLevelOf (Fin p) = "Not Attained").
Proof.
  unfold attainmentLevelOf, ofZ.
  destruct (geb (Fin p) (Fin (inject_Z 80))) eqn:E80;
  destruct (geb (Fin p) (Fin (inject_Z 60))) eqn:E60;
  destruct (geb (Fin p) (Fin (inject_Z 40))) eqn:E40;
  try apply geb_Fin in E80; try apply geb_Fin in E60; try apply geb_Fin in E40;
  try (assert (¬ (inject_Z 80 <= p)%Q) by (rewrite <- geb_Fin; congruence));
  try (assert (¬ (inject_Z 60 <= p)%Q) by (rewrite <- geb_Fin; congruence));
  try (assert (¬ (inject_Z 40 <= p)%Q) by (rewrite <- geb_Fin; congruence));
  change (inject_Z 80) with 80%Q in *;
  change (inject_Z 60) with 60%Q in *;
  change (inject_Z 40) with 40%Q in *;
  repeat split; intros; (done || (exfalso; lra)).
Qed.

Lemma elem_of_calculatePerformance parseInt replace localeCompare axis selectedTest
    copoMapping tests submissions entry :
  entry ∈ calculatePerformance parseInt replace localeCompare axis selectedTest
            copoMapping tests submissions ↔
  ∃ key data,
    outcomeTotals axis selectedTest tests submissions !! key = Some data ∧
    entry = outcomePerformance parseInt replace axis copoMapping key data.
Proof.
  unfold calculatePerformance. rewrite elem_of_sort, list_elem_of_fmap. split.
  - intros ([key data] & -> & Hin%elem_of_map_to_list). eauto.
  - intros (key & data & Hlook & ->). exists (key, data).
    split; [done | by apply elem_of_map_to_list].
Qed.

Lemma attainmentLevelOf_special :
  attainmentLevelOf NaN = "Not Attained" ∧
  attainmentLevelOf NInf = "Not Attained" ∧
  attainmentLevelOf PInf = "Highly Attained".
Proof. done. Qed.

(** C7. Every entry of [calculateCOPerformance] and of
    [calculatePOPerformance], for all tests or for one, reports the totals
    of its outcome tag.  Its percentage is [totalScored / totalMarks * 100]
    in binary64 when the total of possible points is positive, and the
    number 0 (not NaN) otherwise; the reported percentage is that number
    rounded to two decimals.  When the total of possible points is zero the
    reported percentage is 0 and the tier is Not Attained.  In every case
    the tier is a function of the percentage: Highly Attained from 80,
    Attained from 60, Partially Attained from 40, Not Attained below (and
    for NaN). *)
Theorem attainment_of_outcome parseInt replace localeCompare axis selectedTest
    copoMapping tests submissions entry :
  entry ∈ calculatePerformance parseInt replace localeCompare axis selectedTest
            copoMapping tests submissions →
  ∃ data percentage,
    outcomeTotals axis selectedTest tests submissions !! o_outcome entry = Some data ∧
    o_totalQuestions entry = questionCount data ∧
    o_totalMarks entry = totalMarks data ∧
    o_averageScore entry = totalScored data ∧
    (gtb (totalMarks data) (Fin 0) = true →
     percentage = IEEE.mul (IEEE.div (totalScored data) (totalMarks data)) (ofZ 100)) ∧
    (gtb (totalMarks data) (Fin 0) = false → percentage = Fin 0) ∧
    o_percentage entry = IEEE.div (round (IEEE.mul percentage (ofZ 100))) (ofZ 100) ∧
    (equiv (totalMarks data) (Fin 0) →
     percentage = Fin 0 ∧ o_percentage entry = Fin 0 ∧
     o_attainmentLevel entry = "Not Attained") ∧
    (∀ p, percentage = Fin p →
       ((80 <= p)%Q → o_attainmentLevel entry = "Highly Attained") ∧
       ((60 <= p < 80)%Q → o_attainmentLevel entry = "Attained") ∧
       ((40 <= p < 60)%Q → o_attainmentLevel entry = "Partially Attained") ∧
       ((p < 40)%Q → o_attainmentLevel entry = "Not Attained")) ∧
    (percentage = NaN ∨ percentage = NInf → o_attainmentLevel entry = "Not Attained") ∧
    (percentage = PInf → o_attainmentLevel entry = "Highly Attained").
Proof.
  intros (key & data & Hlook & ->)%elem_of_calculatePerformance.
  exists data, (attainmentPercentage data).
  cbn [o_outcome o_totalQuestions o_totalMarks o_averageScore o_percentage
       o_attainmentLevel outcomePerformance].
  split; [done |]. split; [done |]. split; [done |]. split; [done |].
  split; [unfold attainmentPercentage; by intros -> |].
  split; [apply attainmentPercentage_zero |].
  split; [done |]. split; [| split; [| split]].
  - intros Hzero%gtb_zero_false%attainmentPercentage_zero. rewrite Hzero.
    split; [done |]. split; [by vm_compute | done].
  - intros p ->. apply attainmentLevelOf_tiers.
  - intros [-> | ->]; apply attainmentLevelOf_special.
  - intros ->. apply attainmentLevelOf_special.
Qed.

(** ** Instances on the seeded test *)

Lemma free_text_award_witness :
  ∃ matched : nat,
    countOf (fun keyword =>
               occursLowered toLowerCase keyword "Dynamic MEMORY, cheap insertion")
            ["dynamic"; "memory"; "insertion"; "deletion"; "flexible"] matched ∧
    (lowersASCII toLowerCase →
     asciiOnly "Dynamic MEMORY, cheap insertion" = true →
     Forall (fun keyword => asciiOnly keyword = true)
            ["dynamic"; "memory"; "insertion"; "deletion"; "flexible"] →
     countOf (fun keyword =>
                occursIgnoringCase keyword "Dynamic MEMORY, cheap insertion")
             ["dynamic"; "memory"; "insertion"; "deletion"; "flexible"] matched) ∧
    marksAwarded (Binary64.evaluateQuestion toLowerCase linkedListQuestion
                    (Some (VStr "Dynamic MEMORY, cheap insertion")))
    = freeTextAward64 (ofZ 15) matched 5 ∧
    (isCorrect (Binary64.evaluateQuestion toLowerCase linkedListQuestion
                  (Some (VStr "Dynamic MEMORY, cheap insertion"))) = true
     ↔ (3 # 5 <= matchedFraction matched 5)%Q) ∧
    ((matchedFraction matched 5 == 3 # 5)%Q →
     isCorrect (Binary64.evaluateQuestion toLowerCase linkedListQuestion
                  (Some (VStr "Dynamic MEMORY, cheap insertion"))) = true).
Proof.
  apply (free_text_award toLowerCase linkedListQuestion
           ["dynamic"; "memory"; "insertion"; "deletion"; "flexible"]
           "Dynamic MEMORY, cheap insertion");
    [reflexivity | reflexivity | discriminate | reflexivity].
Defined.

(** Three keywords of five, fifteen points: nine marks, and correct, the
    fraction being exactly 3/5. *)
Example free_text_boundary :
  Binary64.evaluateQuestion toLowerCase linkedListQuestion
    (Some (VStr "Dynamic MEMORY, cheap insertion"))
  = {| isCorrect := true; marksAwarded := Fin 9;
       feedback := "Keywords found: dynamic, memory, insertion" |}.
Proof. vm_compute. reflexivity. Qed.

(** Seven keywords of ten, 45 points: [7 / 10 * 45] is 31.499999999999996
    in binary64, and the award is 31, where unrounded arithmetic gives
    [round(31.5) = 32]. *)
Example free_text_rounding :
  marksAwarded (Binary64.evaluateQuestion toLowerCase tenKeywordQuestion
                  (Some (VStr "k0 k1 k2 k3 k4 k5 k6"))) = Fin 31 ∧
  marksAwarded (evaluateQuestion tenKeywordQuestion
                  (Some (VStr "k0 k1 k2 k3 k4 k5 k6"))) = Fin 32.
Proof. vm_compute. done. Qed.


Lemma one_result_per_question_witness :
  size (Binary64.evaluateAnswers toLowerCase seededTest ∅).2 = 3%nat ∧
  (Binary64.evaluateAnswers toLowerCase seededTest ∅).2 !! "q2" = Some unanswered.
Proof.
  assert (NoDup (map q_id (t_questions seededTest))) as Hnd.
  { apply (bool_decide_unpack _). vm_compute. exact I. }
  assert (Forall plainId (t_questions seededTest)) as Hplain.
  { repeat constructor; apply (bool_decide_unpack _); vm_compute; exact I. }
  destruct (one_result_per_question toLowerCase seededTest ∅ Hnd Hplain)
    as (_ & Hsize & Hentry).
  split; [exact Hsize |].
  apply (Hentry linearQuestion).
  - right. left.
  - discriminate.
  - left. reflexivity.
Defined.

Lemma leaderboard_order_witness :
  map entryRow (getLeaderboard "test-1" threeAttempts).1
  ≡ₚ map submissionRow (getSubmissionsByTest "test-1" threeAttempts).1 ∧
  ∀ i j a b,
    (getLeaderboard "test-1" threeAttempts).1 !! i = Some a →
    (getLeaderboard "test-1" threeAttempts).1 !! j = Some b →
    ltb (l_score b) (l_score a) = true → (i < j)%nat.
Proof.
  destruct (leaderboard_order "test-1" threeAttempts) as (_ & Hrows & _ & Hscore & _).
  - repeat constructor.
  - split; [exact Hrows | exact Hscore].
Defined.

(** The order B, A, C of the specification's example, with ranks 1, 2, 3. *)
Example leaderboard_example :
  map (fun e => (l_studentId e, l_rank e)) (getLeaderboard "test-1" threeAttempts).1
  = [("B", ofZ 1); ("A", ofZ 2); ("C", ofZ 3)].
Proof. reflexivity. Qed.

(** 23 marks of 40 are 57.49999999999999 per cent in binary64: the
    leaderboard shows 57. *)
Example leaderboard_percentage :
  l_percentage (leaderboardEntry 0 (attempt "A" 23 600)) = Fin 57.
Proof. vm_compute. reflexivity. Qed.

Lemma awards_within_points_witness :
  le (marksAwarded (Binary64.evaluateQuestion toLowerCase stackQuestion
                      (Some (VStr "Stack")))) (ofZ 5) ∧
  le (Binary64.evaluateAnswers toLowerCase seededTest ∅).1 (totalPoints seededTest).
Proof.
  destruct awards_within_points as [Hquestion Htest].
  assert (∀ z, 0 < z → positiveNumber (ofZ z)) as Hpos.
  { intros z Hz. simpl. change 0%Q with (inject_Z 0). rewrite <- Zlt_Qlt. lia. }
  split.
  - apply (Hquestion toLowerCase stackQuestion (Some (VStr "Stack"))).
    + split; [apply Hpos; lia | exact I].
    + vm_compute. reflexivity.
    + discriminate.
  - apply (Htest toLowerCase seededTest ∅).
    + repeat constructor; try (apply Hpos; lia).
      * by exists 5.
      * by exists 1%positive, ["Array"; "Stack"; "Queue"]%string.
      * by exists 10.
      * by exists ["dynamic"; "memory"; "insertion"; "deletion"; "flexible"]%string.
      * by exists 15.
    + vm_compute. discriminate.
Defined.

(** C10, as stated, fails: a free-text question worth half a point
    satisfies the invariant, and an answer naming its keyword is awarded
    one mark. *)
Lemma fractional_points_exceeded :
  questionInvariant halfMarkQuestion ∧
  binary64 (q_marks halfMarkQuestion) ∧
  marksAwarded (Binary64.evaluateQuestion toLowerCase halfMarkQuestion
                  (Some (VStr "a stack"))) = Fin 1 ∧
  ¬ le (marksAwarded (Binary64.evaluateQuestion toLowerCase halfMarkQuestion
                        (Some (VStr "a stack"))))
       (q_marks halfMarkQuestion).
Proof.
  split; [| split; [| split]].
  - split; [reflexivity | by exists ["stack"]%string].
  - vm_compute. reflexivity.
  - vm_compute. reflexivity.
  - assert (marksAwarded (Binary64.evaluateQuestion toLowerCase halfMarkQuestion
                            (Some (VStr "a stack"))) = Fin 1) as ->
      by (vm_compute; reflexivity).
    change (¬ (1 <= 1 # 2)%Q). lra.
Qed.

(** The bound on the sum of the point values is needed: two questions
    worth [2 ^ 1023] marks each, both answered correctly, score Infinity,
    while their points sum to [2 ^ 1024]. *)
Example aggregate_overflows :
  Forall (fun q => questionInvariant q ∧ wholeMarks q) (t_questions hugeTest) ∧
  totalPoints hugeTest = ofZ (2 ^ 1024) ∧
  (Binary64.evaluateAnswers toLowerCase hugeTest
     {[ "q1" := VStr "Stack"; "q2" := VStr "Stack" ]}).1 = PInf.
Proof.
  split; [| split].
  - repeat constructor; try exact I.
    + by exists (2 ^ 1023).
    + by exists (2 ^ 1023).
  - vm_compute. reflexivity.
  - vm_compute. reflexivity.
Qed.

Lemma attainment_of_outcome_witness :
  let entry :=
    outcomePerformance (fun _ => NaN) (fun s _ _ => s) CourseAxis mockCOPO
      "CO1" {| totalMarks := Fin 0; totalScored := Fin 0; questionCount := 1 |} in
  o_percentage entry = Fin 0 ∧ o_attainmentLevel entry = "Not Attained".
Proof.
  intros entry.
  assert (entry ∈ calculatePerformance (fun _ => NaN) (fun s _ _ => s) (fun _ _ => Fin 0)
                    CourseAxis "all" mockCOPO [seededTest] []) as Hin.
  { apply elem_of_calculatePerformance. eexists _, _. split; [| reflexivity].
    vm_compute. reflexivity. }
  destruct (attainment_of_outcome _ _ _ _ _ _ _ _ _ Hin)
    as (data & percentage & _ & _ & Hmarks & _ & _ & _ & _ & Hzero & _).
  assert (equiv (totalMarks data) (Fin 0)) as Hz by (rewrite <- Hmarks; reflexivity).
  destruct (Hzero Hz) as (_ & Hreported & Hlevel).
  split; [exact Hreported | exact Hlevel].
Defined.

(** 23 marks of 160 are reported as 14.37 per cent, the binary64 product
    being 1437.4999999999998; Not Attained.  Awards of 6.666666666666666
    and 3.333333333333333 on questions worth 10 and 15 marks add up to
    10 of 25 marks: 40 per cent, Partially Attained. *)
Example attainment_rounding :
  let report possible scored :=
    outcomePerformance (fun _ => NaN) (fun s _ _ => s) CourseAxis mockCOPO "CO1"
      {| totalMarks := possible; totalScored := scored; questionCount := 1 |} in
  o_percentage (report (ofZ 160) (ofZ 23)) = IEEE.lit (1437 # 100) ∧
  o_attainmentLevel (report (ofZ 160) (ofZ 23)) = "Not Attained" ∧
  IEEE.add (Fin (3752999689475413 # 562949953421312))
           (Fin (3752999689475413 # 1125899906842624)) = Fin 10 ∧
  o_percentage (report (ofZ 25) (ofZ 10)) = Fin 40 ∧
  o_attainmentLevel (report (ofZ 25) (ofZ 10)) = "Partially Attained".
Proof. vm_compute. done. Qed.

(** * Further properties of the repository *)

Lemma initializeData_tests st :
  dsba_tests (initializeData st) = Some (getTests st).1.
Proof. unfold getTests. simpl. by destruct (dsba_tests st). Qed.

Lemma initializeData_submissions st :
  dsba_submissions (initializeData st) = Some (getSubmissions st).1.
Proof. unfold getSubmissions. simpl. by destruct (dsba_submissions st). Qed.

Lemma setTests_same st :
  setTests (getTests st).1 (initializeData st) = initializeData st.
Proof.
  unfold setTests. rewrite <- initializeData_tests. by destruct (initializeData st).
Qed.

Lemma getTests_setTests tests st :
  (getTests (setTests tests st)).1 = tests.
Proof. done. Qed.

Lemma getSubmissions_setTests tests st :
  (getSubmissions (setTests tests st)).1 = (getSubmissions st).1.
Proof. done. Qed.

Lemma findIndex_find {A} (f : A → bool) (l : list A) :
  List.find f l = (findIndex f l) ≫= (fun i => l !! i).
Proof.
  induction l as [|x l IH]; simpl; [done |].
  destruct (f x); [done |]. rewrite IH. by destruct (findIndex f l).
Qed.

Lemma findIndex_Some {A} (f : A → bool) (l : list A) i :
  findIndex f l = Some i →
  ∃ x, l !! i = Some x ∧ f x = true ∧
       ∀ j y, (j < i)%nat → l !! j = Some y → f y = false.
Proof.
  revert i. induction l as [|x l IH]; intros i; simpl; [done |].
  destruct (f x) eqn:Hx.
  - intros [= <-]. exists x. split; [done |]. split; [done |]. lia.
  - destruct (findIndex f l) as [k|]; [| done]. intros [= <-].
    destruct (IH k eq_refl) as (z & Hz & Hfz & Hbefore).
    exists z. split; [done |]. split; [done |].
    intros [|j] y Hj Hy; simpl in Hy; [by injection Hy as -> |].
    apply (Hbefore j); [lia | done].
Qed.

Lemma find_app_Some {A} (f : A → bool) (l k : list A) x :
  List.find f l = Some x → List.find f (l ++ k) = Some x.
Proof.
  induction l as [|y l IH]; simpl; [done |]. by destruct (f y).
Qed.

Lemma find_app_None {A} (f : A → bool) (l k : list A) :
  List.find f l = None → List.find f (l ++ k) = List.find f k.
Proof.
  induction l as [|y l IH]; simpl; [done |]. by destruct (f y).
Qed.

Lemma getTestById_find id st :
  (getTestById id st).1
  = List.find (fun test => String.eqb (t_id test) id) (getTests st).1.
Proof. done. Qed.

Lemma getTestById_store id st : (getTestById id st).2 = initializeData st.
Proof. done. Qed.

Lemma createTest_store test idTime createdAt st :
  (createTest test idTime createdAt st).2
  = setTests ((getTests st).1 ++ [(createTest test idTime createdAt st).1])
             (initializeData st).
Proof. done. Qed.

(** X1. [createTest], given a test whose numbers are finite, appends the
    new test to the stored tests and leaves the submissions alone.  Every id
    that was found before is found as before, also the id of the new test:
    the new test is returned by [getTestById] only when no stored test had
    its id. *)
Theorem createTest_appends test idTime createdAt st :
  storableData test →
  let created := createTest test idTime createdAt st in
  t_id created.1 = ("test-" ++ pretty idTime)%string ∧
  (getTests created.2).1 = (getTests st).1 ++ [created.1] ∧
  (getSubmissions created.2).1 = (getSubmissions st).1 ∧
  (∀ id found, (getTestById id st).1 = Some found →
               (getTestById id created.2).1 = Some found) ∧
  ((getTestById (t_id created.1) st).1 = None →
   (getTestById (t_id created.1) created.2).1 = Some created.1).
Proof.
  intros _ created. subst created.
  rewrite !getTestById_find, createTest_store, getTests_setTests,
    getSubmissions_setTests, getSubmissions_initializeData.
  split; [done |]. split; [done |]. split; [done |]. split.
  - intros id found. rewrite !getTestById_find, getTests_setTests.
    apply find_app_Some.
  - intros Hnone. rewrite find_app_None by done.
    cbn [List.find]. by rewrite String.eqb_refl.
Qed.

Lemma createTest_appends_witness :
  (getTests (createTest quizData 7 8 emptyStorage).2).1
  = mockTests ++ [(createTest quizData 7 8 emptyStorage).1].
Proof.
  assert (storableData quizData) as Hfinite.
  { split; [exact I |]. split; [exact I |]. repeat constructor. }
  destruct (createTest_appends quizData 7 8 emptyStorage Hfinite) as (_ & Hstored & _).
  exact Hstored.
Defined.

Lemma findIndex_alter {A} (f : A → bool) (g : A → A) (l : list A) i :
  (∀ x, f (g x) = f x) → findIndex f (alter g i l) = findIndex f l.
Proof.
  intros Hfg. revert i. induction l as [|x l IH]; intros i; [done |].
  destruct i as [|i]; simpl.
  - by rewrite Hfg.
  - destruct (f x); [done |]. f_equal. apply IH.
Qed.

Lemma find_alter_same {A} (f : A → bool) (g : A → A) (l : list A) i :
  (∀ x, f (g x) = f x) → findIndex f l = Some i →
  List.find f (alter g i l) = g <$> List.find f l.
Proof.
  intros Hfg Hi. rewrite !findIndex_find, findIndex_alter, Hi by done. simpl.
  apply list_lookup_alter_eq.
Qed.

Lemma find_alter_other {A} (f f' : A → bool) (g : A → A) (l : list A) i :
  (∀ x, f' (g x) = f' x) → (∀ x, f x = true → f' x = false) →
  findIndex f l = Some i →
  List.find f' (alter g i l) = List.find f' l.
Proof.
  intros Hfg Hff' Hi.
  destruct (findIndex_Some f l i Hi) as (x & Hx & Hfx & _).
  rewrite !findIndex_find, findIndex_alter by done.
  destruct (findIndex f' l) as [j|] eqn:Hj; [simpl | done].
  apply list_lookup_alter_ne. intros <-.
  destruct (findIndex_Some f' l i Hj) as (y & Hy & Hfy & _).
  rewrite Hx in Hy. injection Hy as <-. rewrite Hff' in Hfy; done.
Qed.

Lemma flipActive_involutive test : flipActive (flipActive test) = test.
Proof. destruct test. unfold flipActive. simpl. by rewrite negb_involutive. Qed.

Lemma initializeData_setTests tests st :
  initializeData (setTests tests (initializeData st))
  = setTests tests (initializeData st).
Proof.
  unfold setTests, initializeData. simpl. by rewrite !seed_idem.
Qed.

Lemma setTests_setTests tests tests' st :
  setTests tests (setTests tests' st) = setTests tests st.
Proof. done. Qed.

Lemma toggleTestStatus_eq id st :
  toggleTestStatus id st
  = match findIndex (fun t => String.eqb (t_id t) id) (getTests st).1 with
    | None => (false, initializeData st)
    | Some testIndex =>
        (true, setTests (alter flipActive testIndex (getTests st).1)
                        (initializeData st))
    end.
Proof. done. Qed.

(** X2. [toggleTestStatus] on an id that no stored test has returns false
    and leaves the store as any read does.  Otherwise it returns true and
    the test found under the id is the former one with [isActive] negated;
    the number of tests, the tests found under other ids and the
    submissions are as before. *)
Theorem toggleTestStatus_flips id st :
  let toggled := toggleTestStatus id st in
  match (getTestById id st).1 with
  | None => toggled.1 = false ∧ toggled.2 = initializeData st
  | Some found =>
      toggled.1 = true ∧
      (getTestById id toggled.2).1 = Some (flipActive found) ∧
      length (getTests toggled.2).1 = length (getTests st).1 ∧
      (∀ other, other ≠ id →
         (getTestById other toggled.2).1 = (getTestById other st).1) ∧
      (getSubmissions toggled.2).1 = (getSubmissions st).1
  end.
Proof.
  intros toggled. subst toggled. rewrite toggleTestStatus_eq, getTestById_find.
  destruct (findIndex _ (getTests st).1) as [i|] eqn:Hi.
  - destruct (findIndex_Some _ _ _ Hi) as (x & Hx & Hfx & _).
    assert (List.find (fun t => String.eqb (t_id t) id) (getTests st).1 = Some x)
      as Hfind by (by rewrite findIndex_find, Hi).
    rewrite Hfind. cbn [fst snd].
    split; [done |]. split; [| split; [| split]].
    + rewrite getTestById_find, getTests_setTests.
      rewrite (find_alter_same _ _ _ i) by done.
      by rewrite Hfind.
    + by rewrite getTests_setTests, length_alter.
    + intros other Hother. rewrite !getTestById_find, getTests_setTests.
      apply (find_alter_other (fun t => String.eqb (t_id t) id)); [done | | done].
      intros t Ht%String.eqb_eq. apply String.eqb_neq. congruence.
    + by rewrite getSubmissions_setTests, getSubmissions_initializeData.
  - by rewrite findIndex_find, Hi.
Qed.

(** X3. Toggling the status of the same id twice gives the same answer
    both times and leaves the store as a read of the original store does:
    the second toggle undoes the first. *)
Theorem toggleTestStatus_twice id st :
  let once := toggleTestStatus id st in
  let twice := toggleTestStatus id once.2 in
  twice.1 = once.1 ∧ twice.2 = initializeData st.
Proof.
  intros once twice. subst once twice. rewrite (toggleTestStatus_eq id st).
  destruct (findIndex _ (getTests st).1) as [i|] eqn:Hi; cbn [fst snd].
  - rewrite toggleTestStatus_eq, getTests_setTests, findIndex_alter, Hi by done.
    cbn [fst snd]. split; [done |].
    rewrite initializeData_setTests, setTests_setTests, list_alter_alter_eq.
    rewrite list_alter_id by apply flipActive_involutive.
    apply setTests_same.
  - rewrite toggleTestStatus_eq.
    assert ((getTests (initializeData st)).1 = (getTests st).1) as ->
      by (unfold getTests; by rewrite initializeData_idem).
    rewrite Hi. cbn [fst snd]. by rewrite initializeData_idem.
Qed.

Lemma updateTest_eq id updates st :
  updateTest id updates st
  = match findIndex (fun t => String.eqb (t_id t) id) (getTests st).1 with
    | None => (false, initializeData st)
    | Some testIndex =>
        (true, setTests (alter (fun test => applyUpdates test updates) testIndex
                               (getTests st).1)
                        (initializeData st))
    end.
Proof. done. Qed.

(** X4. [updateTest], given an update whose numbers are finite, on an id
    that no stored test has returns false and leaves the store as any read
    does.  Otherwise it returns true, the first test with the id is replaced
    by its merge with the update and no other position changes; when the
    update carries no [id] key, the merged test is the one found under the
    id afterwards and the tests found under other ids are as before. *)
Theorem updateTest_replaces id updates st :
  storableUpdates updates →
  let updated := updateTest id updates st in
  match (getTestById id st).1 with
  | None => updated.1 = false ∧ updated.2 = initializeData st
  | Some found =>
      updated.1 = true ∧
      (∃ i, (getTests st).1 !! i = Some found ∧
            (getTests updated.2).1 !! i = Some (applyUpdates found updates) ∧
            ∀ j, j ≠ i → (getTests updated.2).1 !! j = (getTests st).1 !! j) ∧
      length (getTests updated.2).1 = length (getTests st).1 ∧
      (getSubmissions updated.2).1 = (getSubmissions st).1 ∧
      (u_id updates = None →
       (getTestById id updated.2).1 = Some (applyUpdates found updates) ∧
       ∀ other, other ≠ id →
         (getTestById other updated.2).1 = (getTestById other st).1)
  end.
Proof.
  intros _ updated. subst updated. rewrite updateTest_eq, getTestById_find.
  destruct (findIndex _ (getTests st).1) as [i|] eqn:Hi.
  - destruct (findIndex_Some _ _ _ Hi) as (x & Hx & Hfx & _).
    assert (List.find (fun t => String.eqb (t_id t) id) (getTests st).1 = Some x)
      as Hfind by (by rewrite findIndex_find, Hi).
    rewrite Hfind. cbn [fst snd]. rewrite getTests_setTests.
    split; [done |]. split; [| split; [| split]].
    + exists i. split; [done |]. split.
      * by rewrite list_lookup_alter_eq, Hx.
      * intros j Hj. by apply list_lookup_alter_ne.
    + apply length_alter.
    + by rewrite getSubmissions_setTests, getSubmissions_initializeData.
    + intros Hid.
      assert (∀ other t, String.eqb (t_id (applyUpdates t updates)) other
                         = String.eqb (t_id t) other) as Hkeep.
      { intros other t. unfold applyUpdates. simpl. by rewrite Hid. }
      split.
      * rewrite getTestById_find, getTests_setTests.
        rewrite (find_alter_same _ _ _ i) by done. by rewrite Hfind.
      * intros other Hother. rewrite !getTestById_find, getTests_setTests.
        apply (find_alter_other (fun t => String.eqb (t_id t) id)); [done | | done].
        intros t Ht%String.eqb_eq. apply String.eqb_neq. congruence.
  - by rewrite findIndex_find, Hi.
Qed.

Lemma updateTest_replaces_witness :
  (updateTest "test-1" renameUpdates threeAttempts).1 = true ∧
  t_title <$> (getTestById "test-1" (updateTest "test-1" renameUpdates threeAttempts).2).1
  = Some "Data Structures - Second IA"%string.
Proof.
  assert (storableUpdates renameUpdates) as Hfinite by (split; [| split]; exact I).
  pose proof (updateTest_replaces "test-1" renameUpdates threeAttempts Hfinite)
    as Hupdated.
  change (getTestById "test-1" threeAttempts).1 with (Some seededTest) in Hupdated.
  destruct Hupdated as (Htrue & _ & _ & _ & Hfound).
  destruct (Hfound eq_refl) as [-> _]. split; [exact Htrue | reflexivity].
Defined.

Lemma submitTest_found lower testId studentId studentName answers timeSpent
    antiCheatEvents idTime submittedAt st test :
  (getTestById testId st).1 = Some test →
  submitTest lower testId studentId studentName answers timeSpent
             antiCheatEvents idTime submittedAt st
  = (Returned (submissionOf lower test testId studentId studentName answers
                            timeSpent antiCheatEvents idTime submittedAt),
     setSubmissions
       ((getSubmissions st).1
        ++ [submissionOf lower test testId studentId studentName answers
                         timeSpent antiCheatEvents idTime submittedAt])
       (initializeData st)).
Proof.
  intros Hfound. unfold submitTest, submissionOf.
  pose proof (getTestById_store testId st) as Hstore.
  destruct (getTestById testId st) as [found st0]. simpl in Hfound, Hstore.
  subst found st0.
  destruct (Binary64.evaluateAnswers lower test answers) as [score evaluated].
  unfold getSubmissions, setSubmissions. simpl. by rewrite !seed_idem.
Qed.

Lemma getSubmissions_setSubmissions submissions st :
  (getSubmissions (setSubmissions submissions st)).1 = submissions.
Proof. done. Qed.

Lemma getTests_setSubmissions submissions st :
  (getTests (setSubmissions submissions st)).1 = (getTests st).1.
Proof. done. Qed.

Lemma getTests_initializeData st :
  (getTests (initializeData st)).1 = (getTests st).1.
Proof. unfold getTests. by rewrite initializeData_idem. Qed.

(** X5. When the test exists, [submitTest] returns a submission that
    carries the score and the verdicts of [evaluateAnswers] on that test,
    the test's total marks, and the answers, time and anti-cheat log it was
    given; when the numbers of that submission are finite, the stored
    submissions are the former ones followed by this submission, and the
    stored tests are as before. *)
Theorem submitTest_appends lower testId studentId studentName answers timeSpent
    antiCheatEvents idTime submittedAt st test :
  (getTestById testId st).1 = Some test →
  storableSubmission (submissionOf lower test testId studentId studentName answers
                                   timeSpent antiCheatEvents idTime submittedAt) →
  let result :=
    submitTest lower testId studentId studentName answers timeSpent
               antiCheatEvents idTime submittedAt st in
  ∃ submission,
    result.1 = Returned submission ∧
    s_testId submission = testId ∧
    s_studentId submission = studentId ∧
    s_score submission = (Binary64.evaluateAnswers lower test answers).1 ∧
    s_evaluatedAnswers submission = (Binary64.evaluateAnswers lower test answers).2 ∧
    s_totalMarks submission = t_totalMarks test ∧
    s_answers submission = answers ∧
    s_timeSpent submission = timeSpent ∧
    s_antiCheatEvents submission = antiCheatEvents ∧
    (getSubmissions result.2).1 = (getSubmissions st).1 ++ [submission] ∧
    (getTests result.2).1 = (getTests st).1.
Proof.
  intros Hfound _ result. subst result.
  rewrite (submitTest_found _ _ _ _ _ _ _ _ _ _ test Hfound). cbn [fst snd].
  eexists. split; [reflexivity |].
  repeat (split; [reflexivity |]).
  rewrite getTests_setSubmissions. apply getTests_initializeData.
Qed.

Lemma storable_blank_submission :
  storableSubmission (submissionOf toLowerCase seededTest "test-1" "S004" "Dana" ∅
                                   (ofZ 60) [] 1 2).
Proof.
  split; [exact I |]. split; [exact I |]. split; [exact I |].
  apply map_Forall_to_list. vm_compute. repeat constructor.
Qed.

Lemma submitTest_appends_witness :
  ∃ submission,
    (submitTest toLowerCase "test-1" "S004" "Dana" ∅ (ofZ 60) [] 1 2 threeAttempts).1
    = Returned submission ∧
    s_score submission = ofZ 0 ∧
    (getSubmissions
       (submitTest toLowerCase "test-1" "S004" "Dana" ∅ (ofZ 60) [] 1 2
                   threeAttempts).2).1
    = [attempt "A" 30 600; attempt "B" 30 500; attempt "C" 25 100; submission].
Proof.
  destruct (submitTest_appends toLowerCase "test-1" "S004" "Dana" ∅ (ofZ 60) [] 1 2
              threeAttempts seededTest eq_refl storable_blank_submission)
    as (submission & Hreturned & _ & _ & Hscore & _ & _ & _ & _ & _ & Hstored & _).
  exists submission. split; [exact Hreturned |]. split.
  - rewrite Hscore. reflexivity.
  - rewrite Hstored. reflexivity.
Defined.

Lemma filter_snoc {A} (f : A → bool) (l : list A) x :
  List.filter f (l ++ [x]) = List.filter f l ++ (if f x then [x] else []).
Proof. by rewrite List.filter_app. Qed.

Lemma getSubmissionsByTest_filter testId st :
  (getSubmissionsByTest testId st).1
  = List.filter (fun sub => String.eqb (s_testId sub) testId) (getSubmissions st).1.
Proof. done. Qed.

Lemma length_rankSubmissions submissions :
  length (rankSubmissions submissions) = length submissions.
Proof.
  unfold rankSubmissions. by rewrite length_imap, length_sort, length_imap.
Qed.

Lemma elem_of_rankSubmissions submissions submission :
  submission ∈ submissions →
  ∃ entry, entry ∈ rankSubmissions submissions ∧
           unranked entry = leaderboardEntry 0 submission.
Proof.
  intros Hin.
  assert (leaderboardEntry 0 submission ∈ unranked <$> rankSubmissions submissions)
    as Hentry.
  { unfold rankSubmissions.
    rewrite unranked_imap_setRank, sort_perm, unranked_imap_leaderboardEntry.
    by apply list_elem_of_fmap_2. }
  apply list_elem_of_fmap in Hentry as (entry & Heq & Hentry). eauto.
Qed.

(** X6. After a successful [submitTest] of a submission whose numbers are
    finite, the leaderboard of that test has one entry more, among them one
    with the student's id, the score just computed and the time spent; the
    leaderboard of every other test is as before. *)
Theorem leaderboard_after_submit lower testId studentId studentName answers
    timeSpent antiCheatEvents idTime submittedAt st test :
  (getTestById testId st).1 = Some test →
  storableSubmission (submissionOf lower test testId studentId studentName answers
                                   timeSpent antiCheatEvents idTime submittedAt) →
  let after :=
    (submitTest lower testId studentId studentName answers timeSpent
                antiCheatEvents idTime submittedAt st).2 in
  length (getLeaderboard testId after).1 = S (length (getLeaderboard testId st).1) ∧
  (∃ entry, entry ∈ (getLeaderboard testId after).1 ∧
            l_studentId entry = studentId ∧
            l_score entry = (Binary64.evaluateAnswers lower test answers).1 ∧
            l_timeSpent entry = timeSpent) ∧
  (∀ other, other ≠ testId →
     (getLeaderboard other after).1 = (getLeaderboard other st).1).
Proof.
  intros Hfound _ after. subst after.
  rewrite (submitTest_found _ _ _ _ _ _ _ _ _ _ test Hfound). cbn [snd].
  set (submission := submissionOf lower test testId studentId studentName answers
                       timeSpent antiCheatEvents idTime submittedAt).
  assert (∀ id, (getSubmissionsByTest id
                   (setSubmissions ((getSubmissions st).1 ++ [submission])
                                   (initializeData st))).1
                = (getSubmissionsByTest id st).1
                  ++ (if String.eqb testId id then [submission] else [])) as Hsubs.
  { intros id. rewrite !getSubmissionsByTest_filter, getSubmissions_setSubmissions.
    rewrite filter_snoc. reflexivity. }
  split; [| split].
  - rewrite !getLeaderboard_rank, !length_rankSubmissions, Hsubs.
    rewrite String.eqb_refl, length_app. simpl. lia.
  - rewrite getLeaderboard_rank, Hsubs, String.eqb_refl.
    destruct (elem_of_rankSubmissions
                ((getSubmissionsByTest testId st).1 ++ [submission]) submission)
      as (entry & Hentry & Hunranked).
    { apply elem_of_app. right. apply list_elem_of_singleton. done. }
    exists entry. split; [done |].
    apply (f_equal l_studentId) in Hunranked as Hid.
    apply (f_equal l_score) in Hunranked as Hscore.
    apply (f_equal l_timeSpent) in Hunranked as Htime.
    done.
  - intros other Hother. rewrite !getLeaderboard_rank, Hsubs.
    destruct (String.eqb_spec testId other) as [->|_]; [done |].
    by rewrite app_nil_r.
Qed.

Lemma leaderboard_after_submit_witness :
  length (getLeaderboard "test-1"
            (submitTest toLowerCase "test-1" "S004" "Dana" ∅ (ofZ 60) [] 1 2
                        threeAttempts).2).1
  = 4%nat.
Proof.
  destruct (leaderboard_after_submit toLowerCase "test-1" "S004" "Dana" ∅ (ofZ 60) []
              1 2 threeAttempts seededTest eq_refl storable_blank_submission)
    as (Hlength & _).
  rewrite Hlength. reflexivity.
Defined.

(** X7. [getCOPOMapping] after [updateCOPOMapping] returns the mapping that
    was written; on any store it returns the stored mapping, or the seeded
    default when the key is absent, never the empty-object fallback.
    [updateCOPOMapping] leaves the tests and the submissions alone. *)
Theorem copo_mapping_round_trip copo st :
  (getCOPOMapping (updateCOPOMapping copo st)).1 = copo ∧
  (getCOPOMapping st).1 = default mockCOPO (dsba_copo st) ∧
  (getTests (updateCOPOMapping copo st)).1 = (getTests st).1 ∧
  (getSubmissions (updateCOPOMapping copo st)).1 = (getSubmissions st).1.
Proof.
  split; [done |]. split; [| done].
  unfold getCOPOMapping. cbn [fst]. simpl. by destruct (dsba_copo st).
Qed.

(** X8. The anti-cheat log is append-only: logging a sequence of events
    leaves the log that was there, followed by one entry per event, in the
    order of the calls, each with the type, timestamp and detail it was given
    and an id made from its clock reading; nothing is merged or dropped.
    The other keys are not touched, not even seeded. *)
Theorem logAntiCheatEvent_appends (events : list (AntiCheatEventData * Z)) st :
  let logged := foldl (fun st e => logAntiCheatEvent e.1 e.2 st) st events in
  default [] (dsba_anticheat logged)
  = default [] (dsba_anticheat st)
    ++ map (fun e => {| e_id := "ac-" ++ pretty e.2;
                        e_type := a_type e.1;
                        e_timestamp := a_timestamp e.1;
                        e_details := a_details e.1 |}) events ∧
  length (default [] (dsba_anticheat logged))
  = (length (default [] (dsba_anticheat st)) + length events)%nat ∧
  dsba_tests logged = dsba_tests st ∧
  dsba_submissions logged = dsba_submissions st ∧
  dsba_copo logged = dsba_copo st.
Proof.
  intros logged. subst logged.
  assert (default [] (dsba_anticheat
                        (foldl (fun st e => logAntiCheatEvent e.1 e.2 st) st events))
          = default [] (dsba_anticheat st)
            ++ map (fun e => {| e_id := "ac-" ++ pretty e.2;
                                e_type := a_type e.1;
                                e_timestamp := a_timestamp e.1;
                                e_details := a_details e.1 |}) events) as Hlog.
  { revert st. induction events as [|e events IH]; intros st; simpl.
    - by rewrite app_nil_r.
    - rewrite IH. simpl. by rewrite <- app_assoc. }
  split; [done |]. split.
  - by rewrite Hlog, length_app, length_map.
  - clear Hlog. revert st. induction events as [|e events IH]; intros st; simpl.
    + done.
    + destruct (IH (logAntiCheatEvent e.1 e.2 st)) as (-> & -> & ->). done.
Qed.

(** X9. Seeding never overwrites stored data: a key that is present keeps
    its value, afterwards all four keys are present, and a second seeding
    changes nothing, so a read of a seeded store returns the stored tests
    and leaves the store as it is. *)
Theorem seeding_keeps_stored_data st :
  let seeded := initializeData st in
  (∀ tests, dsba_tests st = Some tests → dsba_tests seeded = Some tests) ∧
  (∀ subs, dsba_submissions st = Some subs → dsba_submissions seeded = Some subs) ∧
  (∀ copo, dsba_copo st = Some copo → dsba_copo seeded = Some copo) ∧
  (∀ events, dsba_anticheat st = Some events → dsba_anticheat seeded = Some events) ∧
  (is_Some (dsba_tests seeded) ∧ is_Some (dsba_submissions seeded) ∧
   is_Some (dsba_copo seeded) ∧ is_Some (dsba_anticheat seeded)) ∧
  initializeData seeded = seeded ∧
  getTests seeded = ((getTests st).1, seeded).
Proof.
  intros seeded. subst seeded.
  split; [intros tests H; simpl; by rewrite H |].
  split; [intros subs H; simpl; by rewrite H |].
  split; [intros copo H; simpl; by rewrite H |].
  split; [intros events H; simpl; by rewrite H |].
  split.
  - unfold initializeData. simpl.
    destruct (dsba_tests st), (dsba_submissions st), (dsba_copo st),
      (dsba_anticheat st); simpl; eauto 10.
  - split; [apply initializeData_idem |].
    unfold getTests. by rewrite initializeData_idem.
Qed.

(** * Further properties of the evaluation engine *)

Lemma same_options_same_set (l k : list string) :
  (∀ x, x ∈ l ↔ x ∈ k) ↔ (list_to_set l : gset string) = list_to_set k.
Proof.
  split.
  - intros H. apply set_eq. intros x. by rewrite !elem_of_list_to_set.
  - intros H x. by rewrite <- !(elem_of_list_to_set (C:=gset string)), H.
Qed.

Lemma sizes_say_equal (S C : gset string) :
  size (S ∩ C) = size C ∧ size (S ∖ C) = 0%nat ↔ S = C.
Proof.
  split.
  - intros [Hin Hout]. apply size_empty_iff in Hout.
    assert (S ∩ C ⊆ C) as Hsub by apply intersection_subseteq_r.
    apply set_subseteq_size_eq in Hsub; [| lia].
    apply set_eq. intros x. split.
    + intros Hx. destruct (decide (x ∈ C)) as [|Hn]; [done |].
      exfalso. apply (not_elem_of_empty (C:=gset string) x).
      rewrite <- Hout. by apply elem_of_difference.
    + intros Hx. rewrite <- Hsub in Hx. by apply elem_of_intersection in Hx as [? _].
  - intros ->. split.
    + f_equal. apply set_eq. intros x. rewrite elem_of_intersection. tauto.
    + apply size_empty_iff. intros x. rewrite elem_of_difference.
      split; [tauto | by intros ?%not_elem_of_empty].
Qed.

(** X10. A multi-choice answer is marked correct exactly when the
    submitted array and the canonical array have the same elements; order
    and repetitions do not matter, and two submitted arrays with the same
    elements get the same verdict. *)
Theorem multi_choice_set_semantics lower question r correct r1 user1 r2 user2 :
  q_type question = checkbox →
  q_correctAnswer question = Some (VArr r correct) →
  (isCorrect (Binary64.evaluateQuestion lower question (Some (VArr r1 user1))) = true
   ↔ ∀ x, x ∈ user1 ↔ x ∈ correct) ∧
  ((∀ x, x ∈ user1 ↔ x ∈ user2) →
   Binary64.evaluateQuestion lower question (Some (VArr r1 user1))
   = Binary64.evaluateQuestion lower question (Some (VArr r2 user2))).
Proof.
  intros Hty Hca. split.
  - unfold Binary64.evaluateQuestion. rewrite Hty, Hca, evaluateCheckbox64_spec.
    cbn [isCorrect].
    rewrite andb_true_iff, !Z.eqb_eq, same_options_same_set, <- sizes_say_equal.
    lia.
  - intros Hsame%same_options_same_set.
    unfold Binary64.evaluateQuestion. rewrite Hty, Hca, !evaluateCheckbox64_spec.
    by rewrite Hsame.
Qed.

Lemma multi_choice_set_semantics_witness :
  Binary64.evaluateQuestion toLowerCase linearQuestion
    (Some (VArr 2 ["Queue"; "Array"; "Stack"; "Array"]))
  = Binary64.evaluateQuestion toLowerCase linearQuestion
      (Some (VArr 3 ["Array"; "Stack"; "Queue"])).
Proof.
  apply (multi_choice_set_semantics toLowerCase linearQuestion 1
           ["Array"; "Stack"; "Queue"]);
    [reflexivity | reflexivity |].
  intros x. rewrite !elem_of_cons, !elem_of_nil. tauto.
Defined.

Lemma representable_comp q q' :
  (q == q')%Q → IEEE.representable q → IEEE.representable q'.
Proof.
  intros E [Hfix Hlt]. split.
  - rewrite <- (roundQ_comp q q' E). by rewrite Hfix.
  - by rewrite <- E.
Qed.

(** An operation whose exact result is a number of the format is exact. *)
Lemma RN_exact q q' :
  (q == q')%Q → (0 <= q')%Q → IEEE.representable q' →
  ∃ r, IEEE.RN q = Fin r ∧ (r == q')%Q.
Proof.
  intros E Hq' Hrep. apply (representable_comp q' q) in Hrep as [Hfix Hlt]; [| done].
  exists (IEEE.roundQ q). split; [| by rewrite Hfix].
  apply RN_Fin; [by rewrite E | by rewrite Hfix].
Qed.

Lemma representable_zero : IEEE.representable 0.
Proof. apply (representable_Z 0). lia. Qed.

(** The award for all canonical options and no other. *)
Lemma awardOfCounts64_full m (k : nat) :
  (0 <= m)%Q → IEEE.representable m → (0 < k)%nat →
  equiv (awardOfCounts64 (Fin m) k k 0) (Fin m).
Proof.
  intros Hm Hrep Hk. unfold awardOfCounts64. cbv zeta.
  pose proof (inject_nat_pos k Hk) as Hk'.
  assert (∃ f, IEEE.div (ofNat k) (ofNat k) = Fin f ∧ f == 1)%Q as (f & -> & Hf).
  { unfold IEEE.div, ofNat, ofZ. rewrite div_Fin by lra. cbn [IEEE.rounded].
    apply RN_exact; [field; lra | lra | apply representable_one]. }
  assert (∃ p, IEEE.mul (Fin f) (Fin m) = Fin p ∧ p == m)%Q as (p & -> & Hp).
  { unfold IEEE.mul. cbn [Num.mul IEEE.rounded].
    apply RN_exact; [rewrite Hf; ring | done | done]. }
  assert (∃ h, IEEE.mul (Fin p) (IEEE.lit (1 # 2)) = Fin h ∧ 0 <= h)%Q
    as (h & -> & Hh).
  { rewrite lit_half. unfold IEEE.mul. cbn [Num.mul IEEE.rounded].
    destruct (RN_within (p * (1 # 2)) m) as (h & -> & ? & _); [lra | lra | done |].
    by exists h. }
  assert (∃ u, IEEE.div (Fin m) (ofNat k) = Fin u ∧ 0 <= u)%Q as (u & -> & Hu).
  { unfold IEEE.div, ofNat, ofZ. rewrite div_Fin by lra. cbn [IEEE.rounded].
    assert (0 <= m / inject_Z (Z.of_nat k))%Q as Hu0.
    { apply Qle_shift_div_l; [done | lra]. }
    assert (m / inject_Z (Z.of_nat k) <= m)%Q as Hum.
    { apply Qle_shift_div_r; [done |].
      assert (1 <= inject_Z (Z.of_nat k))%Q
        by (change 1%Q with (inject_Z 1); rewrite <- Zle_Qle; lia).
      nra. }
    destruct (RN_within _ m Hu0 Hum Hrep) as (u & -> & ? & _). by exists u. }
  assert (∃ z, IEEE.mul (ofNat 0) (Fin u) = Fin z ∧ z == 0)%Q as (z & -> & Hz).
  { unfold IEEE.mul, ofNat, ofZ. cbn [Num.mul IEEE.rounded].
    apply RN_exact; [simpl; ring | lra | apply representable_zero]. }
  destruct (min_Fin h z) as (c & -> & Hc).
  assert (c == 0)%Q as Hc0.
  { rewrite Hc. destruct (Q.min_spec h z) as [[? ->] | [? ->]]; lra. }
  assert (∃ d, IEEE.sub (Fin p) (Fin c) = Fin d ∧ d == m)%Q as (d & -> & Hd).
  { unfold IEEE.sub. cbn [Num.sub neg Num.add IEEE.rounded].
    apply RN_exact; [rewrite Hp, Hc0; ring | done | done]. }
  destruct (max_Fin 0 d) as (e & -> & He). simpl.
  rewrite He. destruct (Q.max_spec 0 d) as [[? ->] | [? ->]]; lra.
Qed.

(** The award for all canonical options and any number of others, when
    half the point value is a number of the format. *)
Lemma awardOfCounts64_half m (k wrong : nat) :
  (0 <= m)%Q → IEEE.representable m → IEEE.representable (m / 2) → (0 < k)%nat →
  le (Fin (m / 2)) (awardOfCounts64 (Fin m) k k wrong).
Proof.
  intros Hm Hrep Hhalf Hk. unfold awardOfCounts64. cbv zeta.
  pose proof (inject_nat_pos k Hk) as Hk'.
  assert (m / 2 == m * (1 # 2))%Q as Hdiv2 by (field; lra).
  assert (∃ f, IEEE.div (ofNat k) (ofNat k) = Fin f ∧ f == 1)%Q as (f & -> & Hf).
  { unfold IEEE.div, ofNat, ofZ. rewrite div_Fin by lra. cbn [IEEE.rounded].
    apply RN_exact; [field; lra | lra | apply representable_one]. }
  assert (∃ p, IEEE.mul (Fin f) (Fin m) = Fin p ∧ p == m)%Q as (p & -> & Hp).
  { unfold IEEE.mul. cbn [Num.mul IEEE.rounded].
    apply RN_exact; [rewrite Hf; ring | done | done]. }
  assert (∃ h, IEEE.mul (Fin p) (IEEE.lit (1 # 2)) = Fin h ∧ h == m / 2)%Q
    as (h & -> & Hh).
  { rewrite lit_half. unfold IEEE.mul. cbn [Num.mul IEEE.rounded].
    apply RN_exact; [rewrite Hp, Hdiv2; ring | lra | done]. }
  assert (∃ u, IEEE.div (Fin m) (ofNat k) = Fin u ∧ 0 <= u)%Q as (u & -> & Hu).
  { unfold IEEE.div, ofNat, ofZ. rewrite div_Fin by lra. cbn [IEEE.rounded].
    assert (0 <= m / inject_Z (Z.of_nat k))%Q as Hu0.
    { apply Qle_shift_div_l; [done | lra]. }
    assert (m / inject_Z (Z.of_nat k) <= m)%Q as Hum.
    { apply Qle_shift_div_r; [done |].
      assert (1 <= inject_Z (Z.of_nat k))%Q
        by (change 1%Q with (inject_Z 1); rewrite <- Zle_Qle; lia).
      nra. }
    destruct (RN_within _ m Hu0 Hum Hrep) as (u & -> & ? & _). by exists u. }
  assert (∃ c, Num.min (Fin h) (IEEE.mul (ofNat wrong) (Fin u)) = Fin c
               ∧ 0 <= c ∧ c <= h)%Q as (c & -> & Hc0 & Hch).
  { unfold IEEE.mul, ofNat, ofZ. cbn [Num.mul IEEE.rounded].
    assert (0 <= inject_Z (Z.of_nat wrong) * u)%Q as Hwu.
    { apply Qmult_le_0_compat; [| done].
      change 0%Q with (inject_Z 0). rewrite <- Zle_Qle. lia. }
    destruct (RN_nonneg _ Hwu) as [-> | (v & -> & Hv)].
    - exists h. split; [reflexivity | split; [lra | apply Qle_refl]].
    - destruct (min_Fin h v) as (c & -> & Hc). exists c. split; [done |].
      rewrite Hc. destruct (Q.min_spec h v) as [[? ->] | [? ->]]; split; lra. }
  unfold IEEE.sub. cbn [Num.sub neg Num.add IEEE.rounded].
  destruct (RN_within (p + - c) m) as (d & Hd & _); [lra | lra | done |].
  rewrite Hd. apply RN_Fin_inv in Hd.
  assert (m / 2 <= d)%Q as Hlow.
  { destruct Hhalf as [Hfix _]. rewrite <- Hfix, Hd.
    apply roundQ_mono; lra. }
  destruct (max_Fin 0 d) as (e & -> & He). simpl.
  rewrite He. destruct (Q.max_spec 0 d) as [[? ->] | [? ->]]; lra.
Qed.

(** The award for no canonical option. *)
Lemma awardOfCounts64_none m (k wrong : nat) :
  (0 <= m)%Q → IEEE.representable m → (0 < k)%nat →
  equiv (awardOfCounts64 (Fin m) k 0 wrong) (Fin 0).
Proof.
  intros Hm Hrep Hk.
  destruct (awardOfCounts64_bounds m k 0 wrong Hm Hrep Hk ltac:(lia))
    as (a & Ha & Ha0 & _).
  revert Ha. unfold awardOfCounts64. cbv zeta.
  pose proof (inject_nat_pos k Hk) as Hk'.
  assert (∃ f, IEEE.div (ofNat 0) (ofNat k) = Fin f ∧ f == 0)%Q as (f & -> & Hf).
  { unfold IEEE.div, ofNat, ofZ. rewrite div_Fin by lra. cbn [IEEE.rounded].
    apply RN_exact; [simpl; field; lra | lra | apply representable_zero]. }
  assert (∃ p, IEEE.mul (Fin f) (Fin m) = Fin p ∧ p == 0)%Q as (p & -> & Hp).
  { unfold IEEE.mul. cbn [Num.mul IEEE.rounded].
    apply RN_exact; [rewrite Hf; ring | lra | apply representable_zero]. }
  assert (∃ h, IEEE.mul (Fin p) (IEEE.lit (1 # 2)) = Fin h ∧ h == 0)%Q
    as (h & -> & Hh).
  { rewrite lit_half. unfold IEEE.mul. cbn [Num.mul IEEE.rounded].
    apply RN_exact; [rewrite Hp; ring | lra | apply representable_zero]. }
  assert (∃ u, IEEE.div (Fin m) (ofNat k) = Fin u ∧ 0 <= u)%Q as (u & -> & Hu).
  { unfold IEEE.div, ofNat, ofZ. rewrite div_Fin by lra. cbn [IEEE.rounded].
    assert (0 <= m / inject_Z (Z.of_nat k))%Q as Hu0.
    { apply Qle_shift_div_l; [done | lra]. }
    assert (m / inject_Z (Z.of_nat k) <= m)%Q as Hum.
    { apply Qle_shift_div_r; [done |].
      assert (1 <= inject_Z (Z.of_nat k))%Q
        by (change 1%Q with (inject_Z 1); rewrite <- Zle_Qle; lia).
      nra. }
    destruct (RN_within _ m Hu0 Hum Hrep) as (u & -> & ? & _). by exists u. }
  assert (∃ c, Num.min (Fin h) (IEEE.mul (ofNat wrong) (Fin u)) = Fin c
               ∧ c == 0)%Q as (c & -> & Hc).
  { unfold IEEE.mul, ofNat, ofZ. cbn [Num.mul IEEE.rounded].
    assert (0 <= inject_Z (Z.of_nat wrong) * u)%Q as Hwu.
    { apply Qmult_le_0_compat; [| done].
      change 0%Q with (inject_Z 0). rewrite <- Zle_Qle. lia. }
    destruct (RN_nonneg _ Hwu) as [-> | (v & -> & Hv)].
    - by exists h.
    - destruct (min_Fin h v) as (c & -> & Hc). exists c. split; [done |].
      rewrite Hc. destruct (Q.min_spec h v) as [[? ->] | [? ->]]; lra. }
  assert (∃ d, IEEE.sub (Fin p) (Fin c) = Fin d ∧ d == 0)%Q as (d & -> & Hd).
  { unfold IEEE.sub. cbn [Num.sub neg Num.add IEEE.rounded].
    apply RN_exact; [rewrite Hp, Hc; ring | lra | apply representable_zero]. }
  destruct (max_Fin 0 d) as (e & -> & He). intros [= <-]. simpl.
  rewrite He. destruct (Q.max_spec 0 d) as [[? ->] | [? ->]]; lra.
Qed.

(** X11. On a multi-choice question with a non-negative point value and at
    least one canonical option: selecting exactly the canonical options
    earns the full point value; selecting all of them together with any
    number of wrong options still earns at least half of it, when that half
    is a binary64 number (as it is for every whole point value); selecting
    no canonical option earns nothing. *)
Theorem multi_choice_full_half_none lower question m r correct r' user :
  q_type question = checkbox →
  q_marks question = Fin m → (0 <= m)%Q → binary64 (Fin m) →
  q_correctAnswer question = Some (VArr r correct) → correct ≠ [] →
  let award :=
    marksAwarded (Binary64.evaluateQuestion lower question (Some (VArr r' user))) in
  ((∀ x, x ∈ user ↔ x ∈ correct) → equiv award (Fin m)) ∧
  (binary64 (Fin (m / 2)) → (∀ x, x ∈ correct → x ∈ user) →
   le (Fin (m / 2)) award) ∧
  ((∀ x, x ∈ user → x ∉ correct) → equiv award (Fin 0)).
Proof.
  intros Hty Hm Hpos Hbin Hca Hne award. subst award.
  unfold Binary64.evaluateQuestion.
  rewrite Hty, Hca, evaluateCheckbox64_spec. cbn [marksAwarded].
  rewrite Hm. unfold multiChoiceAward64.
  set (C := list_to_set correct : gset string).
  set (S := list_to_set user : gset string).
  pose proof (size_canonical_pos correct Hne) as Hk. fold C in Hk.
  pose proof (binary64_representable m Hbin Hpos) as Hrep.
  split; [| split].
  - intros Hsame%same_options_same_set. fold S C in Hsame.
    apply sizes_say_equal in Hsame as [Hcs Hwrong].
    rewrite Hcs, Hwrong. by apply awardOfCounts64_full.
  - intros Hhalf Hsuper.
    assert (S ∩ C = C) as Hcs.
    { apply set_eq. intros x. rewrite elem_of_intersection. split; [tauto |].
      intros Hx. split; [| done].
      apply elem_of_list_to_set, Hsuper. by apply elem_of_list_to_set in Hx. }
    rewrite Hcs. apply awardOfCounts64_half; try done.
    apply binary64_representable; [done |].
    apply Qle_shift_div_l; lra.
  - intros Hnone.
    assert (S ∩ C = ∅) as Hcs.
    { apply set_eq. intros x. unfold S, C.
      rewrite elem_of_intersection, !elem_of_list_to_set.
      split; [intros [Hx Hc']; by apply Hnone in Hx | by intros ?%not_elem_of_empty]. }
    rewrite Hcs, size_empty. by apply awardOfCounts64_none.
Qed.

Lemma multi_choice_full_half_none_witness :
  le (Fin (10 / 2))
     (marksAwarded (Binary64.evaluateQuestion toLowerCase linearQuestion
                      (Some (VArr 2 ["Array"; "Tree"; "Stack"; "Graph"; "Queue"])))).
Proof.
  assert (0 <= 10)%Q as Hpos by discriminate.
  assert (["Array"; "Stack"; "Queue"] ≠ @nil string) as Hne by discriminate.
  assert (binary64 (Fin 10)) as Hbin by (vm_compute; reflexivity).
  assert (binary64 (Fin (10 / 2))) as Hhalf by (vm_compute; reflexivity).
  destruct (multi_choice_full_half_none toLowerCase linearQuestion 10 1
              ["Array"; "Stack"; "Queue"]
              2 ["Array"; "Tree"; "Stack"; "Graph"; "Queue"]
              eq_refl eq_refl Hpos Hbin eq_refl Hne) as (_ & Hhalf' & _).
  apply Hhalf'; [exact Hhalf |].
  intros x. rewrite !elem_of_cons, !elem_of_nil. tauto.
Defined.

Lemma string_app_assoc (a b c : string) :
  ((a ++ b) ++ c)%string = (a ++ b ++ c)%string.
Proof.
  induction a as [|x a IH]; [done |]. by rewrite !append_cons, IH.
Qed.

Lemma includes_extend (s sub before after : string) :
  includes s sub = true → includes (before ++ s ++ after) sub = true.
Proof.
  rewrite !includes_spec. intros (b & a & ->).
  exists (before ++ b)%string, (a ++ after)%string.
  by rewrite !string_app_assoc.
Qed.

Lemma filter_length_mono {A} (f g : A → bool) (l : list A) :
  (∀ x, f x = true → g x = true) →
  (length (List.filter f l) ≤ length (List.filter g l))%nat.
Proof.
  intros Hfg. induction l as [|x l IH]; simpl; [done |].
  destruct (f x) eqn:Hf.
  - rewrite (Hfg x Hf). simpl. lia.
  - destruct (g x); simpl; lia.
Qed.

Lemma asciiOnly_append (a b : string) :
  asciiOnly (a ++ b) = asciiOnly a && asciiOnly b.
Proof.
  induction a as [|c a IH]; [done |]. rewrite append_cons. simpl.
  by rewrite IH, andb_assoc.
Qed.

Lemma matchedKeywords64_ascii lower keywords text :
  lowersASCII lower → asciiOnly text = true →
  Forall (fun keyword => asciiOnly keyword = true) keywords →
  Binary64.matchedKeywords lower keywords text = matchedKeywords keywords text.
Proof.
  intros Hlower Htext Hkeywords. unfold Binary64.matchedKeywords, matchedKeywords.
  rewrite (Hlower text Htext).
  induction Hkeywords as [|k keywords Hk _ IH]; [done |]. simpl.
  by rewrite (Hlower k Hk), IH.
Qed.

Lemma matchedKeywords_extend keywords text before after :
  (length (matchedKeywords keywords text)
   ≤ length (matchedKeywords keywords (before ++ text ++ after)))%nat.
Proof.
  unfold matchedKeywords. apply filter_length_mono. intros keyword.
  rewrite !toLowerCase_append. apply includes_extend.
Qed.

Lemma geb_ofZ_mono (a b : Z) x : a <= b → geb (ofZ a) x = true → geb (ofZ b) x = true.
Proof.
  intros Hab. destruct x as [q| | |]; try done. unfold ofZ.
  rewrite !geb_Fin. intros H. apply Qle_trans with (inject_Z a); [done |].
  by rewrite <- Zle_Qle.
Qed.

(** X12. On a free-text question with a non-negative point value and at
    least one keyword, for ASCII text and keywords, adding text before or
    after an answer never lowers the award and never turns a correct answer
    into an incorrect one. *)
Theorem free_text_more_text lower question m keywords text before after :
  q_type question = descriptive →
  q_marks question = Fin m → (0 <= m)%Q → binary64 (Fin m) →
  q_keywords question = Some keywords → keywords ≠ [] →
  lowersASCII lower →
  asciiOnly (before ++ text ++ after) = true →
  Forall (fun keyword => asciiOnly keyword = true) keywords →
  let short := Binary64.evaluateQuestion lower question (Some (VStr text)) in
  let long :=
    Binary64.evaluateQuestion lower question
      (Some (VStr (before ++ text ++ after))) in
  le (marksAwarded short) (marksAwarded long) ∧
  (isCorrect short = true → isCorrect long = true).
Proof.
  intros Hty Hm Hpos Hbin Hkw Hne Hlower Hascii Hkeywords short long.
  subst short long.
  assert (asciiOnly text = true) as Htext.
  { rewrite !asciiOnly_append in Hascii.
    apply andb_prop in Hascii as [_ Hrest]. by apply andb_prop in Hrest as [? _]. }
  unfold Binary64.evaluateQuestion. rewrite Hty, Hkw, Hm.
  unfold Binary64.evaluateDescriptive. cbn [marksAwarded isCorrect].
  rewrite !(matchedKeywords64_ascii lower) by done.
  pose proof (matchedKeywords_extend keywords text before after) as Hle.
  pose proof (matchedKeywords_length keywords (before ++ text ++ after)) as Hle2.
  set (n1 := length (matchedKeywords keywords text)) in *.
  set (n2 := length (matchedKeywords keywords (before ++ text ++ after))) in *.
  assert (0 < length keywords)%nat as Hk by (destruct keywords; [done | simpl; lia]).
  pose proof (inject_nat_pos _ Hk) as Hk'.
  pose proof (binary64_representable m Hbin Hpos) as Hrep.
  split.
  - unfold len. fold n1 n2.
    change (ofZ (Z.of_nat ?n)) with (ofNat n).
    destruct (div_fraction_within n1 (length keywords)) as (f1 & Hf1 & Hf1b);
      [lia | done |].
    destruct (div_fraction_within n2 (length keywords)) as (f2 & Hf2 & Hf2b);
      [lia | done |].
    assert (f1 <= f2)%Q as Hf.
    { revert Hf1 Hf2. unfold IEEE.div, ofNat, ofZ. rewrite !div_Fin by lra.
      cbn [IEEE.rounded]. intros ->%RN_Fin_inv ->%RN_Fin_inv.
      apply roundQ_mono.
      - apply Qle_shift_div_l; [done |]. rewrite Qmult_0_l.
        change 0%Q with (inject_Z 0). rewrite <- Zle_Qle. lia.
      - apply Qmult_le_compat_r; [rewrite <- Zle_Qle; lia |].
        apply Qlt_le_weak, Qinv_lt_0_compat. done. }
    rewrite Hf1, Hf2. unfold IEEE.mul. cbn [Num.mul IEEE.rounded].
    pose proof (scale_bounds f1 m Hf1b Hpos) as [H10 H11].
    pose proof (scale_bounds f2 m Hf2b Hpos) as [H20 H21].
    destruct (RN_within (f1 * m) m H10 H11 Hrep) as (s1 & Hs1 & _).
    destruct (RN_within (f2 * m) m H20 H21 Hrep) as (s2 & Hs2 & _).
    rewrite Hs1, Hs2. apply RN_Fin_inv in Hs1, Hs2. subst s1 s2.
    rewrite !round_Fin. apply le_ofZ, Qfloor_resp_le, Qplus_le_l.
    apply roundQ_mono; [done |]. apply Qmult_le_compat_r; done.
  - apply geb_ofZ_mono. unfold len. fold n1 n2. lia.
Qed.

Lemma free_text_more_text_witness :
  le (marksAwarded (Binary64.evaluateQuestion toLowerCase linkedListQuestion
                      (Some (VStr "memory"))))
     (marksAwarded (Binary64.evaluateQuestion toLowerCase linkedListQuestion
                      (Some (VStr "dynamic memory use")))).
Proof.
  assert (binary64 (Fin 15)) as Hbin by (vm_compute; reflexivity).
  assert (lowersASCII toLowerCase) as Hlower by (intros s _; reflexivity).
  apply (free_text_more_text toLowerCase linkedListQuestion 15
           ["dynamic"; "memory"; "insertion"; "deletion"; "flexible"]
           "memory" "dynamic " " use");
    [reflexivity | reflexivity | discriminate | exact Hbin | reflexivity
    | discriminate | exact Hlower | reflexivity | repeat constructor].
Defined.

Lemma lower_ascii_idem c : lower_ascii (lower_ascii c) = lower_ascii c.
Proof. by destruct c as [[] [] [] [] [] [] [] []]. Qed.

Lemma toLowerCase_idem s : toLowerCase (toLowerCase s) = toLowerCase s.
Proof. induction s as [|c s IH]; simpl; [done |]. by rewrite lower_ascii_idem, IH. Qed.

Lemma lower_ascii_ascii c :
  (nat_of_ascii c <? 128)%nat = true → (nat_of_ascii (lower_ascii c) <? 128)%nat = true.
Proof.
  intros Hc. destruct (isUpperCase_dec c) as [Hu | Hu].
  - rewrite lower_ascii_upper by done. unfold isUpperCase in Hu.
    apply Nat.ltb_lt. lia.
  - by rewrite lower_ascii_other.
Qed.

Lemma asciiOnly_toLowerCase s : asciiOnly s = true → asciiOnly (toLowerCase s) = true.
Proof.
  induction s as [|c s IH]; [done |]. simpl.
  intros [Hc Hs]%andb_prop. by rewrite lower_ascii_ascii, IH.
Qed.

(** X13. A free-text answer in ASCII is judged without regard to letter
    case: the verdict on a text is the verdict on its lower-case form.  A
    single-choice answer is compared exactly: an answer that differs from
    the canonical option is not correct, even if only the case differs. *)
Theorem case_matters_only_for_single_choice lower question text :
  (q_type question = descriptive →
   lowersASCII lower → asciiOnly text = true →
   Binary64.evaluateQuestion lower question (Some (VStr (lower text)))
   = Binary64.evaluateQuestion lower question (Some (VStr text))) ∧
  (q_type question = mcq →
   q_correctAnswer question ≠ Some (VStr text) →
   isCorrect (Binary64.evaluateQuestion lower question (Some (VStr text))) = false).
Proof.
  split.
  - intros Hty Hlower Htext. unfold Binary64.evaluateQuestion. rewrite Hty.
    destruct (q_keywords question) as [keywords|]; [| done].
    unfold Binary64.evaluateDescriptive, Binary64.matchedKeywords.
    rewrite (Hlower text Htext).
    rewrite (Hlower (toLowerCase text)) by by apply asciiOnly_toLowerCase.
    by rewrite toLowerCase_idem.
  - intros Hty Hne. unfold Binary64.evaluateQuestion. rewrite Hty. cbn [isCorrect].
    destruct (q_correctAnswer question) as [[c|r l]|]; try done.
    simpl. apply String.eqb_neq. congruence.
Qed.

Lemma case_matters_only_for_single_choice_witness :
  Binary64.evaluateQuestion toLowerCase linkedListQuestion
    (Some (VStr (toLowerCase "Dynamic MEMORY")))
  = Binary64.evaluateQuestion toLowerCase linkedListQuestion
      (Some (VStr "Dynamic MEMORY")) ∧
  isCorrect (Binary64.evaluateQuestion toLowerCase stackQuestion
               (Some (VStr "stack"))) = false.
Proof.
  destruct (case_matters_only_for_single_choice toLowerCase linkedListQuestion
              "Dynamic MEMORY") as [Hfree _].
  destruct (case_matters_only_for_single_choice toLowerCase stackQuestion "stack")
    as [_ Hsingle].
  split.
  - apply Hfree; [reflexivity | intros s _; reflexivity | reflexivity].
  - apply Hsingle; [reflexivity | discriminate].
Defined.

Lemma evalStep_fold_agree lower answers answers' questions st :
  (∀ q, q ∈ questions → answers !! q_id q = answers' !! q_id q) →
  foldl (Binary64.evalStep lower answers) st questions
  = foldl (Binary64.evalStep lower answers') st questions.
Proof.
  revert st. induction questions as [|q questions IH]; intros st Hagree; [done |].
  simpl. unfold Binary64.evalStep at 2 4, Binary64.verdictOf.
  rewrite (Hagree q) by left.
  apply IH. intros q' Hq'. apply Hagree. by right.
Qed.

Lemma evalStep_fold_total lower answers questions st :
  (foldl (Binary64.evalStep lower answers) st questions).1
  = foldl IEEE.add st.1
      (map (fun q => marksAwarded (Binary64.verdictOf lower answers q)) questions).
Proof.
  revert st. induction questions as [|q questions IH]; intros st; [done |].
  simpl. by rewrite IH.
Qed.

(** X14. The evaluation reads the answer map only at the ids of the test's
    questions: two answer maps that agree there give the same score and
    the same verdicts, whatever else they hold.  The score is the rounded
    binary64 sum, in question order, of the awards of the verdicts. *)
Theorem evaluateAnswers_reads_question_ids lower test answers :
  (Binary64.evaluateAnswers lower test answers).1
  = round (foldl IEEE.add (Fin 0)
             (map (fun q => marksAwarded (Binary64.verdictOf lower answers q))
                  (t_questions test))) ∧
  ∀ answers',
    (∀ q, q ∈ t_questions test → answers !! q_id q = answers' !! q_id q) →
    Binary64.evaluateAnswers lower test answers
    = Binary64.evaluateAnswers lower test answers'.
Proof.
  split.
  - unfold Binary64.evaluateAnswers. cbn [fst]. by rewrite evalStep_fold_total.
  - intros answers' Hagree. unfold Binary64.evaluateAnswers.
    by rewrite (evalStep_fold_agree lower answers answers').
Qed.

Lemma evaluateAnswers_reads_question_ids_witness :
  Binary64.evaluateAnswers toLowerCase seededTest {["q1" := VStr "Stack"]}
  = Binary64.evaluateAnswers toLowerCase seededTest
      {["q1" := VStr "Stack"; "q9" := VStr "Queue"]}.
Proof.
  apply (evaluateAnswers_reads_question_ids toLowerCase seededTest
           {["q1" := VStr "Stack"]}).
  intros q Hq. simpl in Hq.
  repeat (apply elem_of_cons in Hq as [->|Hq]; [by vm_compute |]).
  by apply elem_of_nil in Hq.
Defined.

(** X15. A single-choice question that carries no canonical option marks a
    missing answer correct and awards it the full point value, and marks
    every submitted answer incorrect with zero marks. *)
Theorem single_choice_without_canonical lower question answer :
  q_type question = mcq →
  q_correctAnswer question = None →
  let verdict := Binary64.evaluateQuestion lower question answer in
  (isCorrect verdict = true ↔ answer = None) ∧
  (answer = None → marksAwarded verdict = q_marks question) ∧
  (answer ≠ None → marksAwarded verdict = Fin 0).
Proof.
  intros Hty Hca verdict. subst verdict.
  unfold Binary64.evaluateQuestion. rewrite Hty, Hca.
  destruct answer as [[s|r l]|]; simpl; repeat split; done.
Qed.

Lemma single_choice_without_canonical_witness :
  marksAwarded
    (Binary64.evaluateQuestion toLowerCase
       {| q_id := "q1"; q_type := mcq; q_text := "Pick one.";
          q_options := Some ["Queue"; "Stack"]; q_correctAnswer := None;
          q_keywords := None; q_marks := ofZ 5; q_co := None; q_po := None |}
       None)
  = ofZ 5.
Proof.
  apply (single_choice_without_canonical toLowerCase
           {| q_id := "q1"; q_type := mcq; q_text := "Pick one.";
              q_options := Some ["Queue"; "Stack"]; q_correctAnswer := None;
              q_keywords := None; q_marks := ofZ 5; q_co := None; q_po := None |}
           None); reflexivity.
Defined.

Lemma IEEE_add_NaN_l x : IEEE.add NaN x = NaN.
Proof. by destruct x. Qed.

Lemma IEEE_add_NaN_r x : IEEE.add x NaN = NaN.
Proof. by destruct x. Qed.

Lemma foldl_add_NaN l : foldl IEEE.add NaN l = NaN.
Proof. induction l as [|x l IH]; [done |]. cbn [foldl]. by rewrite IEEE_add_NaN_l. Qed.

Lemma foldl_add_has_NaN l x : NaN ∈ l → foldl IEEE.add x l = NaN.
Proof.
  revert x. induction l as [|y l IH]; intros x Hin.
  - by apply elem_of_nil in Hin.
  - simpl. apply elem_of_cons in Hin as [<-|Hin].
    + by rewrite IEEE_add_NaN_r, foldl_add_NaN.
    + by apply IH.
Qed.

Lemma filter_has_nothing (l : list string) : List.filter (set_has []) l = [].
Proof. induction l as [|x l IH]; [done |]. simpl. apply IH. Qed.

Lemma IEEE_mul_NaN_l x : IEEE.mul NaN x = NaN.
Proof. by destruct x. Qed.

(** X16. A multi-choice question with an empty canonical array, answered
    with any array, and a free-text question with an empty keyword array,
    answered with any text, are awarded NaN, and the score of a test that
    holds such a question and answer is NaN. *)
Theorem empty_canonical_gives_NaN lower test answers question :
  question ∈ t_questions test →
  (q_type question = checkbox ∧
   (∃ r, q_correctAnswer question = Some (VArr r [])) ∧
   (∃ r' user, answers !! q_id question = Some (VArr r' user)))
  ∨ (q_type question = descriptive ∧
     q_keywords question = Some [] ∧
     (∃ text, answers !! q_id question = Some (VStr text))) →
  (∀ v, answers !! q_id question = Some v →
        marksAwarded (Binary64.evaluateQuestion lower question (Some v)) = NaN) ∧
  (Binary64.evaluateAnswers lower test answers).1 = NaN.
Proof.
  intros Hin Hbad.
  assert (∀ v, answers !! q_id question = Some v →
            marksAwarded (Binary64.evaluateQuestion lower question (Some v)) = NaN)
    as Haward.
  { intros v Hv.
    destruct Hbad as [(Hty & [r Hca] & (r' & user & Hu))|(Hty & Hkw & (text & Hu))];
      rewrite Hu in Hv; injection Hv as <-.
    - unfold Binary64.evaluateQuestion. rewrite Hty, Hca.
      unfold Binary64.evaluateCheckbox. cbn [newSet foldl].
      rewrite filter_has_nothing. cbn [len length Z.of_nat].
      change (IEEE.div (ofZ 0) (ofZ 0)) with NaN. by rewrite IEEE_mul_NaN_l.
    - unfold Binary64.evaluateQuestion. rewrite Hty, Hkw.
      unfold Binary64.evaluateDescriptive, Binary64.matchedKeywords.
      cbn [List.filter len length Z.of_nat].
      cbn [marksAwarded]. change (IEEE.div (ofZ 0) (ofZ 0)) with NaN.
      by rewrite IEEE_mul_NaN_l. }
  split; [done |].
  unfold Binary64.evaluateAnswers. cbn [fst]. rewrite evalStep_fold_total.
  rewrite foldl_add_has_NaN; [done |].
  assert (∃ v, answers !! q_id question = Some v) as [v Hv].
  { destruct Hbad as [(_ & _ & (r' & user & Hu))|(_ & _ & (text & Hu))]; eauto. }
  rewrite <- (Haward v Hv), <- (verdictOf_stored lower answers question v Hv).
  by apply (list_elem_of_fmap_2
              (fun q => marksAwarded (Binary64.verdictOf lower answers q))).
Qed.

Lemma empty_canonical_gives_NaN_witness :
  (Binary64.evaluateAnswers toLowerCase
     {| t_id := "t"; t_title := "T"; t_description := "D"; t_subject := "S";
        t_duration := ofZ 10; t_totalMarks := ofZ 15; t_isActive := true;
        t_createdBy := "T001"; t_createdAt := 0; t_instructions := [];
        t_questions :=
          [ stackQuestion;
            {| q_id := "k"; q_type := descriptive; q_text := "Explain.";
               q_options := None; q_correctAnswer := None; q_keywords := Some [];
               q_marks := ofZ 10; q_co := None; q_po := None |} ] |}
     {["q1" := VStr "Stack"; "k" := VStr "text"]}).1
  = NaN.
Proof.
  apply (empty_canonical_gives_NaN toLowerCase _ _
           {| q_id := "k"; q_type := descriptive; q_text := "Explain.";
              q_options := None; q_correctAnswer := None; q_keywords := Some [];
              q_marks := ofZ 10; q_co := None; q_po := None |}).
  - right. left.
  - right. split; [reflexivity |]. split; [reflexivity |].
    exists "text"%string. by vm_compute.
Defined.

(** * Further properties of the anti-cheat monitor *)

Lemma countEvent_fold events c :
  foldl countEvent c events
  = ((c.1.1.1.1 + length events)%nat,
     (c.1.1.1.2 + eventsOfType tab_switch events)%nat,
     (c.1.1.2 + eventsOfType copy_paste events)%nat,
     (c.1.2 + eventsOfType right_click events)%nat,
     (c.2 + eventsOfType fullscreen_exit events)%nat).
Proof.
  revert c. induction events as [|e events IH]; intros [[[[t a] b] d] f].
  - unfold eventsOfType. simpl. repeat f_equal; lia.
  - cbn [foldl]. rewrite IH. unfold countEvent, eventsOfType. simpl.
    destruct (e_type e); simpl; repeat f_equal; lia.
Qed.

Lemma eventsOfType_app kind l k :
  eventsOfType kind (l ++ k) = (eventsOfType kind l + eventsOfType kind k)%nat.
Proof. unfold eventsOfType. by rewrite List.filter_app, length_app. Qed.

Lemma countSubmissions_fold submissions c :
  foldl (fun c submission => foldl countEvent c (s_antiCheatEvents submission))
        c submissions
  = foldl countEvent c (allEvents submissions).
Proof.
  revert c. induction submissions as [|s submissions IH]; intros c; [done |].
  unfold allEvents. simpl. rewrite foldl_app. apply IH.
Qed.

Lemma eventsOfType_partition events :
  length events
  = (eventsOfType tab_switch events + eventsOfType copy_paste events
     + eventsOfType right_click events + eventsOfType fullscreen_exit events)%nat.
Proof.
  unfold eventsOfType. induction events as [|e events IH]; [done |].
  simpl. destruct (e_type e); simpl; lia.
Qed.

(** X17. In the summary of [calculateAntiCheatSummary] each of the four
    counters is the number of events of its kind in the logs of the selected
    submissions, the total is the number of all their events and equals the
    sum of the four counters, and with no event at all the summary is zero
    throughout with tier Low. *)
Theorem antiCheat_summary_counts selectedTest submissions :
  let summary := calculateAntiCheatSummary selectedTest submissions in
  let events := allEvents (filterBySelectedTest selectedTest submissions) in
  totalEvents summary = length events ∧
  tabSwitches summary = eventsOfType tab_switch events ∧
  copyPasteAttempts summary = eventsOfType copy_paste events ∧
  rightClicks summary = eventsOfType right_click events ∧
  fullscreenExits summary = eventsOfType fullscreen_exit events ∧
  totalEvents summary
  = (tabSwitches summary + copyPasteAttempts summary
     + rightClicks summary + fullscreenExits summary)%nat ∧
  (events = [] →
   summary = {| totalEvents := 0; tabSwitches := 0; copyPasteAttempts := 0;
                rightClicks := 0; fullscreenExits := 0; riskLevel := Low |}).
Proof.
  intros summary events. subst summary events.
  unfold calculateAntiCheatSummary.
  rewrite countSubmissions_fold, countEvent_fold. cbn [fst snd totalEvents
    tabSwitches copyPasteAttempts rightClicks fullscreenExits].
  repeat (split; [done |]). split.
  - apply eventsOfType_partition.
  - by intros ->.
Qed.

Lemma antiCheat_summary_counts_witness :
  calculateAntiCheatSummary "test-1" [attemptWith []]
  = {| totalEvents := 0; tabSwitches := 0; copyPasteAttempts := 0;
       rightClicks := 0; fullscreenExits := 0; riskLevel := Low |}.
Proof.
  apply (antiCheat_summary_counts "test-1" [attemptWith []]). reflexivity.
Defined.

Lemma compareViolations_sign (a b : nat) :
  gtb (sub (ofNat b) (ofNat a)) (Fin 0) = true ↔ (a < b)%nat.
Proof.
  unfold ofNat, ofZ. cbn [sub neg add]. rewrite gtb_Fin.
  rewrite <- inject_Z_opp, <- inject_Z_plus.
  change 0%Q with (inject_Z 0). rewrite <- Zlt_Qlt. lia.
Qed.

(** X18. [generateStudentRiskProfiles] returns one profile for each
    selected submission that has at least one event and none for the
    others; the profiles are in descending order of their number of
    violations, and each number is at least one. *)
Theorem risk_profiles_sorted selectedTest submissions tests :
  let profiles := generateStudentRiskProfiles selectedTest submissions tests in
  profiles ≡ₚ
    map (studentRiskProfile tests)
        (List.filter (fun submission => (0 <? length (s_antiCheatEvents submission))%nat)
                     (filterBySelectedTest selectedTest submissions)) ∧
  (∀ i j a b, profiles !! i = Some a → profiles !! j = Some b → (i < j)%nat →
     (p_totalViolations b ≤ p_totalViolations a)%nat) ∧
  (∀ profile, profile ∈ profiles → (1 ≤ p_totalViolations profile)%nat).
Proof.
  intros profiles. subst profiles. unfold generateStudentRiskProfiles.
  split; [apply sort_perm |]. split.
  - intros i j a b Ha Hb Hij.
    eapply (StronglySorted_lookup moreViolations _ i j a b); [| done | done | done].
    apply (sort_sorted _ moreViolations (fun _ => True)).
    + unfold moreViolations. intros x y z. lia.
    + intros x y _ _ H%compareViolations_sign. unfold moreViolations. lia.
    + intros x y _ _ H. unfold moreViolations.
      destruct (decide (p_totalViolations x < p_totalViolations y)%nat) as [Hlt|]; [| lia].
      apply compareViolations_sign in Hlt. congruence.
    + by apply Forall_forall.
  - intros profile Hin. apply elem_of_sort, list_elem_of_fmap in Hin
      as (submission & -> & Hsub).
    apply elem_of_List_filter in Hsub as [_ Hpos%Nat.ltb_lt]. simpl. lia.
Qed.

Lemma filterBySelectedTest_subset selectedTest (submissions : list TestSubmission) s :
  s ∈ filterBySelectedTest selectedTest submissions → s ∈ submissions.
Proof.
  unfold filterBySelectedTest. destruct (String.eqb selectedTest "all"); [done |].
  by intros [? _]%elem_of_List_filter.
Qed.

Lemma find_first_with_id (tests : list Test) id :
  existsb (fun test => String.eqb (t_id test) id) tests = true →
  ∃ test, List.find (fun t => String.eqb (t_id t) id) tests = Some test ∧
          test ∈ tests ∧ t_id test = id.
Proof.
  intros (x & Hx & Hid)%existsb_exists.
  destruct (List.find (fun t => String.eqb (t_id t) id) tests) as [test|] eqn:Hfind.
  - apply find_some in Hfind as [Hin Heq]. exists test.
    split; [done |]. split; [by apply list_elem_of_In | by apply String.eqb_eq].
  - eapply find_none in Hfind; [| done]. simpl in Hfind. congruence.
Qed.

Lemma filter_none {A} (f : A → bool) (l : list A) :
  (∀ x, f x = false) → List.filter f l = [].
Proof.
  intros Hf. induction l as [|x l IH]; [done |]. simpl. by rewrite Hf.
Qed.

(** X19. The monitor loaded for a user shows only that user's tests: every
    risk profile belongs to a submission to a stored test that the user
    created, and carries the title of the first such test with that id
    (the text "Unknown Test" only if that title is empty).  With nobody
    logged in the summary is zero with tier Low and there is no profile. *)
Theorem monitor_shows_own_tests userId selectedTest st :
  let loaded := (loadAntiCheatData userId selectedTest st).1 in
  (∀ profile, profile ∈ loaded.2 →
     ∃ test, test ∈ (getTests st).1 ∧
             createdByUser userId test = true ∧
             t_id test = p_testId profile ∧
             p_testTitle profile
             = if String.eqb (t_title test) "" then "Unknown Test"%string
               else t_title test) ∧
  (userId = None →
   loaded.1 = {| totalEvents := 0; tabSwitches := 0; copyPasteAttempts := 0;
                 rightClicks := 0; fullscreenExits := 0; riskLevel := Low |} ∧
   loaded.2 = []).
Proof.
  intros loaded. subst loaded. unfold loadAntiCheatData.
  destruct (getTests st) as [tests st1] eqn:Htests.
  destruct (getSubmissions st1) as [subs st2]. cbn [fst snd].
  split.
  - intros profile Hin. unfold generateStudentRiskProfiles in Hin.
    apply elem_of_sort, list_elem_of_fmap in Hin as (submission & -> & Hsub).
    apply elem_of_List_filter in Hsub as [Hsub _].
    apply filterBySelectedTest_subset, elem_of_List_filter in Hsub as [_ Hown].
    apply find_first_with_id in Hown as (test & Hfind & Htest & Hid).
    apply elem_of_List_filter in Htest as [Htest Hcreated].
    exists test. unfold studentRiskProfile. cbn [p_testId p_testTitle].
    rewrite Hfind. done.
  - intros ->.
    rewrite (filter_none (createdByUser None) tests) by done.
    rewrite (filter_none _ subs) by done.
    unfold filterBySelectedTest. split.
    + unfold calculateAntiCheatSummary, filterBySelectedTest.
      by destruct (String.eqb selectedTest "all").
    + unfold generateStudentRiskProfiles, filterBySelectedTest.
      by destruct (String.eqb selectedTest "all").
Qed.

(** * Further properties of the outcome analytics *)

Lemma addSubmissions_count question data (subs : list TestSubmission) :
  questionCount (foldl (addSubmission question) data subs) = questionCount data.
Proof.
  revert data. induction subs as [|s subs IH]; intros data; [done |].
  simpl. rewrite IH. unfold addSubmission.
  destruct (_ !! _); [done |]. by destruct (inheritedMember _).
Qed.

Lemma addQuestion_untagged axis subs (totals : gmap string OutcomeData) question tag :
  taggedWith axis tag question = false →
  addQuestion axis subs totals question !! tag = totals !! tag.
Proof.
  unfold addQuestion, taggedWith.
  destruct (axisTag axis question) as [t|]; [| done].
  destruct (String.eqb t "" || inheritedMember t); [done |].
  cbn [negb]. rewrite andb_true_r. intros Hneq%String.eqb_neq.
  by rewrite lookup_insert_ne.
Qed.

Lemma addQuestion_tagged axis subs (totals : gmap string OutcomeData) question tag :
  taggedWith axis tag question = true →
  ∃ data, addQuestion axis subs totals question !! tag = Some data ∧
          questionCount data
          = S (default 0%nat (questionCount <$> totals !! tag)).
Proof.
  unfold addQuestion, taggedWith.
  destruct (axisTag axis question) as [t|]; [| done].
  destruct (String.eqb t "" || inheritedMember t); [by rewrite andb_false_r |].
  cbn [negb]. rewrite andb_true_r. intros ->%String.eqb_eq.
  rewrite lookup_insert_eq. eexists. split; [done |].
  rewrite addSubmissions_count. simpl. by destruct (totals !! tag).
Qed.

Lemma addQuestion_countsTagged axis subs totals seen question :
  countsTagged axis totals seen →
  countsTagged axis (addQuestion axis subs totals question) (seen ++ [question]).
Proof.
  intros Hinv tag. specialize (Hinv tag). rewrite filter_snoc.
  destruct (taggedWith axis tag question) eqn:Htag.
  - destruct (addQuestion_tagged axis subs totals question tag Htag)
      as (data & -> & Hcount).
    rewrite Hcount, length_app. simpl.
    split; [| intros [_ [=]]%app_eq_nil].
    destruct (totals !! tag) as [old|]; simpl.
    + destruct Hinv as [-> _]. lia.
    + rewrite Hinv. simpl. lia.
  - rewrite addQuestion_untagged, app_nil_r by done. exact Hinv.
Qed.

Lemma addQuestions_countsTagged axis subs questions totals seen :
  countsTagged axis totals seen →
  countsTagged axis (foldl (addQuestion axis subs) totals questions) (seen ++ questions).
Proof.
  revert totals seen. induction questions as [|q questions IH]; intros totals seen Hinv.
  - by rewrite app_nil_r.
  - cbn [foldl]. rewrite (assoc_L (++) seen [q] questions : seen ++ q :: questions = _).
    apply IH. by apply addQuestion_countsTagged.
Qed.

Lemma addTests_countsTagged axis subs tests totals seen :
  countsTagged axis totals seen →
  countsTagged axis (foldl (addTest axis subs) totals tests)
               (seen ++ concat (map t_questions tests)).
Proof.
  revert totals seen. induction tests as [|t tests IH]; intros totals seen Hinv.
  - simpl. by rewrite app_nil_r.
  - cbn [foldl map concat]. rewrite (assoc_L (++)).
    apply IH. unfold addTest. by apply addQuestions_countsTagged.
Qed.

(** X20. The outcome totals have an entry for a tag exactly when some
    question of the selected tests carries that tag on the chosen axis, the
    empty tag, a tag that names a member of [Object.prototype] and untagged
    questions giving no entry; the question count of the entry is the number
    of questions of the selected tests that carry the tag. *)
Theorem outcome_totals_count_tagged_questions axis selectedTest tests submissions tag :
  let questions := concat (map t_questions (selectedTests selectedTest tests)) in
  let tagged := List.filter (taggedWith axis tag) questions in
  match outcomeTotals axis selectedTest tests submissions !! tag with
  | Some data => questionCount data = length tagged ∧ tagged ≠ []
  | None => tagged = []
  end.
Proof.
  intros questions tagged. subst questions tagged.
  unfold outcomeTotals. fold (selectedTests selectedTest tests).
  apply (addTests_countsTagged axis submissions (selectedTests selectedTest tests) ∅ []).
  intros tag'. by rewrite lookup_empty.
Qed.

(** X21. The outcome report has one entry per tag of the totals: the tags
    of its entries are pairwise distinct and as many as the totals have
    keys. *)
Theorem outcome_report_one_entry_per_tag parseInt replace localeCompare axis
    selectedTest copoMapping tests submissions :
  let report :=
    calculatePerformance parseInt replace localeCompare axis selectedTest
                         copoMapping tests submissions in
  NoDup (map o_outcome report) ∧
  length report = size (outcomeTotals axis selectedTest tests submissions) ∧
  ∀ tag, tag ∈ map o_outcome report
         ↔ is_Some (outcomeTotals axis selectedTest tests submissions !! tag).
Proof.
  intros report. subst report. unfold calculatePerformance.
  set (totals := outcomeTotals axis selectedTest tests submissions).
  assert (map o_outcome
            (sort (fun a b => localeCompare (o_outcome a) (o_outcome b))
                  (map (fun kv => outcomePerformance parseInt replace axis copoMapping
                                    kv.1 kv.2) (map_to_list totals)))
          ≡ₚ (map_to_list totals).*1) as Hperm.
  { rewrite sort_perm, <- list_fmap_compose. done. }
  split; [| split].
  - rewrite Hperm. apply NoDup_fst_map_to_list.
  - rewrite length_sort, length_map. apply length_map_to_list.
  - intros tag. rewrite Hperm, list_elem_of_fmap. split.
    + intros ([k v] & -> & Hkv%elem_of_map_to_list). by exists v.
    + intros [v Hv]. exists (tag, v). split; [done | by apply elem_of_map_to_list].
Qed.
